(** * MS Ally: the multi-turn conversation protocol of the front end

    A shallow embedding of the conversational code of the front end:

    - [services/api.ts]            : [chatWithAgent]
    - [components/Chat.tsx]        : [sendMessage], [playTTS], [clearChat]
    - [components/VoiceAssistant.tsx] : the mount effect installing the speech
      recognition callbacks, [startListening], [stopListening],
      [stopSpeaking], [handleUserSpeech], [playTTS], [clearConversation]
    - [App.tsx]                    : [handleSend]

    The handlers are [async] functions of React components.  They are
    embedded as terms of a small free monad [Proc] whose effects are the
    ones the code performs (state setters, [fetch], [Audio], [console.error],
    the speech recogniser); a scheduler runs a term until its next [await]
    and resumes it when the awaited operation completes.  A handler reads
    the state variables of the render in which it was created (its closure)
    and writes through the setters; refs are read live. *)

From Stdlib Require Import String Ascii DecimalString Bool NArith Arith Lia List.
Import ListNotations.

Set Implicit Arguments.

(* ================================================================== *)
(** ** JavaScript strings *)
(* ================================================================== *)

Module Js.

(** A JavaScript string is a sequence of UTF-16 code units. *)
Definition jsstring := list N.

(** Literals of the source, all ASCII. *)
Definition lit (s : string) : jsstring :=
  map N_of_ascii (list_ascii_of_string s).

(** [!!s] for a string: the empty string is the only falsy one. *)
Definition truthy (s : jsstring) : bool :=
  match s with [] => false | _ :: _ => true end.

(** [o || undefined], [if (o)] for [string | undefined | null]. *)
Definition truthy_opt (o : option jsstring) : bool :=
  match o with Some s => truthy s | None => false end.

(** ECMAScript WhiteSpace and LineTerminator code points, the ones
    [String.prototype.trim] strips. *)
Definition is_ws (c : N) : bool :=
  ((9 <=? c) && (c <=? 13) || (c =? 32) || (c =? 160) || (c =? 5760)
   || ((8192 <=? c) && (c <=? 8202)) || (c =? 8232) || (c =? 8233)
   || (c =? 8239) || (c =? 8287) || (c =? 12288) || (c =? 65279))%N.

Fixpoint trimStart (s : jsstring) : jsstring :=
  match s with
  | c :: r => if is_ws c then trimStart r else s
  | [] => []
  end.

Definition trimEnd (s : jsstring) : jsstring := rev (trimStart (rev s)).

Definition trim (s : jsstring) : jsstring := trimEnd (trimStart s).

Definition eqb (a b : jsstring) : bool :=
  if list_eq_dec N.eq_dec a b then true else false.

End Js.
Import Js.

(* ================================================================== *)
(** ** The wire: requests and responses *)
(* ================================================================== *)

Inductive Role := user | assistant.

(** [ChatMessage] of services/api.ts. *)
Record ChatMessage := mkMsg { role : Role; content : jsstring }.

(** [ChatResponse] of services/api.ts. *)
Record ChatResponse := mkResp { text : jsstring; session_id : jsstring }.

(** The object handed to [JSON.stringify] by the callers of [fetch].  A
    property whose value is [undefined] is left out of the JSON text, which
    is what [None] stands for. *)
Inductive Body :=
| ChatBody (message : jsstring) (history : list ChatMessage)
           (session_id : option jsstring) (inputType : jsstring)
| SpeakBody (text : jsstring).

Inductive Method := GET | POST.

Record HttpRequest := mkReq {
  url : jsstring;
  method : Method;
  headers : list (jsstring * jsstring);
  body : Body
}.

(** What the code reads of a [Response]: the status, [statusText], the
    outcome of [response.json()] ([None]: the promise rejects) and of
    [response.blob()].  Reading the body is folded into the completion of
    the [fetch]: the code performs no effect between the two awaits. *)
Record Response := mkResponse {
  status : N;
  statusText : jsstring;
  json : option ChatResponse;
  blob : option N
}.

(** [response.ok]: the status is in the range 200-299. *)
Definition ok (r : Response) : bool :=
  ((200 <=? status r) && (status r <=? 299))%N.

(** A [fetch] promise either rejects (network error) or resolves. *)
Inductive FetchResult :=
| FetchRejected
| FetchResponse (r : Response).

(** A request that fails: the fetch is rejected (a network error) or the
    status is not a 2xx one. *)
Definition failed (r : FetchResult) : bool :=
  match r with
  | FetchRejected => true
  | FetchResponse resp => negb (ok resp)
  end.

(** The [history] and the [session_id] a chat request carries. *)
Definition history_of (req : HttpRequest) : list ChatMessage :=
  match body req with
  | ChatBody _ h _ _ => h
  | SpeakBody _ => []
  end.

Definition session_of (req : HttpRequest) : option jsstring :=
  match body req with
  | ChatBody _ _ s _ => s
  | SpeakBody _ => None
  end.

Definition AudioId := nat.

(** The operations a handler awaits, and what they complete with. *)
Inductive Op :=
| OpFetch (req : HttpRequest)
| OpPlay (a : AudioId).

Inductive OpResult :=
| Fetched (r : FetchResult)
| Played (started : bool).

(** The completion of a chat request answered 200 with [reply]. *)
Definition ok_reply (reply : ChatResponse) : OpResult :=
  Fetched (FetchResponse (mkResponse 200 (lit "OK") (Some reply) None)).

Definition answers (op : Op) (r : OpResult) : bool :=
  match op, r with
  | OpFetch _, Fetched _ => true
  | OpPlay _, Played _ => true
  | _, _ => false
  end.

(* ================================================================== *)
(** ** Asynchronous handlers *)
(* ================================================================== *)

Section Async.

(** The state variables ([useState], [useRef]) of the component. *)
Variable St : Type.

(** The effects of a handler, in the order the code performs them.
    [SetState] is a setter call; [Peek] reads a ref ([.current], live);
    [Await] suspends until the operation completes; [Spawn p] calls the
    [async] function [p] without awaiting it; [OnEnded] assigns
    [audio.onended]; [Emit] is the [onTranscript] callback of the parent;
    [RecStart] and [RecStop] are the methods of the recogniser the
    handlers call ([start] throws when a capture is already running);
    [Now] is [Date.now()]. *)
Inductive Proc (R : Type) : Type :=
| Ret (r : R)
| Throw (e : jsstring)
| SetState (f : St -> St) (k : Proc R)
| Peek (k : St -> Proc R)
| Await (op : Op) (k : OpResult -> Proc R)
| NewAudio (k : AudioId -> Proc R)
| PauseAudio (a : AudioId) (k : Proc R)
| OnEnded (a : AudioId) (h : Proc unit) (k : Proc R)
| Spawn (p : Proc unit) (k : Proc R)
| ConsoleError (msg : jsstring) (k : Proc R)
| Emit (m : ChatMessage) (k : Proc R)
| RecStart (k : bool -> Proc R)
| RecStop (k : Proc R)
| Now (k : N -> Proc R).

Arguments Ret {R} r.
Arguments Throw {R} e.

(** Sequencing: [p; f x]. *)
Fixpoint bind {A B} (p : Proc A) (f : A -> Proc B) : Proc B :=
  match p with
  | Ret a => f a
  | Throw e => Throw e
  | SetState g k => SetState g (bind k f)
  | Peek k => Peek (fun s => bind (k s) f)
  | Await op k => Await op (fun r => bind (k r) f)
  | NewAudio k => NewAudio (fun a => bind (k a) f)
  | PauseAudio a k => PauseAudio a (bind k f)
  | OnEnded a h k => OnEnded a h (bind k f)
  | Spawn q k => Spawn q (bind k f)
  | ConsoleError m k => ConsoleError m (bind k f)
  | Emit m k => Emit m (bind k f)
  | RecStart k => RecStart (fun b => bind (k b) f)
  | RecStop k => RecStop (bind k f)
  | Now k => Now (fun t => bind (k t) f)
  end.

(** [try { p } catch (e) { h e }]. *)
Fixpoint try_catch {A} (p : Proc A) (h : jsstring -> Proc A) : Proc A :=
  match p with
  | Ret a => Ret a
  | Throw e => h e
  | SetState g k => SetState g (try_catch k h)
  | Peek k => Peek (fun s => try_catch (k s) h)
  | Await op k => Await op (fun r => try_catch (k r) h)
  | NewAudio k => NewAudio (fun a => try_catch (k a) h)
  | PauseAudio a k => PauseAudio a (try_catch k h)
  | OnEnded a hd k => OnEnded a hd (try_catch k h)
  | Spawn q k => Spawn q (try_catch k h)
  | ConsoleError m k => ConsoleError m (try_catch k h)
  | Emit m k => Emit m (try_catch k h)
  | RecStart k => RecStart (fun b => try_catch (k b) h)
  | RecStop k => RecStop (try_catch k h)
  | Now k => Now (fun t => try_catch (k t) h)
  end.

(** [try { p } finally { q }]: [q] runs on both exits, and the outcome of
    [p] is kept. *)
Definition finally {A} (p : Proc A) (q : Proc unit) : Proc A :=
  bind (try_catch (bind p (fun a => Ret (inl a)))
                  (fun e => Ret (inr e)))
       (fun r => bind q (fun _ =>
          match r with inl a => Ret a | inr e => Throw e end)).

Definition skip : Proc unit := Ret tt.
Definition set (f : St -> St) : Proc unit := SetState f skip.
Definition when (b : bool) (p : Proc unit) : Proc unit :=
  if b then p else skip.
Definition console_error (m : jsstring) : Proc unit :=
  ConsoleError m skip.
Definition spawn (p : Proc unit) : Proc unit := Spawn p skip.

(** [await fetch(...)] with the body read: a rejected fetch throws. *)
Definition fetch_result (r : OpResult) : Proc Response :=
  match r with
  | Fetched (FetchResponse resp) => Ret resp
  | _ => Throw (lit "TypeError: Failed to fetch")
  end.

Definition fetch (req : HttpRequest) : Proc Response :=
  Await (OpFetch req) fetch_result.

(** [await audio.play()]: resolves once playback has started, rejects
    when it cannot start. *)
Definition play_result (r : OpResult) : Proc unit :=
  match r with
  | Played true => Ret tt
  | _ => Throw (lit "NotAllowedError")
  end.

Definition play (a : AudioId) : Proc unit :=
  Await (OpPlay a) play_result.

(** *** The scheduler *)

(** The component and what surrounds it: the suspended handlers with the
    operation each awaits, the requests sent so far, the audio elements
    that are playing, the [onended] listeners, the console, the errors
    no handler caught, what was passed to [onTranscript], whether the
    recogniser is capturing, and the clock. *)
Record World := mkWorld {
  st : St;
  pending : list (Op * (OpResult -> Proc unit));
  sent : list HttpRequest;
  playing : list AudioId;
  next_audio : AudioId;
  listeners : list (AudioId * Proc unit);
  console : list jsstring;
  uncaught : list jsstring;
  emitted : list ChatMessage;
  capturing : bool;
  clock : N
}.

Definition with_st (f : St -> St) (w : World) : World :=
  mkWorld (f (st w)) (pending w) (sent w) (playing w) (next_audio w)
          (listeners w) (console w) (uncaught w) (emitted w)
          (capturing w) (clock w).

Definition with_pending (p : list (Op * (OpResult -> Proc unit)))
           (w : World) : World :=
  mkWorld (st w) p (sent w) (playing w) (next_audio w)
          (listeners w) (console w) (uncaught w) (emitted w)
          (capturing w) (clock w).

Definition with_sent (l : list HttpRequest) (w : World) : World :=
  mkWorld (st w) (pending w) l (playing w) (next_audio w)
          (listeners w) (console w) (uncaught w) (emitted w)
          (capturing w) (clock w).

Definition with_playing (l : list AudioId) (w : World) : World :=
  mkWorld (st w) (pending w) (sent w) l (next_audio w)
          (listeners w) (console w) (uncaught w) (emitted w)
          (capturing w) (clock w).

Definition with_next_audio (n : AudioId) (w : World) : World :=
  mkWorld (st w) (pending w) (sent w) (playing w) n
          (listeners w) (console w) (uncaught w) (emitted w)
          (capturing w) (clock w).

Definition with_listeners (l : list (AudioId * Proc unit))
           (w : World) : World :=
  mkWorld (st w) (pending w) (sent w) (playing w) (next_audio w)
          l (console w) (uncaught w) (emitted w)
          (capturing w) (clock w).

Definition with_console (l : list jsstring) (w : World) : World :=
  mkWorld (st w) (pending w) (sent w) (playing w) (next_audio w)
          (listeners w) l (uncaught w) (emitted w)
          (capturing w) (clock w).

Definition with_uncaught (l : list jsstring) (w : World) : World :=
  mkWorld (st w) (pending w) (sent w) (playing w) (next_audio w)
          (listeners w) (console w) l (emitted w)
          (capturing w) (clock w).

Definition with_emitted (l : list ChatMessage) (w : World) : World :=
  mkWorld (st w) (pending w) (sent w) (playing w) (next_audio w)
          (listeners w) (console w) (uncaught w) l
          (capturing w) (clock w).

Definition with_capturing (b : bool) (w : World) : World :=
  mkWorld (st w) (pending w) (sent w) (playing w) (next_audio w)
          (listeners w) (console w) (uncaught w) (emitted w)
          b (clock w).

Definition with_clock (t : N) (w : World) : World :=
  mkWorld (st w) (pending w) (sent w) (playing w) (next_audio w)
          (listeners w) (console w) (uncaught w) (emitted w)
          (capturing w) t.

(** The wire once [op] is started: a fetch puts its request on it. *)
Definition put_on_wire (op : Op) (l : list HttpRequest)
  : list HttpRequest :=
  match op with OpFetch req => l ++ [req] | OpPlay _ => l end.

(** Runs a handler up to its next [await] (or to its end).  An [await]
    parks the rest of the handler; a fetch is on the wire from then on.
    An error no [catch] took ends the handler (an unhandled rejection). *)
Fixpoint exec (p : Proc unit) (w : World) : World :=
  match p with
  | Ret _ => w
  | Throw e => with_uncaught (uncaught w ++ [e]) w
  | SetState f k => exec k (with_st f w)
  | Peek k => exec (k (st w)) w
  | Await op k =>
      with_sent (put_on_wire op (sent w))
        (with_pending (pending w ++ [(op, k)]) w)
  | NewAudio k =>
      exec (k (next_audio w)) (with_next_audio (S (next_audio w)) w)
  | PauseAudio a k =>
      exec k (with_playing (remove Nat.eq_dec a (playing w)) w)
  | OnEnded a h k => exec k (with_listeners ((a, h) :: listeners w) w)
  | Spawn q k => exec k (exec q w)
  | ConsoleError m k => exec k (with_console (console w ++ [m]) w)
  | Emit m k => exec k (with_emitted (emitted w ++ [m]) w)
  | RecStart k =>
      if capturing w then exec (k false) w
      else exec (k true) (with_capturing true w)
  | RecStop k => exec k w
  | Now k => exec (k (clock w)) w
  end.

Fixpoint remove_nth {A} (i : nat) (l : list A) : list A :=
  match i, l with
  | _, [] => []
  | O, _ :: r => r
  | S j, x :: r => x :: remove_nth j r
  end.

Definition started (op : Op) (r : OpResult) : list AudioId :=
  match op, r with
  | OpPlay a, Played true => [a]
  | _, _ => []
  end.

(** The [i]-th awaited operation completes with [r]: the handler parked
    on it resumes.  Playback that started is audible from then on. *)
Definition complete (i : nat) (r : OpResult) (w : World) : World :=
  match nth_error (pending w) i with
  | Some (op, k) =>
      if answers op r then
        exec (k r)
             (with_playing (playing w ++ started op r)
                (with_pending (remove_nth i (pending w)) w))
      else w
  | None => w
  end.

Fixpoint lookup_listener (a : AudioId) (l : list (AudioId * Proc unit))
  : Proc unit :=
  match l with
  | [] => skip
  | (b, h) :: r => if Nat.eqb a b then h else lookup_listener a r
  end.

(** A playing audio element reaches its end: it stops being audible and
    its [onended] listener runs. *)
Definition audio_ended (a : AudioId) (w : World) : World :=
  if existsb (Nat.eqb a) (playing w) then
    exec (lookup_listener a (listeners w))
         (with_playing (remove Nat.eq_dec a (playing w)) w)
  else w.

Definition init_world (s : St) : World :=
  mkWorld s [] [] [] 0 [] [] [] [] false 0.

(** The chat requests on the wire that are still unanswered. *)
Definition is_chat_request (op : Op) : bool :=
  match op with
  | OpFetch (mkReq _ _ _ (ChatBody _ _ _ _)) => true
  | _ => false
  end.

Definition chat_in_flight (w : World) : nat :=
  length (filter (fun t => is_chat_request (fst t)) (pending w)).

End Async.

Arguments Ret {St R} r.
Arguments Throw {St R} e.
Arguments skip {St}.
Arguments NewAudio {St R} k.
Arguments RecStart {St R} k.
Arguments Now {St R} k.
Arguments Peek {St R} k.

Declare Scope proc_scope.
Delimit Scope proc_scope with proc.
Notation "x <- p ;; q" := (bind p (fun x => q))
  (at level 61, p at next level, right associativity) : proc_scope.
Notation "p ;; q" := (bind p (fun _ => q))
  (at level 61, right associativity) : proc_scope.
Open Scope proc_scope.

(** A service function outside the component has no state variables to
    touch; [lift] runs such a function inside a handler. *)
Fixpoint lift {St R : Type} (p : Proc unit R) {struct p} : Proc St R :=
  match p with
  | Ret r => Ret r
  | Throw e => Throw e
  | SetState _ k => lift k
  | Peek k => lift (k tt)
  | Await op k => Await op (fun r => lift (k r))
  | NewAudio k => NewAudio (fun a => lift (k a))
  | PauseAudio a k => PauseAudio a (lift k)
  | OnEnded a h k => OnEnded a (lift h) (lift k)
  | Spawn q k => Spawn (lift q) (lift k)
  | ConsoleError m k => ConsoleError m (lift k)
  | Emit m k => Emit m (lift k)
  | RecStart k => RecStart (fun b => lift (k b))
  | RecStop k => RecStop (lift k)
  | Now k => Now (fun t => lift (k t))
  end.

(* ================================================================== *)
(** ** services/api.ts *)
(* ================================================================== *)

Module Api.
Section Api.

(** [import.meta.env.VITE_BACKEND_URL], fixed when the bundle is built. *)
Variable VITE_BACKEND_URL : option jsstring.

Definition BACKEND_URL : jsstring :=
  match VITE_BACKEND_URL with
  | Some u => if truthy u then u
              else lit "https://for-ms-backend-22097057568.us-west1.run.app/"
  | None => lit "https://for-ms-backend-22097057568.us-west1.run.app/"
  end.

Definition json_headers : list (jsstring * jsstring) :=
  [(lit "Content-Type", lit "application/json")].

Definition chat_request (message : jsstring) (history : list ChatMessage)
           (sessionId : option jsstring) (inputType : jsstring)
  : HttpRequest :=
  mkReq (BACKEND_URL ++ lit "/chat") POST json_headers
        (ChatBody message history sessionId inputType).

(** After the [fetch]: [if (!response.ok) throw ...; return
    response.json()]. *)
Definition read_reply {St} (response : Response) : Proc St ChatResponse :=
  if negb (ok response) then
    Throw (lit "Chat failed: " ++ statusText response)
  else
    match json response with
    | Some r => Ret r
    | None => Throw (lit "SyntaxError")
    end.

(** [chatWithAgent(message, history = [], sessionId?, inputType = "Text")].
    An argument left out is [None]. *)
Definition chatWithAgent {St} (message : jsstring)
           (history : option (list ChatMessage))
           (sessionId : option jsstring)
           (inputType : option jsstring) : Proc St ChatResponse :=
  let history := match history with Some h => h | None => [] end in
  let inputType :=
    match inputType with Some t => t | None => lit "Text" end in
  response <- fetch St (chat_request message history sessionId inputType) ;;
  read_reply response.

End Api.
End Api.

(* ================================================================== *)
(** ** components/Chat.tsx *)
(* ================================================================== *)

Module Chat.

Record State := mkState {
  messages : list ChatMessage;
  inputText : jsstring;
  isLoading : bool;
  sessionId : option jsstring;
  error : option jsstring
}.

(** [useState] initial values. *)
Definition initial : State := mkState [] [] false None None.

Definition setMessages (v : list ChatMessage) (s : State) : State :=
  mkState v (inputText s) (isLoading s) (sessionId s) (error s).
Definition setInputText (v : jsstring) (s : State) : State :=
  mkState (messages s) v (isLoading s) (sessionId s) (error s).
Definition setIsLoading (v : bool) (s : State) : State :=
  mkState (messages s) (inputText s) v (sessionId s) (error s).
Definition setSessionId (v : option jsstring) (s : State) : State :=
  mkState (messages s) (inputText s) (isLoading s) v (error s).
Definition setError (v : option jsstring) (s : State) : State :=
  mkState (messages s) (inputText s) (isLoading s) (sessionId s) v.

Section Component.

Variable VITE_BACKEND_URL : option jsstring.

(** The [isSpeechEnabled] prop. *)
Variable isSpeechEnabled : bool.

Definition BACKEND_URL : jsstring :=
  match VITE_BACKEND_URL with
  | Some u => if truthy u then u else lit "http://localhost:8000"
  | None => lit "http://localhost:8000"
  end.

Definition speak_request (t : jsstring) : HttpRequest :=
  mkReq (BACKEND_URL ++ lit "/speak") POST Api.json_headers (SpeakBody t).

(** [playTTS]: a response that is not ok returns at once; everything
    thrown is caught and logged. *)
Definition tts_body (response : Response) : Proc State unit :=
  if negb (ok response) then Ret tt
  else
    match blob response with
    | None => Throw (lit "TypeError")
    | Some _ =>
        audio <- NewAudio (fun a => Ret a) ;;
        OnEnded audio skip skip ;;
        play State audio
    end.

Definition tts_catch (err : jsstring) : Proc State unit :=
  console_error State (lit "TTS error:").

Definition playTTS (t : jsstring) : Proc State unit :=
  try_catch
    (response <- fetch State (speak_request t) ;; tts_body response)
    tts_catch.

(** What [sendMessage] does with the reply, inside its [try]. *)
Definition after_reply (updatedMessages : list ChatMessage)
           (result : ChatResponse) : Proc State unit :=
  when (truthy (session_id result))
       (set (setSessionId (Some (session_id result)))) ;;
  set (setMessages (updatedMessages ++ [mkMsg assistant (text result)])) ;;
  when isSpeechEnabled (spawn (playTTS (text result))).

(** The [catch] block of [sendMessage]. *)
Definition send_catch (c : State) (err : jsstring) : Proc State unit :=
  console_error State (lit "Chat error:") ;;
  set (setError (Some (lit "Failed to send message. Please try again."))) ;;
  set (setMessages (messages c)).

(** [sendMessage], created by the render whose state is [c]. *)
Definition sendMessage (c : State) : Proc State unit :=
  if negb (truthy (trim (inputText c))) || isLoading c then Ret tt
  else
    let userMessage := trim (inputText c) in
    set (setInputText []) ;;
    set (setError None) ;;
    set (setIsLoading true) ;;
    let updatedMessages := messages c ++ [mkMsg user userMessage] in
    set (setMessages updatedMessages) ;;
    finally
      (try_catch
         (result <- Api.chatWithAgent VITE_BACKEND_URL userMessage
                      (Some (messages c)) (sessionId c)
                      (Some (lit "text")) ;;
          after_reply updatedMessages result)
         (send_catch c))
      (set (setIsLoading false)).

Definition clearChat : Proc State unit :=
  set (setMessages []) ;;
  set (setSessionId None) ;;
  set (setError None).

(** *** Where the handlers are parked

    The rest of [sendMessage] after [await chatWithAgent(...)], and the
    rest of [playTTS] after [await fetch(...)] and after
    [await audio.play()]. *)
Definition send_request (c : State) : HttpRequest :=
  Api.chat_request VITE_BACKEND_URL (trim (inputText c)) (messages c)
                   (sessionId c) (lit "text").

Definition send_resume (c : State) (r : OpResult) : Proc State unit :=
  finally
    (try_catch
       (result <- (response <- fetch_result State r ;;
                   Api.read_reply response) ;;
        after_reply (messages c ++ [mkMsg user (trim (inputText c))])
                    result)
       (send_catch c))
    (set (setIsLoading false)).

Definition tts_fetched (r : OpResult) : Proc State unit :=
  try_catch (response <- fetch_result State r ;; tts_body response)
            tts_catch.

Definition tts_played (r : OpResult) : Proc State unit :=
  try_catch (play_result State r) tts_catch.

(** What the user and the environment can do to the mounted component.
    The input box is disabled while [isLoading]; the send button while
    the trimmed input is empty or [isLoading]; the clear button is
    rendered only when there are messages. *)
Inductive Event :=
| TypeText (s : jsstring)
| ClickSend
| PressEnter
| ClickClear
| Complete (i : nat) (r : OpResult)
| AudioEnded (a : AudioId).

Definition step (w : World State) (e : Event) : World State :=
  match e with
  | TypeText s =>
      if isLoading (st w) then w else with_st (setInputText s) w
  | ClickSend =>
      if negb (truthy (trim (inputText (st w)))) || isLoading (st w)
      then w else exec (sendMessage (st w)) w
  | PressEnter =>
      if isLoading (st w) then w else exec (sendMessage (st w)) w
  | ClickClear =>
      match messages (st w) with
      | [] => w
      | _ :: _ => exec clearChat w
      end
  | Complete i r => complete i r w
  | AudioEnded a => audio_ended a w
  end.

Definition run (w : World State) (es : list Event) : World State :=
  fold_left step es w.

Definition mount : World State := init_world initial.

(** One successful turn: the user types [u] and sends, and the request
    just sent is answered 200 with [reply] before anything else happens. *)
Definition turn (w : World State) (ur : jsstring * ChatResponse)
  : World State :=
  let w1 := step (step w (TypeText (fst ur))) ClickSend in
  step w1 (Complete (length (pending w1) - 1) (ok_reply (snd ur))).

(** The turns a list of exchanges commits to the transcript, and the
    session identifier it leaves. *)
Definition committed (turns : list (jsstring * ChatResponse))
  : list ChatMessage :=
  flat_map (fun ur => [mkMsg user (trim (fst ur));
                       mkMsg assistant (text (snd ur))]) turns.

Definition adopted (sid : option jsstring)
           (turns : list (jsstring * ChatResponse)) : option jsstring :=
  fold_left (fun sid ur =>
               if truthy (session_id (snd ur))
               then Some (session_id (snd ur)) else sid)
            turns sid.

End Component.
End Chat.

(* ================================================================== *)
(** ** components/VoiceAssistant.tsx *)
(* ================================================================== *)

Module VoiceAssistant.

Inductive VoiceState := idle | listening | processing | speaking.

Definition vs_eqb (a b : VoiceState) : bool :=
  match a, b with
  | idle, idle | listening, listening
  | processing, processing | speaking, speaking => true
  | _, _ => false
  end.

(** The state variables and the [audioRef] ref.  [recognitionRef] is
    assigned once, by the mount effect, when the browser has a speech
    recogniser; see [supported] below. *)
Record State := mkState {
  voiceState : VoiceState;
  transcript : jsstring;
  response : jsstring;
  error : option jsstring;
  history : list ChatMessage;
  sessionId : option jsstring;
  audioRef : option AudioId
}.

Definition initial : State := mkState idle [] [] None [] None None.

Definition setVoiceState (v : VoiceState) (s : State) : State :=
  mkState v (transcript s) (response s) (error s) (history s)
          (sessionId s) (audioRef s).
Definition setTranscript (v : jsstring) (s : State) : State :=
  mkState (voiceState s) v (response s) (error s) (history s)
          (sessionId s) (audioRef s).
Definition setResponse (v : jsstring) (s : State) : State :=
  mkState (voiceState s) (transcript s) v (error s) (history s)
          (sessionId s) (audioRef s).
Definition setError (v : option jsstring) (s : State) : State :=
  mkState (voiceState s) (transcript s) (response s) v (history s)
          (sessionId s) (audioRef s).
Definition setHistory (v : list ChatMessage) (s : State) : State :=
  mkState (voiceState s) (transcript s) (response s) (error s) v
          (sessionId s) (audioRef s).
Definition setSessionId (v : option jsstring) (s : State) : State :=
  mkState (voiceState s) (transcript s) (response s) (error s) (history s)
          v (audioRef s).
Definition setAudioRef (v : option AudioId) (s : State) : State :=
  mkState (voiceState s) (transcript s) (response s) (error s) (history s)
          (sessionId s) v.

Section Component.

Variable VITE_BACKEND_URL : option jsstring.

(** The [isSpeechEnabled] prop of the first render. *)
Variable isSpeechEnabled : bool.

(** Whether [window.SpeechRecognition || window.webkitSpeechRecognition]
    exists, that is whether [recognitionRef.current] is set. *)
Variable supported : bool.

Definition BACKEND_URL : jsstring :=
  match VITE_BACKEND_URL with
  | Some u => if truthy u then u else lit "http://localhost:8000"
  | None => lit "http://localhost:8000"
  end.

Definition speak_request (t : jsstring) : HttpRequest :=
  mkReq (BACKEND_URL ++ lit "/speak") POST Api.json_headers (SpeakBody t).

(** [playTTS]: a response that is not ok throws inside the [try]; the
    new element replaces [audioRef.current]. *)
Definition tts_body (response : Response) : Proc State unit :=
  if negb (ok response) then Throw (lit "TTS failed")
  else
    match blob response with
    | None => Throw (lit "TypeError")
    | Some _ =>
        audio <- NewAudio (fun a => Ret a) ;;
        set (setAudioRef (Some audio)) ;;
        OnEnded audio (set (setVoiceState idle)) skip ;;
        play State audio
    end.

Definition tts_catch (err : jsstring) : Proc State unit :=
  console_error State (lit "TTS error:") ;;
  set (setVoiceState idle).

Definition playTTS (t : jsstring) : Proc State unit :=
  try_catch
    (response <- fetch State (speak_request t) ;; tts_body response)
    tts_catch.

(** What [handleUserSpeech] does with the reply, inside its [try]. *)
Definition after_reply (c : State) (t : jsstring) (result : ChatResponse)
  : Proc State unit :=
  when (truthy (session_id result))
       (set (setSessionId (Some (session_id result)))) ;;
  let newHistory :=
    history c ++ [mkMsg user t; mkMsg assistant (text result)] in
  set (setHistory newHistory) ;;
  set (setResponse (text result)) ;;
  Emit (mkMsg assistant (text result)) skip ;;
  when isSpeechEnabled
       (set (setVoiceState speaking) ;; playTTS (text result)) ;;
  set (setVoiceState idle).

(** The [catch] block of [handleUserSpeech]. *)
Definition speech_catch (err : jsstring) : Proc State unit :=
  console_error State (lit "Agent error:") ;;
  set (setError (Some (lit "Failed to get response. Please try again."))) ;;
  set (setVoiceState idle).

(** [handleUserSpeech], created by the render whose state is [c]. *)
Definition handleUserSpeech (c : State) (t : jsstring)
  : Proc State unit :=
  if negb (truthy (trim t)) then set (setVoiceState idle)
  else
    Emit (mkMsg user t) skip ;;
    set (setVoiceState processing) ;;
    try_catch
      (result <- Api.chatWithAgent VITE_BACKEND_URL t
                   (Some (history c)) (sessionId c) (Some (lit "audio")) ;;
       after_reply c t result)
      speech_catch.

(** *** Where the handlers are parked

    The rest of [handleUserSpeech] after [await chatWithAgent(...)], and,
    inside it, after the two awaits of [await playTTS(...)]; and the
    rest of [playTTS] on its own. *)
Definition speech_request (c : State) (t : jsstring) : HttpRequest :=
  Api.chat_request VITE_BACKEND_URL t (history c) (sessionId c)
                   (lit "audio").

Definition speech_resume (c : State) (t : jsstring) (r : OpResult)
  : Proc State unit :=
  try_catch
    (result <- (response <- fetch_result State r ;;
                Api.read_reply response) ;;
     after_reply c t result)
    speech_catch.

Definition tts_fetched (r : OpResult) : Proc State unit :=
  try_catch (response <- fetch_result State r ;; tts_body response)
            tts_catch.

Definition tts_played (r : OpResult) : Proc State unit :=
  try_catch (play_result State r) tts_catch.

Definition speech_tts_fetched (r : OpResult) : Proc State unit :=
  try_catch (tts_fetched r ;; set (setVoiceState idle)) speech_catch.

Definition speech_tts_played (r : OpResult) : Proc State unit :=
  try_catch (tts_played r ;; set (setVoiceState idle)) speech_catch.

(** *** The mount effect

    [useEffect(() => { ... }, [])] runs once, after the first render.
    The callbacks it assigns to the recogniser are never assigned again,
    so they keep the bindings of the first render for the life of the
    component: the [handleUserSpeech] they call is the one whose
    [history], [sessionId] and [voiceState] are the initial values. *)
Definition first_render : State := initial.

Definition onresult (transcriptText : jsstring) (isFinal : bool)
  : Proc State unit :=
  set (setTranscript transcriptText) ;;
  when isFinal (spawn (handleUserSpeech first_render transcriptText)).

Definition lock_icon : jsstring := [55357; 56594]%N.

Definition onerror (code : jsstring) : Proc State unit :=
  console_error State (lit "Speech recognition error:") ;;
  (if Js.eqb code (lit "no-speech") then
     set (setError (Some (lit "No speech detected. Try again.")))
   else if Js.eqb code (lit "not-allowed") then
     set (setError (Some
       (lit "Microphone access denied. Click the lock icon " ++ lock_icon
        ++ lit " in your address bar to allow microphone access.")))
   else if Js.eqb code (lit "audio-capture") then
     set (setError (Some
       (lit "No microphone found. Please connect a microphone and try again.")))
   else skip) ;;
  set (setVoiceState idle).

Definition onend : Proc State unit :=
  when (vs_eqb (voiceState first_render) listening)
       (set (setVoiceState processing)).

Definition unsupported_message : jsstring :=
  lit "Speech recognition is not supported in this browser. Try Chrome or Edge.".

Definition mount : World State :=
  init_world
    (if supported then initial
     else setError (Some unsupported_message) initial).

(** *** The handlers of the buttons, bound anew by every render *)

Definition rec_start : Proc State unit :=
  RecStart (fun started =>
    if started then Ret tt else Throw (lit "InvalidStateError")).

Definition startListening : Proc State unit :=
  set (setError None) ;;
  set (setTranscript []) ;;
  set (setResponse []) ;;
  when supported
    (try_catch
       (rec_start ;; set (setVoiceState listening))
       (fun e =>
          console_error State (lit "Failed to start recognition:") ;;
          set (setError
                 (Some (lit "Failed to start microphone. Please try again."))))).

Definition stopListening : Proc State unit :=
  when supported (RecStop skip).

Definition stopSpeaking : Proc State unit :=
  Peek (fun s =>
    match audioRef s with
    | Some a => PauseAudio a skip
    | None => skip
    end) ;;
  set (setVoiceState idle).

Definition clearConversation : Proc State unit :=
  set (setHistory []) ;;
  set (setSessionId None) ;;
  set (setTranscript []) ;;
  set (setResponse []) ;;
  set (setError None).

(** The main button is disabled while [processing] and otherwise stops
    the capture, stops the playback or starts a capture, by
    [voiceState]; the clear button is rendered only when there is
    history.  The recogniser calls back only while it captures; with
    [continuous = false] a capture ends with its final result. *)
Inductive Event :=
| Tap
| SpeechResult (transcriptText : jsstring) (isFinal : bool)
| SpeechError (code : jsstring)
| SpeechEnd
| ClickClear
| Complete (i : nat) (r : OpResult)
| AudioEnded (a : AudioId).

Definition step (w : World State) (e : Event) : World State :=
  match e with
  | Tap =>
      match voiceState (st w) with
      | processing => w
      | listening => exec stopListening w
      | speaking => exec stopSpeaking w
      | idle => exec startListening w
      end
  | SpeechResult t isFinal =>
      if capturing w then
        exec (onresult t isFinal)
             (if isFinal then with_capturing false w else w)
      else w
  | SpeechError code =>
      if capturing w then exec (onerror code) (with_capturing false w)
      else w
  | SpeechEnd =>
      if capturing w then exec onend (with_capturing false w) else w
  | ClickClear =>
      match history (st w) with
      | [] => w
      | _ :: _ => exec clearConversation w
      end
  | Complete i r => complete i r w
  | AudioEnded a => audio_ended a w
  end.

Definition run (w : World State) (es : list Event) : World State :=
  fold_left step es w.

End Component.
End VoiceAssistant.

(* ================================================================== *)
(** ** App.tsx *)
(* ================================================================== *)

Module App.

(** [ChatMessage] of types.ts (the fields the code sets). *)
Record Message := mkMessage {
  id : jsstring;
  role : Role;
  content : jsstring;
  timestamp : N
}.

(** [n.toString()] for a non-negative integer. *)
Definition toString (n : N) : jsstring :=
  lit (NilZero.string_of_uint (N.to_uint n)).

Record State := mkState {
  messages : list Message;
  input : jsstring;
  isThinking : bool;
  thinkingMessage : jsstring;
  sessionId : option jsstring;
  isSpeechEnabled : bool;
  isVoiceActive : bool
}.

(** [useState] initial values; [sessionId] starts as [null]. *)
Definition initial : State :=
  mkState [] [] false (lit "Thinking...") None true false.

Definition updMessages (f : list Message -> list Message) (s : State)
  : State :=
  mkState (f (messages s)) (input s) (isThinking s) (thinkingMessage s)
          (sessionId s) (isSpeechEnabled s) (isVoiceActive s).
Definition setInput (v : jsstring) (s : State) : State :=
  mkState (messages s) v (isThinking s) (thinkingMessage s)
          (sessionId s) (isSpeechEnabled s) (isVoiceActive s).
Definition setIsThinking (v : bool) (s : State) : State :=
  mkState (messages s) (input s) v (thinkingMessage s)
          (sessionId s) (isSpeechEnabled s) (isVoiceActive s).
Definition setThinkingMessage (v : jsstring) (s : State) : State :=
  mkState (messages s) (input s) (isThinking s) v
          (sessionId s) (isSpeechEnabled s) (isVoiceActive s).
Definition setSessionId (v : option jsstring) (s : State) : State :=
  mkState (messages s) (input s) (isThinking s) (thinkingMessage s)
          v (isSpeechEnabled s) (isVoiceActive s).
Definition setIsSpeechEnabled (v : bool) (s : State) : State :=
  mkState (messages s) (input s) (isThinking s) (thinkingMessage s)
          (sessionId s) v (isVoiceActive s).

Section Component.

Variable VITE_BACKEND_URL : option jsstring.

(** [speakText] of services/elevenlabs, taken as a parameter: any service
    function, without access to the state of the component. *)
Variable speakText : jsstring -> Proc unit unit.

(** [{ id: Date.now().toString(), role, content, timestamp: Date.now() }] *)
Definition stamp (r : Role) (c : jsstring) : Proc State Message :=
  t1 <- Now (fun t => Ret t) ;;
  t2 <- Now (fun t => Ret t) ;;
  Ret (mkMessage (toString t1) r c t2).

(** [sessionId || undefined] *)
Definition or_undefined (o : option jsstring) : option jsstring :=
  if truthy_opt o then o else None.

(** What [handleSend] does with the reply, inside its [try]. *)
Definition after_reply (c : State) (agentResponse : ChatResponse)
  : Proc State unit :=
  when (truthy (session_id agentResponse))
       (set (setSessionId (Some (session_id agentResponse)))) ;;
  reply <- stamp assistant (text agentResponse) ;;
  set (updMessages (fun prev => prev ++ [reply])) ;;
  when (isSpeechEnabled c && negb (isVoiceActive c))
       (lift (speakText (text agentResponse))).

(** The [catch] block of [handleSend]. *)
Definition send_catch (err : jsstring) : Proc State unit :=
  console_error State (lit "Chat error:") ;;
  note <- stamp assistant (lit "Connection error with Agent.") ;;
  set (updMessages (fun prev => prev ++ [note])).

(** [handleSend], created by the render whose state is [c]. *)
Definition handleSend (c : State) (t : jsstring) : Proc State unit :=
  if negb (truthy (trim t)) then Ret tt
  else
    userMsg <- stamp user t ;;
    set (updMessages (fun prev => prev ++ [userMsg])) ;;
    set (setInput []) ;;
    set (setThinkingMessage (lit "Agent is coordinating...")) ;;
    set (setIsThinking true) ;;
    finally
      (try_catch
         (let chatHistory :=
            map (fun m => mkMsg (role m) (content m)) (messages c) in
          agentResponse <- Api.chatWithAgent VITE_BACKEND_URL t
                             (Some chatHistory)
                             (or_undefined (sessionId c)) None ;;
          after_reply c agentResponse)
         send_catch)
      (set (setIsThinking false)).

(** The rest of [handleSend] after [await chatWithAgent(...)]. *)
Definition send_request (c : State) (t : jsstring) : HttpRequest :=
  Api.chat_request VITE_BACKEND_URL t
    (map (fun m => mkMsg (role m) (content m)) (messages c))
    (or_undefined (sessionId c)) (lit "Text").

Definition send_resume (c : State) (r : OpResult) : Proc State unit :=
  finally
    (try_catch
       (agentResponse <- (response <- fetch_result State r ;;
                          Api.read_reply response) ;;
        after_reply c agentResponse)
       send_catch)
    (set (setIsThinking false)).

(** The text box and the send button of the footer, shown while the voice
    mode is off; the button is disabled while the trimmed input is empty.
    Neither looks at [isThinking].  [Tick] lets time pass. *)
Inductive Event :=
| TypeText (s : jsstring)
| ClickSend
| PressEnter
| ToggleSpeech
| Tick (ms : N)
| Complete (i : nat) (r : OpResult)
| AudioEnded (a : AudioId).

Definition step (w : World State) (e : Event) : World State :=
  match e with
  | TypeText s => with_st (setInput s) w
  | ClickSend =>
      if negb (truthy (trim (input (st w)))) then w
      else exec (handleSend (st w) (input (st w))) w
  | PressEnter => exec (handleSend (st w) (input (st w))) w
  | ToggleSpeech =>
      with_st (setIsSpeechEnabled (negb (isSpeechEnabled (st w)))) w
  | Tick ms => with_clock (clock w + ms)%N w
  | Complete i r => complete i r w
  | AudioEnded a => audio_ended a w
  end.

Definition run (w : World State) (es : list Event) : World State :=
  fold_left step es w.

Definition mount : World State := init_world initial.

End Component.
End App.

(* ================================================================== *)
(** ** Frames: what a handler leaves alone *)
(* ================================================================== *)

Section Frames.

Variable St : Type.
Variable A : Type.

(** The part of the state a frame lemma is about. *)
Variable proj : St -> A.

(** Every setter call of [p] leaves [proj] of the state as it is. *)
Fixpoint keeps {R : Type} (p : Proc St R) {struct p} : Prop :=
  match p with
  | Ret _ => True
  | Throw _ => True
  | SetState f k => (forall s, proj (f s) = proj s) /\ keeps k
  | Peek k => forall s, keeps (k s)
  | Await _ k => forall r, keeps (k r)
  | NewAudio k => forall a, keeps (k a)
  | PauseAudio _ k => keeps k
  | OnEnded _ h k => keeps h /\ keeps k
  | Spawn q k => keeps q /\ keeps k
  | ConsoleError _ k => keeps k
  | Emit _ k => keeps k
  | RecStart k => forall b, keeps (k b)
  | RecStop k => keeps k
  | Now k => forall t, keeps (k t)
  end.


End Frames.

Section Respect.

Variable St : Type.

(** A relation between the state before and after a setter call. *)
Variable rel : St -> St -> Prop.

(** Every setter call of [p], also in what [p] parks, spawns and
    registers, takes a state to one related to it. *)
Fixpoint respects {R : Type} (p : Proc St R) {struct p} : Prop :=
  match p with
  | Ret _ => True
  | Throw _ => True
  | SetState f k => (forall s, rel s (f s)) /\ respects k
  | Peek k => forall s, respects (k s)
  | Await _ k => forall r, respects (k r)
  | NewAudio k => forall a, respects (k a)
  | PauseAudio _ k => respects k
  | OnEnded _ h k => respects h /\ respects k
  | Spawn q k => respects q /\ respects k
  | ConsoleError _ k => respects k
  | Emit _ k => respects k
  | RecStart k => forall b, respects (k b)
  | RecStop k => respects k
  | Now k => forall t, respects (k t)
  end.

(** Everything that waits in the world respects [rel]. *)
Definition parked_respect (w : World St) : Prop :=
  Forall (fun t => forall r, respects (snd t r)) (pending w)
  /\ Forall (fun l => respects (snd l)) (listeners w).

End Respect.

(** Once there is a session identifier there is one. *)
Definition keeps_session {St} (sid : St -> option jsstring) (s s' : St)
  : Prop :=
  sid s <> None -> sid s' <> None.

(** A step that parks nothing, sends nothing and adds no listener. *)
Definition quiet {St} (w w' : World St) : Prop :=
  pending w' = pending w /\ sent w' = sent w /\ listeners w' = listeners w.

(* ================================================================== *)
(** ** What the text chat parks *)
(* ================================================================== *)

Definition count_chat {St} (p : list (Op * (OpResult -> Proc St unit)))
  : nat :=
  length (filter (fun t => is_chat_request (fst t)) p).

(** The handlers the text chat ever leaves waiting: [sendMessage] on its
    chat request, [playTTS] on its synthesis request and on [play()]. *)
Definition chat_parked (env : option jsstring) (sp : bool)
           (t : Op * (OpResult -> Proc Chat.State unit)) : Prop :=
  (exists c, t = (OpFetch (Chat.send_request env c),
                  Chat.send_resume env sp c))
  \/ (exists txt, t = (OpFetch (Chat.speak_request env txt),
                       Chat.tts_fetched))
  \/ (exists a, t = (OpPlay a, Chat.tts_played)).

(** What holds of the text chat in every world it reaches. *)
Definition chat_inv (env : option jsstring) (sp : bool)
           (w : World Chat.State) : Prop :=
  Forall (chat_parked env sp) (pending w)
  /\ Forall (fun l => snd l = skip) (listeners w)
  /\ chat_in_flight w <= 1
  /\ (Chat.isLoading (st w) = false -> chat_in_flight w = 0).

(* ================================================================== *)
(** ** What the voice surface parks *)
(* ================================================================== *)

(** The handlers the voice surface ever leaves waiting: the
    [handleUserSpeech] of the first render on its chat request, and on
    the two awaits of the [playTTS] it awaits. *)
Definition voice_parked (env : option jsstring) (sp : bool)
           (t : Op * (OpResult -> Proc VoiceAssistant.State unit)) : Prop :=
  (exists txt,
      t = (OpFetch (VoiceAssistant.speech_request env
                      VoiceAssistant.first_render txt),
           VoiceAssistant.speech_resume env sp
             VoiceAssistant.first_render txt))
  \/ (exists txt, t = (OpFetch (VoiceAssistant.speak_request env txt),
                       VoiceAssistant.speech_tts_fetched))
  \/ (exists a, t = (OpPlay a, VoiceAssistant.speech_tts_played)).

(** A request that carries no history and no session identifier. *)
Definition carries_nothing (req : HttpRequest) : Prop :=
  history_of req = [] /\ session_of req = None.

(** What holds of the voice surface in every world it reaches. *)
Definition voice_inv (env : option jsstring) (sp : bool)
           (w : World VoiceAssistant.State) : Prop :=
  Forall (voice_parked env sp) (pending w)
  /\ Forall (fun l => snd l
                     = set (VoiceAssistant.setVoiceState VoiceAssistant.idle))
            (listeners w)
  /\ Forall carries_nothing (sent w).

(** The synthesis steps still awaited: what waits and is not a chat
    request. *)
Definition synthesis_awaited {St} (w : World St) : nat :=
  length (filter (fun t => negb (is_chat_request (fst t))) (pending w)).

(** The voice surface shows "Speaking..." only while a synthesis step is
    awaited. *)
Definition speaking_inv (env : option jsstring) (sp : bool)
           (w : World VoiceAssistant.State) : Prop :=
  voice_inv env sp w
  /\ (VoiceAssistant.voiceState (st w) = VoiceAssistant.speaking ->
      1 <= synthesis_awaited w).

(** The history of the voice surface holds one exchange at most. *)
Definition one_exchange (h : list ChatMessage) : Prop :=
  h = [] \/ exists u a, h = [mkMsg user u; mkMsg assistant a].

(** A voice surface that shows "Listening..." with nothing going on: no
    capture, no handler waiting, no audio. *)
Definition listening_idle (w : World VoiceAssistant.State) : Prop :=
  VoiceAssistant.voiceState (st w) = VoiceAssistant.listening
  /\ capturing w = false
  /\ pending w = []
  /\ playing w = [].

(** Setter calls that leave a history of one exchange at most as such. *)
Definition keeps_one_exchange (s s' : VoiceAssistant.State) : Prop :=
  one_exchange (VoiceAssistant.history s) ->
  one_exchange (VoiceAssistant.history s').

(** What a step leaves: a voice state other than [speaking], or the voice
    state and the waiting handlers of before, or a synthesis step that
    waits. *)
Definition speaking_step (w w' : World VoiceAssistant.State) : Prop :=
  VoiceAssistant.voiceState (st w') <> VoiceAssistant.speaking
  \/ (VoiceAssistant.voiceState (st w') = VoiceAssistant.voiceState (st w)
      /\ pending w' = pending w)
  \/ 1 <= synthesis_awaited w'.

(** Setter calls of [App] that only add to the end of the transcript. *)
Definition grows (s s' : App.State) : Prop :=
  exists added, App.messages s' = App.messages s ++ added.

(* ================================================================== *)
(** ** services/elevenlabs.ts *)
(* ================================================================== *)

Module Elevenlabs.

(** The module variable [currentAudio]. *)
Definition State := option AudioId.

Definition initial : State := None.

Section Service.

Variable VITE_BACKEND_URL : option jsstring.

Definition BACKEND_URL : jsstring :=
  match VITE_BACKEND_URL with
  | Some u =>
      if truthy u then u
      else lit "https://for-ms-backend-22097057568.us-west1.run.app/"
  | None => lit "https://for-ms-backend-22097057568.us-west1.run.app/"
  end.

Definition speak_request (t : jsstring) : HttpRequest :=
  mkReq (BACKEND_URL ++ lit "/speak") POST Api.json_headers (SpeakBody t).

(** [stopSpeaking]: pauses the element [currentAudio] refers to, if any,
    and forgets it. *)
Definition stopSpeaking : Proc State unit :=
  Peek (fun currentAudio =>
    match currentAudio with
    | Some a => PauseAudio a (set (fun _ => None))
    | None => skip
    end).

(** The executor of the promise [speakText] returns.  [onended] forgets
    the element; [audio.play().catch(reject)] is not awaited.  The
    promise is settled by the listeners and by [play()] failing, none of
    which the [try] around it sees. *)
Definition start_playback : Proc State unit :=
  audio <- NewAudio (fun a => Ret a) ;;
  set (fun _ => Some audio) ;;
  OnEnded audio (set (fun _ => None)) skip ;;
  spawn (play State audio).

(** [audio.onerror]: forgets the element and rejects the promise. *)
Definition onerror : Proc State unit :=
  set (fun _ => None) ;;
  Throw (lit "MediaError").

Definition speak_body (response : Response) : Proc State unit :=
  if negb (ok response) then
    Throw (lit "TTS failed: " ++ statusText response)
  else
    match blob response with
    | None => Throw (lit "TypeError")
    | Some _ => start_playback
    end.

(** The [catch] block of [speakText]: logs and throws again. *)
Definition speak_catch (err : jsstring) : Proc State unit :=
  console_error State (lit "TTS error:") ;;
  Throw err.

Definition speakText (t : jsstring) : Proc State unit :=
  stopSpeaking ;;
  try_catch
    (response <- fetch State (speak_request t) ;; speak_body response)
    speak_catch.

(** The rest of [speakText] after [await fetch(...)]. *)
Definition speak_fetched (r : OpResult) : Proc State unit :=
  try_catch (response <- fetch_result State r ;; speak_body response)
            speak_catch.

(** One call of a service function as its caller sees it, when the
    module variable holds [currentAudio] at the call.  What the call
    reads is that value and what it assigned itself; what it assigns
    stays inside the module, and what other calls or the listeners
    assign meanwhile is not seen.  ([speakText] reads the variable once,
    first thing.) *)
Fixpoint call_with {R : Type} (currentAudio : State) (p : Proc State R)
         {struct p} : Proc unit R :=
  match p with
  | Ret r => Ret r
  | Throw e => Throw e
  | SetState f k => call_with (f currentAudio) k
  | Peek k => call_with currentAudio (k currentAudio)
  | Await op k => Await op (fun r => call_with currentAudio (k r))
  | NewAudio k => NewAudio (fun a => call_with currentAudio (k a))
  | PauseAudio a k => PauseAudio a (call_with currentAudio k)
  | OnEnded a h k =>
      OnEnded a (call_with currentAudio h) (call_with currentAudio k)
  | Spawn q k => Spawn (call_with currentAudio q) (call_with currentAudio k)
  | ConsoleError m k => ConsoleError m (call_with currentAudio k)
  | Emit m k => Emit m (call_with currentAudio k)
  | RecStart k => RecStart (fun b => call_with currentAudio (k b))
  | RecStop k => RecStop (call_with currentAudio k)
  | Now k => Now (fun t => call_with currentAudio (k t))
  end.

(** What can happen to the module: a call of [speakText], an awaited
    operation that completes, an element that plays to its end, and a
    playing element that fails.  (An element that fails before it plays
    is seen as [play()] failing.)  What is thrown out of [speakText], or
    rejects the promise it returned, is in [uncaught]. *)
Inductive Event :=
| Speak (t : jsstring)
| Complete (i : nat) (r : OpResult)
| AudioEnded (a : AudioId)
| AudioError (a : AudioId).

Definition step (w : World State) (e : Event) : World State :=
  match e with
  | Speak t => exec (speakText t) w
  | Complete i r => complete i r w
  | AudioEnded a => audio_ended a w
  | AudioError a =>
      if existsb (Nat.eqb a) (playing w) then
        exec onerror (with_playing (remove Nat.eq_dec a (playing w)) w)
      else w
  end.

Definition run (w : World State) (es : list Event) : World State :=
  fold_left step es w.

Definition mount : World State := init_world initial.

(** [speakText] is called only when no earlier call still waits for its
    request or for [play()]. *)
Fixpoint one_at_a_time (w : World State) (es : list Event) : bool :=
  match es with
  | [] => true
  | e :: rest =>
      match e, pending w with
      | Speak _, _ :: _ => false
      | _, _ => one_at_a_time (step w e) rest
      end
  end.

End Service.
End Elevenlabs.

(** What holds of the speech service while its calls do not overlap: the
    listeners forget the element; and either nothing waits and what
    plays is the element [currentAudio] refers to, or one call waits for
    its request and nothing plays, or one call waits for [play()] on
    the element [currentAudio] refers to and nothing plays. *)
Definition speech_inv (env : option jsstring)
           (w : World Elevenlabs.State) : Prop :=
  Forall (fun l => snd l = set (fun _ : Elevenlabs.State => None))
         (listeners w)
  /\ ((pending w = []
       /\ (playing w = [] \/ exists a, playing w = [a] /\ st w = Some a))
      \/ (exists t,
             pending w = [(OpFetch (Elevenlabs.speak_request env t),
                           Elevenlabs.speak_fetched)]
             /\ playing w = [])
      \/ (exists a,
             pending w = [(OpPlay a, play_result Elevenlabs.State)]
             /\ playing w = [] /\ st w = Some a)).

(* ================================================================== *)
(** ** components/Tracker.tsx *)
(* ================================================================== *)

(** [Array.prototype.includes], [filter(s => s !== x)] and [join] on
    arrays of strings. *)
Definition includes (x : jsstring) (l : list jsstring) : bool :=
  existsb (Js.eqb x) l.

Definition without (x : jsstring) (l : list jsstring) : list jsstring :=
  filter (fun s => negb (Js.eqb s x)) l.

Fixpoint join (sep : jsstring) (l : list jsstring) : jsstring :=
  match l with
  | [] => []
  | [x] => x
  | x :: rest => x ++ sep ++ join sep rest
  end.

(** [SymptomData], what the form hands to [onLogSymptom]. *)
Module SymptomData.
Record t := mk {
  mood : N;
  fatigue : N;
  symptoms : list jsstring;
  medications_taken : list jsstring;
  period_status : option jsstring;
  notes : jsstring
}.
End SymptomData.

Module Tracker.

Definition COMMON_SYMPTOMS : list jsstring :=
  map lit ["Fatigue"; "Numbness"; "Tingling"; "Spasticity"; "Pain";
           "Vision Issues"; "Brain Fog"; "Balance Issues";
           "Heat Sensitivity"; "Bladder Issues"]%string.

Definition COMMON_MEDICATIONS : list jsstring :=
  map lit ["Ocrevus"; "Kesimpta"; "Tecfidera"; "Tysabri"; "Copaxone";
           "Rebif"; "Aubagio"; "Gilenya"; "Mavenclad"; "Vitamin D";
           "Baclofen"; "Gabapentin"; "Modafinil"; "Ampyra"]%string.

Definition PERIOD_STATUSES : list jsstring :=
  map lit ["started"; "ongoing"; "ended"]%string.

Record State := mkState {
  mood : N;
  fatigue : N;
  selectedSymptoms : list jsstring;
  selectedMeds : list jsstring;
  periodStatus : option jsstring;
  notes : jsstring;
  customSymptom : jsstring;
  customMed : jsstring;
  showSuccess : bool
}.

(** [useState] initial values. *)
Definition initial : State := mkState 5 5 [] [] None [] [] [] false.

Definition setMood (v : N) (s : State) : State :=
  mkState v (fatigue s) (selectedSymptoms s) (selectedMeds s)
          (periodStatus s) (notes s) (customSymptom s) (customMed s)
          (showSuccess s).
Definition setFatigue (v : N) (s : State) : State :=
  mkState (mood s) v (selectedSymptoms s) (selectedMeds s)
          (periodStatus s) (notes s) (customSymptom s) (customMed s)
          (showSuccess s).
Definition setSelectedSymptoms (f : list jsstring -> list jsstring)
           (s : State) : State :=
  mkState (mood s) (fatigue s) (f (selectedSymptoms s)) (selectedMeds s)
          (periodStatus s) (notes s) (customSymptom s) (customMed s)
          (showSuccess s).
Definition setSelectedMeds (f : list jsstring -> list jsstring)
           (s : State) : State :=
  mkState (mood s) (fatigue s) (selectedSymptoms s) (f (selectedMeds s))
          (periodStatus s) (notes s) (customSymptom s) (customMed s)
          (showSuccess s).
Definition setPeriodStatus (v : option jsstring) (s : State) : State :=
  mkState (mood s) (fatigue s) (selectedSymptoms s) (selectedMeds s)
          v (notes s) (customSymptom s) (customMed s) (showSuccess s).
Definition setNotes (v : jsstring) (s : State) : State :=
  mkState (mood s) (fatigue s) (selectedSymptoms s) (selectedMeds s)
          (periodStatus s) v (customSymptom s) (customMed s)
          (showSuccess s).
Definition setCustomSymptom (v : jsstring) (s : State) : State :=
  mkState (mood s) (fatigue s) (selectedSymptoms s) (selectedMeds s)
          (periodStatus s) (notes s) v (customMed s) (showSuccess s).
Definition setCustomMed (v : jsstring) (s : State) : State :=
  mkState (mood s) (fatigue s) (selectedSymptoms s) (selectedMeds s)
          (periodStatus s) (notes s) (customSymptom s) v (showSuccess s).
Definition setShowSuccess (v : bool) (s : State) : State :=
  mkState (mood s) (fatigue s) (selectedSymptoms s) (selectedMeds s)
          (periodStatus s) (notes s) (customSymptom s) (customMed s) v.

(** [prev => prev.includes(x) ? prev.filter(s => s !== x) : [...prev, x]] *)
Definition toggle (x : jsstring) (prev : list jsstring) : list jsstring :=
  if includes x prev then without x prev else prev ++ [x].

Definition toggleSymptom (symptom : jsstring) (s : State) : State :=
  setSelectedSymptoms (toggle symptom) s.

Definition toggleMed (med : jsstring) (s : State) : State :=
  setSelectedMeds (toggle med) s.

Definition addCustomSymptom (s : State) : State :=
  if truthy (trim (customSymptom s))
     && negb (includes (trim (customSymptom s)) (selectedSymptoms s))
  then
    setCustomSymptom []
      (setSelectedSymptoms (fun prev => prev ++ [trim (customSymptom s)]) s)
  else s.

Definition addCustomMed (s : State) : State :=
  if truthy (trim (customMed s))
     && negb (includes (trim (customMed s)) (selectedMeds s))
  then
    setCustomMed []
      (setSelectedMeds (fun prev => prev ++ [trim (customMed s)]) s)
  else s.

(** [periodStatus === status ? null : status] *)
Definition togglePeriod (status : jsstring) (s : State) : State :=
  setPeriodStatus
    (match periodStatus s with
     | Some p => if Js.eqb p status then None else Some status
     | None => Some status
     end) s.

(** [handleSubmit]: the data handed to [onLogSymptom], and the form after
    it.  The result of [onLogSymptom] is not looked at. *)
Definition data_of (s : State) : SymptomData.t :=
  SymptomData.mk (mood s) (fatigue s) (selectedSymptoms s)
                 (selectedMeds s) (periodStatus s) (trim (notes s)).

Definition handleSubmit (s : State) : State :=
  setNotes []
    (setPeriodStatus None
       (setSelectedMeds (fun _ => [])
          (setSelectedSymptoms (fun _ => [])
             (setShowSuccess true s)))).

(** The form with what it handed to [onLogSymptom] so far and the
    timeouts that have not fired yet. *)
Record World := mkWorld {
  st : State;
  submitted : list SymptomData.t;
  timeouts : nat
}.

Definition with_st (f : State -> State) (w : World) : World :=
  mkWorld (f (st w)) (submitted w) (timeouts w).

(** What the user can do: the sliders, the buttons of the common
    symptoms, medications and period statuses (by position), the two
    custom inputs with their add buttons (or Enter), the notes and the
    submit button; and a timeout that fires. *)
Inductive Event :=
| SlideMood (v : N)
| SlideFatigue (v : N)
| ClickSymptom (i : nat)
| TypeCustomSymptom (v : jsstring)
| AddCustomSymptom
| ClickMed (i : nat)
| TypeCustomMed (v : jsstring)
| AddCustomMed
| ClickPeriod (i : nat)
| TypeNotes (v : jsstring)
| Submit
| Timeout.

Definition step (w : World) (e : Event) : World :=
  match e with
  | SlideMood v => with_st (setMood v) w
  | SlideFatigue v => with_st (setFatigue v) w
  | ClickSymptom i =>
      match nth_error COMMON_SYMPTOMS i with
      | Some name => with_st (toggleSymptom name) w
      | None => w
      end
  | TypeCustomSymptom v => with_st (setCustomSymptom v) w
  | AddCustomSymptom => with_st addCustomSymptom w
  | ClickMed i =>
      match nth_error COMMON_MEDICATIONS i with
      | Some med => with_st (toggleMed med) w
      | None => w
      end
  | TypeCustomMed v => with_st (setCustomMed v) w
  | AddCustomMed => with_st addCustomMed w
  | ClickPeriod i =>
      match nth_error PERIOD_STATUSES i with
      | Some status => with_st (togglePeriod status) w
      | None => w
      end
  | TypeNotes v => with_st (setNotes v) w
  | Submit =>
      mkWorld (handleSubmit (st w)) (submitted w ++ [data_of (st w)])
              (S (timeouts w))
  | Timeout =>
      match timeouts w with
      | O => w
      | S n => mkWorld (setShowSuccess false (st w)) (submitted w) n
      end
  end.

Definition run (w : World) (es : list Event) : World :=
  fold_left step es w.

Definition mount : World := mkWorld initial [] 0.

End Tracker.

(** A selection as the form keeps it: no entry twice, no empty entry. *)
Definition well_formed (l : list jsstring) : Prop :=
  NoDup l /\ Forall (fun s => truthy s = true) l.

Definition tracker_inv (w : Tracker.World) : Prop :=
  well_formed (Tracker.selectedSymptoms (Tracker.st w))
  /\ well_formed (Tracker.selectedMeds (Tracker.st w))
  /\ Forall (fun d => well_formed (SymptomData.symptoms d)
                      /\ well_formed (SymptomData.medications_taken d))
            (Tracker.submitted w).

(* ================================================================== *)
(** ** App.tsx: handleLogSymptom *)
(* ================================================================== *)

(** [SymptomLog], [DailyMetrics] and [Medication] of types.ts. *)
Module SymptomLog.
Inductive Severity := low | medium | high.
Record t := mk {
  id : jsstring;
  timestamp : N;
  type : jsstring;
  severity : Severity;
  notes : jsstring
}.
End SymptomLog.

Module DailyMetrics.
Record t := mk {
  id : jsstring;
  timestamp : N;
  mood : N;
  fatigue : N;
  sleepHours : N;
  cognitiveFog : bool
}.
End DailyMetrics.

Module Medication.
Record t := mk {
  id : jsstring;
  name : jsstring;
  dosage : jsstring;
  frequency : jsstring
}.
End Medication.

Module Logging.

Record UserData := mkUserData {
  logs : list SymptomLog.t;
  meds : list Medication.t;
  metrics : list DailyMetrics.t
}.

(** The state variables [handleLogSymptom] touches. *)
Record State := mkState {
  userData : UserData;
  isSyncing : bool
}.

(** [useState] initial values. *)
Definition initial : State :=
  mkState
    (mkUserData []
                [Medication.mk (lit "m1") (lit "Kesimpta") (lit "20mg")
                               (lit "Monthly")]
                [])
    false.

(** What comes back for a request: the fetch is rejected, or the body
    cannot be read (it is not JSON, or not an object), or it is an
    object, of which [handleLogSymptom] reads [success] (its truthiness)
    and [entry_id].  The status of the response is not looked at. *)
Inductive LogResponse :=
| Rejected
| NotJson
| Json (success : bool) (entry_id : option jsstring).

(** Whether the answer makes [handleLogSymptom] store the entry. *)
Definition stored (r : LogResponse) : bool :=
  match r with Json true _ => true | _ => false end.

(** [a || b] on strings. *)
Definition or_else (a b : jsstring) : jsstring :=
  if truthy a then a else b.

Definition newLog (data : SymptomData.t) (entry_id : option jsstring)
           (now : N) : SymptomLog.t :=
  SymptomLog.mk
    (match entry_id with
     | Some e => or_else e (App.toString now)
     | None => App.toString now
     end)
    now
    (or_else (join (lit ", ") (SymptomData.symptoms data))
             (lit "General check-in"))
    (if (7 <=? SymptomData.fatigue data)%N then SymptomLog.high
     else if (4 <=? SymptomData.fatigue data)%N then SymptomLog.medium
     else SymptomLog.low)
    (SymptomData.notes data).

Definition newMetric (data : SymptomData.t) (now : N) : DailyMetrics.t :=
  DailyMetrics.mk (App.toString now) now
                  (SymptomData.mood data) (SymptomData.fatigue data) 0
                  (includes (lit "Brain Fog") (SymptomData.symptoms data)).

(** The component with the tracker form it renders, the calls of
    [handleLogSymptom] whose request is unanswered, the alerts shown,
    the console and the clock. *)
Record World := mkWorld {
  st : State;
  form : Tracker.World;
  in_flight : list SymptomData.t;
  alerts : list jsstring;
  console : list jsstring;
  clock : N
}.

(** [handleLogSymptom] up to its [await fetch(...)]. *)
Definition handleLogSymptom (data : SymptomData.t) (w : World) : World :=
  mkWorld (mkState (userData (st w)) true) (form w)
          (in_flight w ++ [data]) (alerts w) (console w) (clock w).

(** The rest of [handleLogSymptom]: the [try] after the two awaits, the
    [catch] and the [finally]. *)
Definition log_resume (data : SymptomData.t) (r : LogResponse) (w : World)
  : World :=
  match r with
  | Json true entry_id =>
      mkWorld
        (mkState
           (mkUserData
              (logs (userData (st w)) ++ [newLog data entry_id (clock w)])
              (meds (userData (st w)))
              (metrics (userData (st w)) ++ [newMetric data (clock w)]))
           false)
        (form w) (in_flight w) (alerts w)
        (console w ++ [[9989%N] ++ lit " Logged to BigQuery:"])
        (clock w)
  | Json false _ =>
      mkWorld (mkState (userData (st w)) false)
              (form w) (in_flight w)
              (alerts w ++ [lit "Failed to log symptoms. Please try again."])
              (console w ++ [[10060%N] ++ lit " Log failed:"])
              (clock w)
  | Rejected | NotJson =>
      mkWorld (mkState (userData (st w)) false)
              (form w) (in_flight w)
              (alerts w
               ++ [lit "Connection error. Please check if backend is running."])
              (console w ++ [[10060%N] ++ lit " Network error:"])
              (clock w)
  end.

(** What can happen: the user works the form (a submit calls
    [handleLogSymptom] with the data of the form), leaves the tab and
    comes back to a fresh form, a request is answered, time passes. *)
Inductive Event :=
| Form (e : Tracker.Event)
| Reopen
| Respond (i : nat) (r : LogResponse)
| Tick (ms : N).

Definition with_form (f : Tracker.World) (w : World) : World :=
  mkWorld (st w) f (in_flight w) (alerts w) (console w) (clock w).

Definition with_in_flight (l : list SymptomData.t) (w : World) : World :=
  mkWorld (st w) (form w) l (alerts w) (console w) (clock w).

Definition step (w : World) (e : Event) : World :=
  match e with
  | Form Tracker.Submit =>
      with_form (Tracker.step (form w) Tracker.Submit)
                (handleLogSymptom (Tracker.data_of (Tracker.st (form w))) w)
  | Form e => with_form (Tracker.step (form w) e) w
  | Reopen => with_form Tracker.mount w
  | Respond i r =>
      match nth_error (in_flight w) i with
      | Some data =>
          log_resume data r (with_in_flight (remove_nth i (in_flight w)) w)
      | None => w
      end
  | Tick ms =>
      mkWorld (st w) (form w) (in_flight w) (alerts w) (console w)
              (clock w + ms)%N
  end.

Definition run (w : World) (es : list Event) : World :=
  fold_left step es w.

Definition mount : World := mkWorld initial Tracker.mount [] [] [] 0.

End Logging.

(** A log entry and a metric made by the same call. *)
Definition paired (l : SymptomLog.t) (m : DailyMetrics.t) : Prop :=
  SymptomLog.timestamp l = DailyMetrics.timestamp m.

(** The type of a log entry is the selected symptoms joined, and the
    fallback when none was selected. *)
Definition type_from_selection (l : SymptomLog.t) : Prop :=
  SymptomLog.type l = lit "General check-in"
  \/ exists symptoms,
       symptoms <> []
       /\ well_formed symptoms
       /\ SymptomLog.type l = join (lit ", ") symptoms.

Definition logging_inv (w : Logging.World) : Prop :=
  tracker_inv (Logging.form w)
  /\ Forall (fun d => well_formed (SymptomData.symptoms d))
            (Logging.in_flight w)
  /\ Forall2 paired (Logging.logs (Logging.userData (Logging.st w)))
             (Logging.metrics (Logging.userData (Logging.st w)))
  /\ Forall (fun l => truthy (SymptomLog.type l) = true
                      /\ type_from_selection l)
            (Logging.logs (Logging.userData (Logging.st w)))
  /\ Logging.meds (Logging.userData (Logging.st w))
     = Logging.meds (Logging.userData Logging.initial)
  /\ (Logging.isSyncing (Logging.st w) = true -> Logging.in_flight w <> []).

(* ================================================================== *)
(** ** components/AnalyticsReport.tsx: fetchData and the cache *)
(* ================================================================== *)

Module Report.
Section Component.

(** The payloads of the two report endpoints, which the component
    stores, caches and renders without looking inside:
    [logsData.logs] is a list of entries, [summaryData.summary] a
    summary.  A value written to [sessionStorage] with [JSON.stringify]
    is read back by [JSON.parse] as it was. *)
Variable Entry : Type.
Variable Summary : Type.

Record State := mkState {
  logs : list Entry;
  summary : option Summary;
  isLoading : bool;
  error : option jsstring;
  days : N;
  lastFetched : option jsstring
}.

(** [useState] initial values. *)
Definition initial : State := mkState [] None false None 7 None.

(** The four keys of [sessionStorage] the component uses. *)
Record Storage := mkStorage {
  msally_report_logs : option (list Entry);
  msally_report_summary : option Summary;
  msally_report_days : option N;
  msally_report_time : option jsstring
}.

(** What comes back for the two requests of one [fetchData]: a fetch is
    rejected or a body cannot be read, or both bodies are read, each
    with its payload when its [success] is set. *)
Inductive Outcome :=
| Failed
| Answered (logsData : option (list Entry)) (summaryData : option Summary).

(** The component mounted last, the storage, the calls of [fetchData]
    whose requests are unanswered (with the [days] of the render that
    made the call, and the mount that made it), the number of mounts so
    far, and the console. *)
Record World := mkWorld {
  st : State;
  storage : Storage;
  in_flight : list (N * nat);
  mounts : nat;
  console : list jsstring
}.

(** The mount effect: the cache is shown when it holds both the logs and
    the summary. *)
Definition restore (c : Storage) : State :=
  match msally_report_logs c, msally_report_summary c with
  | Some cachedLogs, Some cachedSummary =>
      mkState cachedLogs (Some cachedSummary) false None
              (match msally_report_days c with
               | Some cachedDays => cachedDays
               | None => 7%N
               end)
              (match msally_report_time c with
               | Some cachedTime =>
                   if truthy cachedTime then Some cachedTime else None
               | None => None
               end)
  | _, _ => initial
  end.

(** [fetchData] up to its [await Promise.all(...)]. *)
Definition fetchData (w : World) : World :=
  mkWorld (mkState (logs (st w)) (summary (st w)) true None
                   (days (st w)) (lastFetched (st w)))
          (storage w)
          (in_flight w ++ [(days (st w), mounts w)])
          (mounts w) (console w).

(** What the rest of [fetchData] writes to the storage. *)
Definition store (d : N) (r : Outcome) (now : jsstring) (c : Storage)
  : Storage :=
  match r with
  | Failed => c
  | Answered logsData summaryData =>
      mkStorage
        (match logsData with
         | Some l => Some l
         | None => msally_report_logs c
         end)
        (match summaryData with
         | Some s => Some s
         | None => msally_report_summary c
         end)
        (Some d) (Some now)
  end.

(** What the rest of [fetchData] sets, [finally] included. *)
Definition show (r : Outcome) (now : jsstring) (s : State) : State :=
  match r with
  | Failed =>
      mkState (logs s) (summary s) false
              (Some (lit "Failed to connect to server"))
              (days s) (lastFetched s)
  | Answered logsData summaryData =>
      mkState
        (match logsData with Some l => l | None => logs s end)
        (match summaryData with Some x => Some x | None => summary s end)
        false
        (match logsData, summaryData with
         | None, None => Some (lit "Failed to fetch report data")
         | _, _ => error s
         end)
        (days s) (Some now)
  end.

(** What can happen: the user picks the number of days, clicks refresh
    (disabled while [isLoading]), leaves the tab and comes back (the
    component is mounted anew); the requests of a call are answered, at
    the time [now] as the locale prints it.  A call made by a component
    that is gone still writes to the storage; its setter calls do
    nothing. *)
Inductive Event :=
| SelectDays (d : N)
| Refresh
| Reopen
| Answer (i : nat) (r : Outcome) (now : jsstring).

Definition step (w : World) (e : Event) : World :=
  match e with
  | SelectDays d =>
      mkWorld (mkState (logs (st w)) (summary (st w)) (isLoading (st w))
                       (error (st w)) d (lastFetched (st w)))
              (storage w) (in_flight w) (mounts w) (console w)
  | Refresh => if isLoading (st w) then w else fetchData w
  | Reopen =>
      mkWorld (restore (storage w)) (storage w) (in_flight w)
              (S (mounts w)) (console w)
  | Answer i r now =>
      match nth_error (in_flight w) i with
      | Some (d, m) =>
          mkWorld (if Nat.eqb m (mounts w) then show r now (st w)
                   else st w)
                  (store d r now (storage w))
                  (remove_nth i (in_flight w))
                  (mounts w)
                  (match r with
                   | Failed => console w ++ [lit "Report fetch error:"]
                   | Answered _ _ => console w
                   end)
      | None => w
      end
  end.

Definition run (w : World) (es : list Event) : World :=
  fold_left step es w.

(** The first mount, in a session whose storage is empty. *)
Definition mount : World :=
  mkWorld initial (mkStorage None None None None) [] 0 [].

(** The calls of [fetchData] of the mounted component that are
    unanswered. *)
Definition own_in_flight (w : World) : nat :=
  length (filter (fun t => Nat.eqb (snd t) (mounts w)) (in_flight w)).

End Component.
End Report.

(** What holds of the report in every world it reaches: no call is from
    a mount to come, and the mounted component has a call unanswered
    exactly while [isLoading]. *)
Definition report_inv {Entry Summary} (w : Report.World Entry Summary)
  : Prop :=
  Forall (fun t => snd t <= Report.mounts w) (Report.in_flight w)
  /\ Report.own_in_flight w
     = if Report.isLoading (Report.st w) then 1 else 0.

(** The rest of [App.handleSend] after the [await] inside the
    [speakText] it awaits. *)
Definition app_speech_resume (r : OpResult) : Proc App.State unit :=
  finally
    (try_catch
       (lift (Elevenlabs.call_with None (Elevenlabs.speak_fetched r)))
       App.send_catch)
    (set (App.setIsThinking false)).

(* ================================================================== *)
(** ** Facts about the scheduler *)
(* ================================================================== *)

Section FrameFacts.

Context {St A : Type} (proj : St -> A).

Lemma keeps_bind {R R'} (p : Proc St R) (f : R -> Proc St R') :
  keeps proj p -> (forall a, keeps proj (f a)) -> keeps proj (bind p f).
Proof.
  induction p; simpl; intros Hp Hf; try tauto;
    try (destruct Hp; split; auto); auto.
Qed.

Lemma keeps_try_catch {R} (p : Proc St R) (h : jsstring -> Proc St R) :
  keeps proj p -> (forall e, keeps proj (h e)) ->
  keeps proj (try_catch p h).
Proof.
  induction p; simpl; intros Hp Hh; try tauto;
    try (destruct Hp; split; auto); auto.
Qed.

Lemma keeps_finally {R} (p : Proc St R) (q : Proc St unit) :
  keeps proj p -> keeps proj q -> keeps proj (finally p q).
Proof.
  intros Hp Hq. unfold finally.
  apply keeps_bind.
  - apply keeps_try_catch; [apply keeps_bind|]; simpl; auto.
  - intros [a|e]; apply keeps_bind; simpl; auto.
Qed.

Lemma keeps_lift {R} (p : Proc unit R) : keeps proj (lift (St:=St) p).
Proof. induction p; simpl; auto. Qed.

Lemma keeps_when (b : bool) (p : Proc St unit) :
  keeps proj p -> keeps proj (when b p).
Proof. destruct b; simpl; auto. Qed.

(** A handler whose setters leave [proj] alone leaves it alone when it
    runs. *)
Lemma exec_keeps (p : Proc St unit) :
  forall w, keeps proj p -> proj (st (exec p w)) = proj (st w).
Proof.
  revert p. fix IH 1. intros p w Hk.
  destruct p; simpl in Hk |- *.
  - reflexivity.
  - reflexivity.
  - destruct Hk as [Hf Hk]. rewrite (IH p _ Hk). simpl. apply Hf.
  - apply (IH (k (st w)) _ (Hk _)).
  - reflexivity.
  - rewrite (IH (k (next_audio w)) _ (Hk _)). reflexivity.
  - rewrite (IH p _ Hk). reflexivity.
  - destruct Hk as [_ Hk]. rewrite (IH p2 _ Hk). reflexivity.
  - destruct Hk as [Hq Hk]. rewrite (IH p2 _ Hk). apply (IH p1 _ Hq).
  - rewrite (IH p _ Hk). reflexivity.
  - rewrite (IH p _ Hk). reflexivity.
  - destruct (capturing w).
    + apply (IH (k false) _ (Hk _)).
    + rewrite (IH (k true) _ (Hk _)). reflexivity.
  - apply (IH p _ Hk).
  - apply (IH (k (clock w)) _ (Hk _)).
Qed.

End FrameFacts.

(** Discharges [keeps] side conditions by following the handler. *)
Ltac keeps_tac :=
  repeat first
    [ apply keeps_finally | apply keeps_try_catch | apply keeps_lift
    | apply keeps_when | apply keeps_bind
    | progress simpl | intro | split | reflexivity | exact I ].

(** *** What each handler does up to its first [await] *)

Lemma exec_sendMessage env sp (c : Chat.State) (w : World Chat.State) :
  negb (truthy (trim (Chat.inputText c))) || Chat.isLoading c = false ->
  exec (Chat.sendMessage env sp c) w =
  with_sent (sent w ++ [Chat.send_request env c])
    (with_pending
       (pending w ++ [(OpFetch (Chat.send_request env c),
                       Chat.send_resume env sp c)])
       (with_st (fun s =>
          Chat.mkState
            (Chat.messages c ++ [mkMsg user (trim (Chat.inputText c))])
            [] true (Chat.sessionId s) None) w)).
Proof.
  intros H. unfold Chat.sendMessage. rewrite H. reflexivity.
Qed.

Lemma exec_handleUserSpeech env sp (c : VoiceAssistant.State) t
      (w : World VoiceAssistant.State) :
  truthy (trim t) = true ->
  exec (VoiceAssistant.handleUserSpeech env sp c t) w =
  with_sent (sent w ++ [VoiceAssistant.speech_request env c t])
    (with_pending
       (pending w ++ [(OpFetch (VoiceAssistant.speech_request env c t),
                       VoiceAssistant.speech_resume env sp c t)])
       (with_st (VoiceAssistant.setVoiceState VoiceAssistant.processing)
          (with_emitted (emitted w ++ [mkMsg user t]) w))).
Proof.
  intros H. unfold VoiceAssistant.handleUserSpeech. rewrite H. reflexivity.
Qed.

Lemma exec_handleSend env spk (c : App.State) t (w : World App.State) :
  truthy (trim t) = true ->
  exec (App.handleSend env spk c t) w =
  with_sent (sent w ++ [App.send_request env c t])
    (with_pending
       (pending w ++ [(OpFetch (App.send_request env c t),
                       App.send_resume spk c)])
       (with_st (fun s =>
          App.mkState
            (App.messages s ++
               [App.mkMessage (App.toString (clock w)) user t (clock w)])
            [] true (lit "Agent is coordinating...")
            (App.sessionId s) (App.isSpeechEnabled s) (App.isVoiceActive s))
          w)).
Proof.
  intros H. unfold App.handleSend. rewrite H. reflexivity.
Qed.

Lemma exec_chat_playTTS env t (w : World Chat.State) :
  exec (Chat.playTTS env t) w =
  with_sent (sent w ++ [Chat.speak_request env t])
    (with_pending
       (pending w ++ [(OpFetch (Chat.speak_request env t),
                       Chat.tts_fetched)]) w).
Proof. reflexivity. Qed.

Lemma exec_voice_playTTS env t (w : World VoiceAssistant.State) :
  exec (VoiceAssistant.playTTS env t) w =
  with_sent (sent w ++ [VoiceAssistant.speak_request env t])
    (with_pending
       (pending w ++ [(OpFetch (VoiceAssistant.speak_request env t),
                       VoiceAssistant.tts_fetched)]) w).
Proof. reflexivity. Qed.

(* ================================================================== *)
(** ** The chat request (services/api.ts) *)
(* ================================================================== *)


(* ================================================================== *)
(** ** Empty submissions *)
(* ================================================================== *)

(** C7.  A submission whose text is empty once trimmed is rejected where
    it is made, on the three surfaces: [sendMessage] and [handleSend]
    return having done nothing at all, and [handleUserSpeech] only sets the
    voice state to idle.  No request is sent, no handler is left waiting,
    and the transcript, the session identifier and the error are what they
    were. *)
Theorem empty_submission_rejected :
  forall t : jsstring,
    trim t = [] ->
    (forall env sp (c : Chat.State) (w : World Chat.State),
        Chat.inputText c = t ->
        exec (Chat.sendMessage env sp c) w = w)
    /\ (forall env spk (c : App.State) (w : World App.State),
        exec (App.handleSend env spk c t) w = w)
    /\ (forall env sp (c : VoiceAssistant.State)
               (w : World VoiceAssistant.State),
        let w' := exec (VoiceAssistant.handleUserSpeech env sp c t) w in
        w' = with_st (VoiceAssistant.setVoiceState VoiceAssistant.idle) w
        /\ sent w' = sent w
        /\ pending w' = pending w
        /\ VoiceAssistant.history (st w') = VoiceAssistant.history (st w)
        /\ VoiceAssistant.sessionId (st w') = VoiceAssistant.sessionId (st w)
        /\ VoiceAssistant.error (st w') = VoiceAssistant.error (st w)).
Proof.
  intros t Ht. repeat split.
  - intros env sp c w Hc. unfold Chat.sendMessage.
    rewrite Hc, Ht. reflexivity.
  - intros env spk c w. unfold App.handleSend. rewrite Ht. reflexivity.
  - unfold VoiceAssistant.handleUserSpeech. rewrite Ht. reflexivity.
  - unfold VoiceAssistant.handleUserSpeech. rewrite Ht. reflexivity.
  - unfold VoiceAssistant.handleUserSpeech. rewrite Ht. reflexivity.
  - unfold VoiceAssistant.handleUserSpeech. rewrite Ht. reflexivity.
  - unfold VoiceAssistant.handleUserSpeech. rewrite Ht. reflexivity.
  - unfold VoiceAssistant.handleUserSpeech. rewrite Ht. reflexivity.
Qed.

(** A submission of a space, a line feed and a no-break space. *)
Lemma empty_submission_rejected_witness :
  trim [32; 10; 160]%N = []
  /\ exec (Chat.sendMessage None true
             (Chat.setInputText [32; 10; 160]%N Chat.initial))
          Chat.mount
     = Chat.mount
  /\ exec (App.handleSend None (fun _ => Ret tt) App.initial
             [32; 10; 160]%N)
          App.mount
     = App.mount
  /\ sent (exec (VoiceAssistant.handleUserSpeech None true
                   VoiceAssistant.initial [32; 10; 160]%N)
                (VoiceAssistant.mount true))
     = [].
Proof.
  destruct (empty_submission_rejected [32; 10; 160]%N eq_refl)
    as [Hchat [Happ Hvoice]].
  split; [reflexivity|].
  split; [apply Hchat; reflexivity|].
  split; [apply Happ|].
  destruct (Hvoice None true VoiceAssistant.initial
                   (VoiceAssistant.mount true)) as [_ [Hsent _]].
  exact Hsent.
Defined.

(* ================================================================== *)
(** ** The session identifier *)
(* ================================================================== *)

(** *** A reply that arrived in full *)

Lemma chat_send_resume_ok env sp (c : Chat.State) resp reply :
  ok resp = true -> json resp = Some reply ->
  Chat.send_resume env sp c (Fetched (FetchResponse resp))
  = finally
      (try_catch
         (Chat.after_reply env sp
            (Chat.messages c ++ [mkMsg user (trim (Chat.inputText c))])
            reply)
         (Chat.send_catch c))
      (set (Chat.setIsLoading false)).
Proof.
  intros Hok Hj. unfold Chat.send_resume, fetch_result. simpl.
  unfold Api.read_reply. rewrite Hok, Hj. reflexivity.
Qed.

Lemma voice_speech_resume_ok env sp (c : VoiceAssistant.State) t resp reply :
  ok resp = true -> json resp = Some reply ->
  VoiceAssistant.speech_resume env sp c t (Fetched (FetchResponse resp))
  = try_catch (VoiceAssistant.after_reply env sp c t reply)
              VoiceAssistant.speech_catch.
Proof.
  intros Hok Hj. unfold VoiceAssistant.speech_resume, fetch_result. simpl.
  unfold Api.read_reply. rewrite Hok, Hj. reflexivity.
Qed.

Lemma app_send_resume_ok spk (c : App.State) resp reply :
  ok resp = true -> json resp = Some reply ->
  App.send_resume spk c (Fetched (FetchResponse resp))
  = finally (try_catch (App.after_reply spk c reply) App.send_catch)
            (set (App.setIsThinking false)).
Proof.
  intros Hok Hj. unfold App.send_resume, fetch_result. simpl.
  unfold Api.read_reply. rewrite Hok, Hj. reflexivity.
Qed.

Lemma app_reply_session spk (c : App.State) reply (w : World App.State) :
  App.sessionId
    (st (exec (finally (try_catch (App.after_reply spk c reply)
                                  App.send_catch)
                       (set (App.setIsThinking false))) w))
  = if truthy (session_id reply) then Some (session_id reply)
    else App.sessionId (st w).
Proof.
  unfold App.after_reply.
  destruct (truthy (session_id reply)).
  - change (exec _ w) with
      (exec (finally
               (try_catch
                  (reply0 <- App.stamp assistant (text reply) ;;
                   set (App.updMessages (fun prev => prev ++ [reply0])) ;;
                   when (App.isSpeechEnabled c && negb (App.isVoiceActive c))
                        (lift (spk (text reply))))
                  App.send_catch)
               (set (App.setIsThinking false)))
            (with_st (App.setSessionId (Some (session_id reply))) w)).
    rewrite (exec_keeps App.sessionId); [reflexivity|]. keeps_tac.
  - cbn [when]. rewrite (exec_keeps App.sessionId); [reflexivity|].
    keeps_tac.
Qed.

(** C10.  When a chat request is answered in full (a 2xx status and a
    body that parses), the session identifier afterwards is the returned
    [session_id] if that is a non-empty string, and otherwise what it was:
    an empty [session_id] overwrites nothing.  This holds on the three
    surfaces, for the handler parked at any place in the queue of any
    world. *)
Theorem session_id_set_only_when_nonempty :
  forall resp reply,
    ok resp = true ->
    json resp = Some reply ->
    let next (old : option jsstring) :=
      if truthy (session_id reply) then Some (session_id reply) else old in
    (forall env sp c (w : World Chat.State) i req,
        nth_error (pending w) i
        = Some (OpFetch req, Chat.send_resume env sp c) ->
        Chat.sessionId (st (complete i (Fetched (FetchResponse resp)) w))
        = next (Chat.sessionId (st w)))
    /\ (forall env sp c t (w : World VoiceAssistant.State) i req,
        nth_error (pending w) i
        = Some (OpFetch req, VoiceAssistant.speech_resume env sp c t) ->
        VoiceAssistant.sessionId
          (st (complete i (Fetched (FetchResponse resp)) w))
        = next (VoiceAssistant.sessionId (st w)))
    /\ (forall spk c (w : World App.State) i req,
        nth_error (pending w) i
        = Some (OpFetch req, App.send_resume spk c) ->
        App.sessionId (st (complete i (Fetched (FetchResponse resp)) w))
        = next (App.sessionId (st w))).
Proof.
  intros resp reply Hok Hj next. subst next. repeat split.
  - intros env sp c w i req Hp. unfold complete. rewrite Hp.
    simpl answers. cbv iota.
    rewrite (@chat_send_resume_ok env sp c resp reply Hok Hj).
    unfold Chat.after_reply.
    destruct (truthy (session_id reply)); destruct sp; reflexivity.
  - intros env sp c t w i req Hp. unfold complete. rewrite Hp.
    simpl answers. cbv iota.
    rewrite (@voice_speech_resume_ok env sp c t resp reply Hok Hj).
    unfold VoiceAssistant.after_reply.
    destruct (truthy (session_id reply)); destruct sp; reflexivity.
  - intros spk c w i req Hp. unfold complete. rewrite Hp.
    simpl answers. cbv iota.
    rewrite (@app_send_resume_ok spk c resp reply Hok Hj).
    rewrite app_reply_session. reflexivity.
Qed.

(** The text chat has the session "abc123" and a request on the wire; the
    reply comes with an empty [session_id]. *)
Lemma session_id_set_only_when_nonempty_witness :
  let resp := mkResponse 200 (lit "OK") (Some (mkResp (lit "hello") [])) None in
  let c := Chat.mkState [mkMsg user (lit "a"); mkMsg assistant (lit "b")]
                        (lit "c") false (Some (lit "abc123")) None in
  let w := exec (Chat.sendMessage None false c) (init_world c) in
  ok resp = true
  /\ Chat.sessionId (st (complete 0 (Fetched (FetchResponse resp)) w))
     = Some (lit "abc123").
Proof.
  intros resp c w. split; [reflexivity|].
  exact (proj1 (@session_id_set_only_when_nonempty resp _ eq_refl eq_refl)
               None false c w 0 (Chat.send_request None c) eq_refl).
Defined.

(* ================================================================== *)
(** ** A send that fails *)
(* ================================================================== *)

Lemma chat_send_resume_failed env sp (c : Chat.State) r :
  failed r = true ->
  Chat.send_resume env sp c (Fetched r)
  = finally (Chat.send_catch c (match r with
                                | FetchRejected =>
                                    lit "TypeError: Failed to fetch"
                                | FetchResponse resp =>
                                    lit "Chat failed: " ++ statusText resp
                                end))
            (set (Chat.setIsLoading false)).
Proof.
  intros Hf. destruct r as [|resp]; simpl in Hf.
  - reflexivity.
  - unfold Chat.send_resume, fetch_result. simpl.
    unfold Api.read_reply. rewrite Hf. reflexivity.
Qed.

Lemma voice_speech_resume_failed env sp (c : VoiceAssistant.State) t r :
  failed r = true ->
  VoiceAssistant.speech_resume env sp c t (Fetched r)
  = VoiceAssistant.speech_catch
      (match r with
       | FetchRejected => lit "TypeError: Failed to fetch"
       | FetchResponse resp => lit "Chat failed: " ++ statusText resp
       end).
Proof.
  intros Hf. destruct r as [|resp]; simpl in Hf.
  - reflexivity.
  - unfold VoiceAssistant.speech_resume, fetch_result. simpl.
    unfold Api.read_reply. rewrite Hf. reflexivity.
Qed.

Lemma app_send_resume_failed spk (c : App.State) r :
  failed r = true ->
  App.send_resume spk c (Fetched r)
  = finally (App.send_catch (match r with
                             | FetchRejected =>
                                 lit "TypeError: Failed to fetch"
                             | FetchResponse resp =>
                                 lit "Chat failed: " ++ statusText resp
                             end))
            (set (App.setIsThinking false)).
Proof.
  intros Hf. destruct r as [|resp]; simpl in Hf.
  - reflexivity.
  - unfold App.send_resume, fetch_result. simpl.
    unfold Api.read_reply. rewrite Hf. reflexivity.
Qed.

(** C3, as the code has it.  When a chat request fails (the fetch is
    rejected or the status is not 2xx), on every surface the session
    identifier is what it was, the surface is idle again ([isLoading] and
    [isThinking] false, the voice state idle), nothing is sent again, the
    parked handler is gone and nothing is thrown out of it.  What becomes
    of the user's message differs: the text chat puts back the transcript
    of the render that sent (the message shown at once is taken away) and
    sets its inline error; [App] keeps the transcript, the user's message
    in it, and appends an assistant message "Connection error with Agent.";
    the voice surface leaves its history alone and sets its error. *)
Theorem failed_send_outcome :
  forall r : FetchResult,
    failed r = true ->
    (forall env sp c (w : World Chat.State) i req,
        nth_error (pending w) i
        = Some (OpFetch req, Chat.send_resume env sp c) ->
        let w' := complete i (Fetched r) w in
        Chat.messages (st w') = Chat.messages c
        /\ Chat.error (st w')
           = Some (lit "Failed to send message. Please try again.")
        /\ Chat.sessionId (st w') = Chat.sessionId (st w)
        /\ Chat.isLoading (st w') = false
        /\ sent w' = sent w
        /\ pending w' = remove_nth i (pending w)
        /\ uncaught w' = uncaught w)
    /\ (forall spk c (w : World App.State) i req,
        nth_error (pending w) i
        = Some (OpFetch req, App.send_resume spk c) ->
        let w' := complete i (Fetched r) w in
        App.messages (st w')
        = App.messages (st w)
          ++ [App.mkMessage (App.toString (clock w)) assistant
                            (lit "Connection error with Agent.") (clock w)]
        /\ App.sessionId (st w') = App.sessionId (st w)
        /\ App.isThinking (st w') = false
        /\ sent w' = sent w
        /\ pending w' = remove_nth i (pending w)
        /\ uncaught w' = uncaught w)
    /\ (forall env sp c t (w : World VoiceAssistant.State) i req,
        nth_error (pending w) i
        = Some (OpFetch req, VoiceAssistant.speech_resume env sp c t) ->
        let w' := complete i (Fetched r) w in
        VoiceAssistant.history (st w') = VoiceAssistant.history (st w)
        /\ VoiceAssistant.error (st w')
           = Some (lit "Failed to get response. Please try again.")
        /\ VoiceAssistant.sessionId (st w') = VoiceAssistant.sessionId (st w)
        /\ VoiceAssistant.voiceState (st w') = VoiceAssistant.idle
        /\ sent w' = sent w
        /\ pending w' = remove_nth i (pending w)
        /\ uncaught w' = uncaught w).
Proof.
  intros r Hf. split; [|split].
  - intros env sp c w i req Hp w'. subst w'. unfold complete. rewrite Hp.
    simpl answers. cbv iota.
    rewrite (@chat_send_resume_failed env sp c r Hf).
    repeat split; reflexivity.
  - intros spk c w i req Hp w'. subst w'. unfold complete. rewrite Hp.
    simpl answers. cbv iota.
    rewrite (@app_send_resume_failed spk c r Hf).
    repeat split; reflexivity.
  - intros env sp c t w i req Hp w'. subst w'. unfold complete. rewrite Hp.
    simpl answers. cbv iota.
    rewrite (@voice_speech_resume_failed env sp c t r Hf).
    repeat split; reflexivity.
Qed.

(** The text chat after one exchange, "again" typed and sent, and the
    backend answering 503. *)
Lemma failed_send_outcome_witness :
  let r := FetchResponse
             (mkResponse 503 (lit "Service Unavailable") None None) in
  let c := Chat.mkState [mkMsg user (lit "a"); mkMsg assistant (lit "b")]
                        (lit "again") false (Some (lit "abc123")) None in
  let w := exec (Chat.sendMessage None false c) (init_world c) in
  let w' := complete 0 (Fetched r) w in
  failed r = true
  /\ Chat.messages (st w) = [mkMsg user (lit "a"); mkMsg assistant (lit "b");
                             mkMsg user (lit "again")]
  /\ Chat.messages (st w') = [mkMsg user (lit "a"); mkMsg assistant (lit "b")]
  /\ Chat.sessionId (st w') = Some (lit "abc123")
  /\ Chat.isLoading (st w') = false.
Proof.
  intros r c w w'.
  destruct (proj1 (@failed_send_outcome r eq_refl)
                  None false c w 0 (Chat.send_request None c) eq_refl)
    as [Hm [_ [Hs [Hl _]]]].
  split; [reflexivity|]. split; [reflexivity|].
  split; [exact Hm|]. split; [exact Hs|exact Hl].
Defined.

(** C3, as stated, fails.  In the text chat a failed send leaves no trace
    of the user's message in the transcript; in [App] it commits an
    assistant turn, which the next request then carries as history. *)
Lemma failed_send_counterexample :
  let wc := Chat.run None false Chat.mount
              [Chat.TypeText (lit "hi"); Chat.ClickSend;
               Chat.Complete 0 (Fetched FetchRejected)] in
  let wa := App.run None (fun _ => Ret tt) App.mount
              [App.TypeText (lit "hi"); App.ClickSend;
               App.Complete 0 (Fetched FetchRejected);
               App.TypeText (lit "again"); App.ClickSend] in
  ~ In (mkMsg user (lit "hi")) (Chat.messages (st wc))
  /\ map body (sent wa)
     = [ChatBody (lit "hi") [] None (lit "Text");
        ChatBody (lit "again")
                 [mkMsg user (lit "hi");
                  mkMsg assistant (lit "Connection error with Agent.")]
                 None (lit "Text")].
Proof.
  split.
  - intros H. exact H.
  - reflexivity.
Qed.

(* ================================================================== *)
(** ** Clearing the conversation *)
(* ================================================================== *)

(** C5, as the code has it.  [clearChat] and [clearConversation], in any
    world, empty the transcript, forget the session identifier and the
    error (the voice surface also empties the shown transcript and
    response), and doing it twice is doing it once.  They touch nothing
    else: [isLoading] and the voice state keep their value, the parked
    handlers stay parked, the audio that plays goes on playing and a
    capture that runs goes on. *)
Theorem clear_resets_and_touches_nothing_else :
  (forall w : World Chat.State,
      let w' := exec Chat.clearChat w in
      w' = with_st (fun s => Chat.mkState [] (Chat.inputText s)
                                          (Chat.isLoading s) None None) w
      /\ Chat.messages (st w') = []
      /\ Chat.sessionId (st w') = None
      /\ exec Chat.clearChat w' = w'
      /\ Chat.isLoading (st w') = Chat.isLoading (st w)
      /\ pending w' = pending w
      /\ playing w' = playing w)
  /\ (forall w : World VoiceAssistant.State,
      let w' := exec VoiceAssistant.clearConversation w in
      w' = with_st (fun s => VoiceAssistant.mkState
                               (VoiceAssistant.voiceState s) [] [] None []
                               None (VoiceAssistant.audioRef s)) w
      /\ VoiceAssistant.history (st w') = []
      /\ VoiceAssistant.sessionId (st w') = None
      /\ exec VoiceAssistant.clearConversation w' = w'
      /\ VoiceAssistant.voiceState (st w') = VoiceAssistant.voiceState (st w)
      /\ pending w' = pending w
      /\ playing w' = playing w
      /\ capturing w' = capturing w).
Proof.
  split; intros w w'; subst w'; repeat split; reflexivity.
Qed.

(** C5, as stated, fails: clearing forces nothing to idle and cancels
    nothing.  In the text chat a clear while the request is on the wire
    leaves [isLoading] set and the request in flight; on the voice surface
    a clear while the reply is being synthesised leaves the state
    [speaking], and a clear while the audio plays leaves it playing. *)
Lemma clear_counterexample :
  let reply := Fetched (FetchResponse
                 (mkResponse 200 (lit "OK")
                             (Some (mkResp (lit "b") (lit "abc123"))) None)) in
  let audio := Fetched (FetchResponse
                 (mkResponse 200 (lit "OK") None (Some 1%N))) in
  let wc := Chat.run None false Chat.mount
              [Chat.TypeText (lit "hi"); Chat.ClickSend; Chat.ClickClear] in
  let wv := VoiceAssistant.run None true true (VoiceAssistant.mount true)
              [VoiceAssistant.Tap;
               VoiceAssistant.SpeechResult (lit "a") true;
               VoiceAssistant.Complete 0 reply;
               VoiceAssistant.ClickClear] in
  let wp := VoiceAssistant.run None true true (VoiceAssistant.mount true)
              [VoiceAssistant.Tap;
               VoiceAssistant.SpeechResult (lit "a") true;
               VoiceAssistant.Complete 0 reply;
               VoiceAssistant.Complete 0 audio;
               VoiceAssistant.Complete 0 (Played true);
               VoiceAssistant.ClickClear] in
  (Chat.messages (st wc) = []
   /\ Chat.isLoading (st wc) = true
   /\ chat_in_flight wc = 1)
  /\ (VoiceAssistant.history (st wv) = []
      /\ VoiceAssistant.voiceState (st wv) = VoiceAssistant.speaking)
  /\ (VoiceAssistant.history (st wp) = []
      /\ playing wp = [0]).
Proof.
  repeat split; reflexivity.
Qed.

(* ================================================================== *)
(** ** Speaking the reply *)
(* ================================================================== *)

(** *** Where a reply that is spoken parks its handler *)

Lemma chat_reply_parks_tts env (c : Chat.State) resp reply
      (w : World Chat.State) :
  ok resp = true -> json resp = Some reply ->
  pending (exec (Chat.send_resume env true c (Fetched (FetchResponse resp))) w)
  = pending w ++ [(OpFetch (Chat.speak_request env (text reply)),
                   Chat.tts_fetched)].
Proof.
  intros Hok Hj. rewrite (@chat_send_resume_ok env true c resp reply Hok Hj).
  unfold Chat.after_reply.
  destruct (truthy (session_id reply)); reflexivity.
Qed.

Lemma chat_tts_parks_play resp b (w : World Chat.State) :
  ok resp = true -> blob resp = Some b ->
  pending (exec (Chat.tts_fetched (Fetched (FetchResponse resp))) w)
  = pending w ++ [(OpPlay (next_audio w), Chat.tts_played)].
Proof.
  intros Hok Hb. unfold Chat.tts_fetched, fetch_result, Chat.tts_body.
  simpl bind. rewrite Hok, Hb. reflexivity.
Qed.

Lemma voice_reply_parks_tts env (c : VoiceAssistant.State) t resp reply
      (w : World VoiceAssistant.State) :
  ok resp = true -> json resp = Some reply ->
  pending (exec (VoiceAssistant.speech_resume env true c t
                   (Fetched (FetchResponse resp))) w)
  = pending w ++ [(OpFetch (VoiceAssistant.speak_request env (text reply)),
                   VoiceAssistant.speech_tts_fetched)].
Proof.
  intros Hok Hj.
  rewrite (@voice_speech_resume_ok env true c t resp reply Hok Hj).
  unfold VoiceAssistant.after_reply.
  destruct (truthy (session_id reply)); reflexivity.
Qed.

Lemma voice_tts_parks_play resp b (w : World VoiceAssistant.State) :
  ok resp = true -> blob resp = Some b ->
  pending (exec (VoiceAssistant.speech_tts_fetched
                   (Fetched (FetchResponse resp))) w)
  = pending w ++ [(OpPlay (next_audio w), VoiceAssistant.speech_tts_played)].
Proof.
  intros Hok Hb.
  unfold VoiceAssistant.speech_tts_fetched, VoiceAssistant.tts_fetched,
    fetch_result, VoiceAssistant.tts_body.
  simpl bind. rewrite Hok, Hb. reflexivity.
Qed.





(** *** A synthesis request that fails *)






(* ================================================================== *)
(** ** The voice surface and the bindings of its first render *)
(* ================================================================== *)

(** C1, a run that breaks it.  On the voice surface the first exchange is
    committed to [history], and yet the request of the second turn carries
    an empty history: the recogniser still calls the [handleUserSpeech] of
    the first render.  The second reply then replaces the history by the
    second exchange alone. *)
Theorem voice_second_turn_sends_no_history :
  let said := lit "I'm feeling tired today" in
  let reply1 := Fetched (FetchResponse
                  (mkResponse 200 (lit "OK")
                     (Some (mkResp (lit "Rest well.") (lit "abc123"))) None)) in
  let reply2 := Fetched (FetchResponse
                  (mkResponse 200 (lit "OK")
                     (Some (mkResp (lit "Good.") (lit "abc123"))) None)) in
  let w1 := VoiceAssistant.run None false true (VoiceAssistant.mount true)
              [VoiceAssistant.Tap;
               VoiceAssistant.SpeechResult said true;
               VoiceAssistant.Complete 0 reply1] in
  let w2 := VoiceAssistant.run None false true w1
              [VoiceAssistant.Tap;
               VoiceAssistant.SpeechResult (lit "I slept badly") true] in
  let w3 := VoiceAssistant.step None false true w2
              (VoiceAssistant.Complete 0 reply2) in
  VoiceAssistant.history (st w1)
  = [mkMsg user said; mkMsg assistant (lit "Rest well.")]
  /\ map history_of (sent w2) = [[]; []]
  /\ VoiceAssistant.history (st w3)
     = [mkMsg user (lit "I slept badly"); mkMsg assistant (lit "Good.")].
Proof.
  repeat split; reflexivity.
Qed.

(** C2, a run that breaks it.  On the voice surface the backend returned
    "abc123" and the component stored it, and yet the next request carries
    no session identifier. *)
Theorem voice_second_turn_sends_no_session :
  let reply1 := Fetched (FetchResponse
                  (mkResponse 200 (lit "OK")
                     (Some (mkResp (lit "Rest well.") (lit "abc123"))) None)) in
  let w1 := VoiceAssistant.run None false true (VoiceAssistant.mount true)
              [VoiceAssistant.Tap;
               VoiceAssistant.SpeechResult (lit "I'm feeling tired today") true;
               VoiceAssistant.Complete 0 reply1] in
  let w2 := VoiceAssistant.run None false true w1
              [VoiceAssistant.Tap;
               VoiceAssistant.SpeechResult (lit "I slept badly") true] in
  VoiceAssistant.sessionId (st w1) = Some (lit "abc123")
  /\ VoiceAssistant.sessionId (st w2) = Some (lit "abc123")
  /\ map session_of (sent w2) = [None; None].
Proof.
  repeat split; reflexivity.
Qed.

(* ================================================================== *)
(** ** One request at a time *)
(* ================================================================== *)

(** C6, a run that breaks it.  In [App] nothing looks at [isThinking]: a
    second message sent while the first is unanswered goes out at once,
    and two chat requests are in flight. *)
Theorem app_two_requests_in_flight :
  let w := App.run None (fun _ => Ret tt) App.mount
             [App.TypeText (lit "a"); App.ClickSend;
              App.TypeText (lit "b"); App.ClickSend] in
  App.isThinking (st w) = true
  /\ chat_in_flight w = 2
  /\ map body (sent w)
     = [ChatBody (lit "a") [] None (lit "Text");
        ChatBody (lit "b") [mkMsg user (lit "a")] None (lit "Text")].
Proof.
  repeat split; reflexivity.
Qed.

(** *** The text chat sends one request at a time *)

Lemma count_chat_app {St} (p q : list (Op * (OpResult -> Proc St unit))) :
  count_chat (p ++ q) = count_chat p + count_chat q.
Proof. unfold count_chat. rewrite filter_app, length_app. reflexivity. Qed.

Lemma count_chat_remove_nth {St}
      (p : list (Op * (OpResult -> Proc St unit))) :
  forall i t,
    nth_error p i = Some t ->
    count_chat p
    = count_chat (remove_nth i p)
      + (if is_chat_request (fst t) then 1 else 0).
Proof.
  induction p as [|x p IH]; intros [|i] t H; simpl in H; try discriminate.
  - injection H as ->. unfold count_chat. simpl.
    destruct (is_chat_request (fst t)); simpl; lia.
  - specialize (IH i t H). unfold count_chat in *. simpl.
    destruct (is_chat_request (fst x)); simpl; lia.
Qed.

Lemma Forall_remove_nth {A} (P : A -> Prop) (l : list A) :
  forall i, Forall P l -> Forall P (remove_nth i l).
Proof.
  induction l as [|x l IH]; intros [|i] H; simpl; auto;
    inversion H; subst; auto.
Qed.

Lemma Forall_nth_error {A} (P : A -> Prop) (l : list A) i x :
  Forall P l -> nth_error l i = Some x -> P x.
Proof.
  intros H Hn. rewrite Forall_forall in H. apply H.
  eapply nth_error_In; eauto.
Qed.

Lemma lookup_listener_skip {St} a (l : list (AudioId * Proc St unit)) :
  Forall (fun x => snd x = skip) l -> lookup_listener a l = skip.
Proof.
  induction 1 as [|[b h] l Hh _ IH]; simpl; auto.
  destruct (Nat.eqb a b); auto.
Qed.

(** The three parked handlers of the text chat, resumed with anything. *)
Lemma chat_send_resume_shape env sp c r (w : World Chat.State) :
  let w' := exec (Chat.send_resume env sp c r) w in
  (pending w' = pending w
   \/ exists txt,
       pending w' = pending w ++ [(OpFetch (Chat.speak_request env txt),
                                   Chat.tts_fetched)])
  /\ listeners w' = listeners w
  /\ Chat.isLoading (st w') = false.
Proof.
  destruct r as [[|resp]|b]; simpl; auto.
  unfold Chat.send_resume, fetch_result. simpl bind. unfold Api.read_reply.
  destruct (negb (ok resp)); [simpl; auto|].
  destruct (json resp) as [reply|]; [|simpl; auto].
  unfold Chat.after_reply. simpl.
  destruct (truthy (session_id reply)); destruct sp; simpl; eauto.
Qed.

Lemma chat_tts_fetched_shape r (w : World Chat.State) :
  let w' := exec (Chat.tts_fetched r) w in
  st w' = st w
  /\ ((pending w' = pending w /\ listeners w' = listeners w)
      \/ (pending w' = pending w ++ [(OpPlay (next_audio w), Chat.tts_played)]
          /\ listeners w' = (next_audio w, skip) :: listeners w)).
Proof.
  destruct r as [[|resp]|b]; simpl; auto.
  unfold Chat.tts_fetched, fetch_result, Chat.tts_body. simpl bind.
  destruct (negb (ok resp)); [simpl; auto|].
  destruct (blob resp); simpl; auto.
Qed.

Lemma chat_tts_played_shape r (w : World Chat.State) :
  let w' := exec (Chat.tts_played r) w in
  st w' = st w /\ pending w' = pending w /\ listeners w' = listeners w.
Proof. destruct r as [[|resp]|[|]]; simpl; auto. Qed.

Lemma chat_inv_mount env sp : chat_inv env sp Chat.mount.
Proof.
  unfold chat_inv, chat_in_flight. simpl. repeat split; auto.
Qed.

Lemma chat_inv_send env sp (w : World Chat.State) :
  chat_inv env sp w ->
  Chat.isLoading (st w) = false ->
  chat_inv env sp (exec (Chat.sendMessage env sp (st w)) w).
Proof.
  intros (Hp & Hl & Hc & Hi) Hload.
  destruct (negb (truthy (trim (Chat.inputText (st w))))) eqn:Hblank.
  - unfold Chat.sendMessage. rewrite Hblank. simpl. repeat split; auto.
  - rewrite exec_sendMessage by (rewrite Hblank, Hload; reflexivity).
    unfold chat_inv, chat_in_flight in *. simpl.
    fold (count_chat (pending w)) in Hi, Hc.
    fold (count_chat (pending w ++
            [(OpFetch (Chat.send_request env (st w)),
              Chat.send_resume env sp (st w))])).
    rewrite count_chat_app, (Hi Hload). repeat split.
    + apply Forall_app. split; auto. constructor; auto.
      left. eauto.
    + assumption.
    + unfold count_chat. simpl. lia.
    + discriminate.
Qed.

Lemma count_chat_speak env txt (k : OpResult -> Proc Chat.State unit) :
  count_chat [(OpFetch (Chat.speak_request env txt), k)] = 0.
Proof. reflexivity. Qed.

Lemma count_chat_play {St} a (k : OpResult -> Proc St unit) :
  count_chat [(OpPlay a, k)] = 0.
Proof. reflexivity. Qed.

Lemma chat_inv_complete env sp (w : World Chat.State) i r :
  chat_inv env sp w -> chat_inv env sp (complete i r w).
Proof.
  intros Hinv. unfold complete.
  destruct (nth_error (pending w) i) as [[op k]|] eqn:Hn; [|assumption].
  destruct (answers op r); [|assumption].
  destruct Hinv as (Hp & Hl & Hc & Hi).
  pose proof (Forall_nth_error _ Hp Hn) as Hk.
  pose proof (count_chat_remove_nth _ _ Hn) as Hcount.
  pose proof (Forall_remove_nth i Hp) as Hp'.
  unfold chat_in_flight in *. fold (count_chat (pending w)) in Hc, Hi.
  set (w1 := with_playing (playing w ++ started op r)
               (with_pending (remove_nth i (pending w)) w)).
  destruct Hk as [[c Hk]|[[txt Hk]|[a Hk]]]; injection Hk as -> ->;
    simpl in Hcount.
  - destruct (chat_send_resume_shape env sp c r w1) as (Hpend & Hlis & Hload).
    unfold chat_inv, chat_in_flight. rewrite Hlis, Hload.
    destruct Hpend as [->|[txt ->]]; simpl.
    + fold (count_chat (remove_nth i (pending w))).
      repeat split; auto; lia.
    + fold (count_chat (remove_nth i (pending w) ++
              [(OpFetch (Chat.speak_request env txt), Chat.tts_fetched)])).
      rewrite count_chat_app, count_chat_speak.
      repeat split; auto; try lia.
      apply Forall_app. split; auto. constructor; auto.
      right. left. eauto.
  - destruct (chat_tts_fetched_shape r w1) as (Hst & Hcase).
    unfold chat_inv, chat_in_flight. rewrite Hst.
    destruct Hcase as [[-> ->]|[-> ->]]; simpl.
    + fold (count_chat (remove_nth i (pending w))).
      repeat split; auto; try lia. intros H. specialize (Hi H). lia.
    + fold (count_chat (remove_nth i (pending w) ++
              [(OpPlay (next_audio w), Chat.tts_played)])).
      rewrite count_chat_app, count_chat_play.
      repeat split; auto; try lia.
      * apply Forall_app. split; auto. constructor; auto.
        right. right. eauto.
      * intros H. specialize (Hi H). lia.
  - destruct (chat_tts_played_shape r w1) as (Hst & Hpend & Hlis).
    unfold chat_inv, chat_in_flight. rewrite Hst, Hpend, Hlis. simpl.
    fold (count_chat (remove_nth i (pending w))).
    repeat split; auto; try lia. intros H. specialize (Hi H). lia.
Qed.

Lemma chat_inv_step env sp (w : World Chat.State) e :
  chat_inv env sp w -> chat_inv env sp (Chat.step env sp w e).
Proof.
  intros Hinv. destruct e as [s| | | |i r|a]; simpl.
  - destruct (Chat.isLoading (st w)) eqn:Hload; [assumption|].
    destruct Hinv as (Hp & Hl & Hc & Hi).
    unfold chat_inv, chat_in_flight in *. simpl. auto.
  - destruct (negb (truthy (trim (Chat.inputText (st w))))
              || Chat.isLoading (st w)) eqn:Hg; [assumption|].
    apply orb_false_iff in Hg as [_ Hload].
    apply chat_inv_send; assumption.
  - destruct (Chat.isLoading (st w)) eqn:Hload; [assumption|].
    apply chat_inv_send; assumption.
  - destruct (Chat.messages (st w)); [assumption|].
    destruct Hinv as (Hp & Hl & Hc & Hi).
    unfold chat_inv, chat_in_flight in *. simpl. auto.
  - apply chat_inv_complete; assumption.
  - unfold audio_ended. destruct (existsb (Nat.eqb a) (playing w));
      [|assumption].
    destruct Hinv as (Hp & Hl & Hc & Hi).
    rewrite (lookup_listener_skip a Hl).
    unfold chat_inv, chat_in_flight in *. simpl. auto.
Qed.

Lemma chat_inv_run env sp es :
  forall w, chat_inv env sp w -> chat_inv env sp (Chat.run env sp w es).
Proof.
  induction es as [|e es IH]; intros w Hinv; simpl; auto.
  apply IH. apply chat_inv_step. assumption.
Qed.

(** The part of C6 the text chat keeps: whatever the user and the network
    do, at most one chat request of the text chat is unanswered; while one
    is, [isLoading] is set, typing is off, and a click on send or the
    Enter key sends nothing. *)
Theorem chat_one_request_in_flight :
  forall env sp (es : list Chat.Event),
    let w := Chat.run env sp Chat.mount es in
    chat_in_flight w <= 1
    /\ (chat_in_flight w = 1 ->
        Chat.isLoading (st w) = true
        /\ Chat.step env sp w Chat.ClickSend = w
        /\ Chat.step env sp w Chat.PressEnter = w
        /\ forall s, Chat.step env sp w (Chat.TypeText s) = w).
Proof.
  intros env sp es w.
  destruct (chat_inv_run es (chat_inv_mount env sp)) as (_ & _ & Hc & Hi).
  fold w in Hc, Hi. split; [assumption|].
  intros H1.
  assert (Hload : Chat.isLoading (st w) = true).
  { destruct (Chat.isLoading (st w)); auto. specialize (Hi eq_refl). lia. }
  simpl. rewrite Hload, orb_true_r. auto.
Qed.

(* ================================================================== *)
(** ** Successful turns of the text chat *)
(* ================================================================== *)

Lemma nth_error_last {A} (l : list A) (x : A) :
  nth_error (l ++ [x]) (length l) = Some x.
Proof. induction l; simpl; auto. Qed.

Lemma remove_nth_last {A} (l : list A) (x : A) :
  remove_nth (length l) (l ++ [x]) = l.
Proof. induction l; simpl; auto. f_equal. assumption. Qed.

Lemma chat_send_request env sp (w : World Chat.State) u :
  Chat.isLoading (st w) = false ->
  truthy (trim u) = true ->
  Chat.step env sp (Chat.step env sp w (Chat.TypeText u)) Chat.ClickSend
  = exec (Chat.sendMessage env sp (Chat.setInputText u (st w)))
         (with_st (Chat.setInputText u) w).
Proof.
  intros Hload Hu. simpl. rewrite Hload. simpl. rewrite Hu, Hload.
  reflexivity.
Qed.

Lemma chat_turn_spec env sp (w : World Chat.State) u reply :
  Chat.isLoading (st w) = false ->
  truthy (trim u) = true ->
  let w' := Chat.turn env sp w (u, reply) in
  Chat.messages (st w')
  = Chat.messages (st w) ++ [mkMsg user (trim u);
                             mkMsg assistant (text reply)]
  /\ Chat.isLoading (st w') = false
  /\ Chat.sessionId (st w')
     = (if truthy (session_id reply) then Some (session_id reply)
        else Chat.sessionId (st w)).
Proof.
  intros Hload Hu w'. subst w'. unfold Chat.turn. cbn [fst snd].
  rewrite (chat_send_request env sp w u Hload Hu).
  rewrite exec_sendMessage
    by (simpl; rewrite Hu, Hload; reflexivity).
  cbn [Chat.step pending with_sent with_pending with_st].
  rewrite length_app. cbn [length]. rewrite Nat.add_sub.
  unfold complete. cbn [pending with_sent with_pending with_st].
  rewrite nth_error_last. unfold ok_reply. cbn [answers]. cbv iota.
  rewrite (@chat_send_resume_ok env sp (Chat.setInputText u (st w))
             (mkResponse 200 (lit "OK") (Some reply) None) reply
             eq_refl eq_refl).
  unfold Chat.after_reply.
  destruct (truthy (session_id reply)); destruct sp; simpl;
    rewrite <- app_assoc; auto.
Qed.

(** The part of C1 and C2 the text chat keeps.  After any sequence of
    successful turns, begun when no request is in flight, the transcript
    is the one before followed by the turns in order, the session
    identifier is the last non-empty one returned (the one before, if
    none was), and the next request carries exactly that transcript as its
    history and that identifier, the new message being sent apart. *)
Theorem chat_turns_replayed :
  forall env sp (turns : list (jsstring * ChatResponse))
         (w : World Chat.State),
    Chat.isLoading (st w) = false ->
    Forall (fun ur => truthy (trim (fst ur)) = true) turns ->
    let w' := fold_left (Chat.turn env sp) turns w in
    Chat.messages (st w') = Chat.messages (st w) ++ Chat.committed turns
    /\ Chat.sessionId (st w') = Chat.adopted (Chat.sessionId (st w)) turns
    /\ Chat.isLoading (st w') = false
    /\ forall u,
        truthy (trim u) = true ->
        sent (Chat.step env sp (Chat.step env sp w' (Chat.TypeText u))
                        Chat.ClickSend)
        = sent w'
          ++ [Api.chat_request env (trim u)
                (Chat.messages (st w) ++ Chat.committed turns)
                (Chat.adopted (Chat.sessionId (st w)) turns)
                (lit "text")].
Proof.
  intros env sp turns.
  induction turns as [|[u reply] turns IH]; intros w Hload Hall w'.
  - subst w'. unfold Chat.committed, Chat.adopted.
    cbn [fold_left flat_map]. rewrite app_nil_r. repeat split; auto.
    intros u Hu. rewrite (chat_send_request env sp w u Hload Hu).
    rewrite exec_sendMessage by (simpl; rewrite Hu, Hload; reflexivity).
    reflexivity.
  - inversion Hall as [|? ? Hu Hall']; subst.
    cbn [fst] in Hu.
    destruct (@chat_turn_spec env sp w u reply Hload Hu) as (Hm & Hl & Hs).
    specialize (IH (Chat.turn env sp w (u, reply)) Hl Hall').
    subst w'. cbn [fold_left].
    destruct IH as (IHm & IHs & IHl & IHn).
    rewrite Hm in IHm, IHn. rewrite Hs in IHs, IHn.
    rewrite <- app_assoc in IHm, IHn.
    repeat split; auto.
Qed.

(** Two turns from the mounted chat; the second reply carries no session
    identifier. *)
Lemma chat_turns_replayed_witness :
  let turns := [(lit "I'm tired", mkResp (lit "Rest well.") (lit "abc123"));
                (lit " ok ", mkResp (lit "Good.") [])] in
  let w' := fold_left (Chat.turn None false) turns Chat.mount in
  Chat.messages (st w')
  = [mkMsg user (lit "I'm tired"); mkMsg assistant (lit "Rest well.");
     mkMsg user (lit "ok"); mkMsg assistant (lit "Good.")]
  /\ Chat.sessionId (st w') = Some (lit "abc123").
Proof.
  intros turns w'.
  assert (Hall : Forall (fun ur => truthy (trim (fst ur)) = true) turns)
    by (repeat constructor).
  destruct (@chat_turns_replayed None false turns Chat.mount eq_refl Hall)
    as (Hm & Hs & _).
  split; [exact Hm | exact Hs].
Defined.

(** The scenario of the specification, on the text chat: the first
    request has no history and no session identifier; once it is answered
    with the session "abc123", the second carries that session and the
    first exchange. *)
Example chat_scenario :
  let said := lit "I'm feeling tired today" in
  let w := Chat.run None false Chat.mount
             [Chat.TypeText said; Chat.ClickSend;
              Chat.Complete 0 (ok_reply (mkResp (lit "...") (lit "abc123")));
              Chat.TypeText (lit "and sore"); Chat.ClickSend] in
  map body (sent w)
  = [ChatBody said [] None (lit "text");
     ChatBody (lit "and sore")
              [mkMsg user said; mkMsg assistant (lit "...")]
              (Some (lit "abc123")) (lit "text")].
Proof. reflexivity. Qed.

(* ================================================================== *)
(** ** Every request of the voice surface *)
(* ================================================================== *)

Lemma voice_inv_quiet env sp (w w' : World VoiceAssistant.State) :
  quiet w w' -> voice_inv env sp w -> voice_inv env sp w'.
Proof.
  intros (Hp & Hs & Hl) (H1 & H2 & H3). unfold voice_inv.
  rewrite Hp, Hs, Hl. auto.
Qed.

Lemma quiet_refl {St} (w : World St) : quiet w w.
Proof. unfold quiet. auto. Qed.

Lemma voice_startListening_quiet sup (w : World VoiceAssistant.State) :
  quiet w (exec (VoiceAssistant.startListening sup) w).
Proof.
  unfold VoiceAssistant.startListening. destruct sup; simpl.
  - destruct (capturing w); unfold quiet; simpl; auto.
  - unfold quiet; simpl; auto.
Qed.

Lemma voice_stopListening_quiet sup (w : World VoiceAssistant.State) :
  quiet w (exec (VoiceAssistant.stopListening sup) w).
Proof. destruct sup; unfold quiet; simpl; auto. Qed.

Lemma voice_stopSpeaking_quiet (w : World VoiceAssistant.State) :
  quiet w (exec VoiceAssistant.stopSpeaking w).
Proof.
  unfold VoiceAssistant.stopSpeaking. simpl.
  destruct (VoiceAssistant.audioRef (st w)); unfold quiet; simpl; auto.
Qed.

Lemma voice_onerror_quiet code (w : World VoiceAssistant.State) :
  quiet w (exec (VoiceAssistant.onerror code) w).
Proof.
  unfold VoiceAssistant.onerror. simpl.
  destruct (Js.eqb code (lit "no-speech")); [unfold quiet; simpl; auto|].
  destruct (Js.eqb code (lit "not-allowed")); [unfold quiet; simpl; auto|].
  destruct (Js.eqb code (lit "audio-capture")); unfold quiet; simpl; auto.
Qed.

Lemma voice_speech_resume_shape env sp c t r
      (w : World VoiceAssistant.State) :
  let w' := exec (VoiceAssistant.speech_resume env sp c t r) w in
  listeners w' = listeners w
  /\ ((pending w' = pending w /\ sent w' = sent w)
      \/ exists txt,
          pending w' = pending w
                       ++ [(OpFetch (VoiceAssistant.speak_request env txt),
                            VoiceAssistant.speech_tts_fetched)]
          /\ sent w' = sent w ++ [VoiceAssistant.speak_request env txt]).
Proof.
  destruct r as [[|resp]|b]; simpl; auto.
  unfold VoiceAssistant.speech_resume, fetch_result. simpl bind.
  unfold Api.read_reply.
  destruct (negb (ok resp)); [simpl; auto|].
  destruct (json resp) as [reply|]; [|simpl; auto].
  unfold VoiceAssistant.after_reply. simpl.
  destruct (truthy (session_id reply)); destruct sp; simpl; eauto.
Qed.

Lemma voice_speech_tts_fetched_shape r (w : World VoiceAssistant.State) :
  let w' := exec (VoiceAssistant.speech_tts_fetched r) w in
  sent w' = sent w
  /\ ((pending w' = pending w /\ listeners w' = listeners w)
      \/ (pending w' = pending w ++ [(OpPlay (next_audio w),
                                      VoiceAssistant.speech_tts_played)]
          /\ listeners w'
             = (next_audio w,
                set (VoiceAssistant.setVoiceState VoiceAssistant.idle))
               :: listeners w)).
Proof.
  destruct r as [[|resp]|b]; simpl; auto.
  unfold VoiceAssistant.speech_tts_fetched, VoiceAssistant.tts_fetched,
    fetch_result, VoiceAssistant.tts_body. simpl bind.
  destruct (negb (ok resp)); [simpl; auto|].
  destruct (blob resp); simpl; auto.
Qed.

Lemma voice_speech_tts_played_quiet r (w : World VoiceAssistant.State) :
  quiet w (exec (VoiceAssistant.speech_tts_played r) w).
Proof. destruct r as [[|resp]|[|]]; unfold quiet; simpl; auto. Qed.

Lemma speak_request_carries_nothing env txt :
  carries_nothing (VoiceAssistant.speak_request env txt).
Proof. split; reflexivity. Qed.

Lemma first_render_request_carries_nothing env txt :
  carries_nothing
    (VoiceAssistant.speech_request env VoiceAssistant.first_render txt).
Proof. split; reflexivity. Qed.

Lemma voice_inv_mount env sp sup :
  voice_inv env sp (VoiceAssistant.mount sup).
Proof. unfold voice_inv. destruct sup; simpl; auto. Qed.

Lemma voice_inv_speech env sp t (w : World VoiceAssistant.State) :
  voice_inv env sp w ->
  voice_inv env sp
    (exec (VoiceAssistant.handleUserSpeech env sp
             VoiceAssistant.first_render t) w).
Proof.
  intros Hinv. destruct (truthy (trim t)) eqn:Ht.
  - rewrite exec_handleUserSpeech by assumption.
    destruct Hinv as (Hp & Hl & Hs). unfold voice_inv. simpl.
    repeat split; auto.
    + apply Forall_app. split; auto. constructor; auto. left. eauto.
    + apply Forall_app. split; auto. constructor; auto.
      apply first_render_request_carries_nothing.
  - unfold VoiceAssistant.handleUserSpeech. rewrite Ht. simpl.
    exact Hinv.
Qed.

Lemma voice_inv_complete env sp (w : World VoiceAssistant.State) i r :
  voice_inv env sp w -> voice_inv env sp (complete i r w).
Proof.
  intros Hinv. unfold complete.
  destruct (nth_error (pending w) i) as [[op k]|] eqn:Hn; [|assumption].
  destruct (answers op r); [|assumption].
  destruct Hinv as (Hp & Hl & Hs).
  pose proof (Forall_nth_error _ Hp Hn) as Hk.
  pose proof (Forall_remove_nth i Hp) as Hp'.
  set (w1 := with_playing (playing w ++ started op r)
               (with_pending (remove_nth i (pending w)) w)).
  destruct Hk as [[txt Hk]|[[txt Hk]|[a Hk]]]; injection Hk as -> ->.
  - destruct (voice_speech_resume_shape env sp VoiceAssistant.first_render
                                        txt r w1) as (Hlis & Hcase).
    unfold voice_inv. rewrite Hlis.
    destruct Hcase as [[-> ->]|[txt' [-> ->]]]; simpl; repeat split; auto.
    + apply Forall_app. split; auto. constructor; auto. right. left. eauto.
    + apply Forall_app. split; auto. constructor; auto.
      apply speak_request_carries_nothing.
  - destruct (voice_speech_tts_fetched_shape r w1) as (Hsent & Hcase).
    unfold voice_inv. rewrite Hsent.
    destruct Hcase as [[-> ->]|[-> ->]]; simpl; repeat split; auto.
    apply Forall_app. split; auto. constructor; auto. right. right. eauto.
  - apply (@voice_inv_quiet env sp w1 _
             (voice_speech_tts_played_quiet r w1)).
    unfold voice_inv. simpl. auto.
Qed.

Lemma voice_listener_quiet a (w w1 : World VoiceAssistant.State) :
  Forall (fun l => snd l
                   = set (VoiceAssistant.setVoiceState VoiceAssistant.idle))
         (listeners w) ->
  quiet w1 (exec (lookup_listener a (listeners w)) w1).
Proof.
  induction 1 as [|[b h] l Hh _ IH]; simpl.
  - apply quiet_refl.
  - destruct (Nat.eqb a b); [|assumption].
    simpl in Hh. subst h. unfold quiet. simpl. auto.
Qed.

Lemma voice_inv_step env sp sup (w : World VoiceAssistant.State) e :
  voice_inv env sp w ->
  voice_inv env sp (VoiceAssistant.step env sp sup w e).
Proof.
  intros Hinv. destruct e as [|t isFinal|code| | |i r|a]; simpl.
  - destruct (VoiceAssistant.voiceState (st w)).
    + exact (voice_inv_quiet (voice_startListening_quiet sup w) Hinv).
    + exact (voice_inv_quiet (voice_stopListening_quiet sup w) Hinv).
    + assumption.
    + exact (voice_inv_quiet (voice_stopSpeaking_quiet w) Hinv).
  - destruct (capturing w); [|assumption].
    destruct isFinal.
    + unfold VoiceAssistant.onresult. simpl.
      apply voice_inv_speech.
      destruct Hinv as (Hp & Hl & Hs). unfold voice_inv. simpl. auto.
    + destruct Hinv as (Hp & Hl & Hs). unfold voice_inv. simpl. auto.
  - destruct (capturing w); [|assumption].
    apply (@voice_inv_quiet env sp (with_capturing false w) _
             (voice_onerror_quiet code (with_capturing false w))).
    destruct Hinv as (Hp & Hl & Hs). unfold voice_inv. simpl. auto.
  - destruct (capturing w); [|assumption].
    destruct Hinv as (Hp & Hl & Hs). unfold voice_inv. simpl. auto.
  - destruct (VoiceAssistant.history (st w)); [assumption|].
    destruct Hinv as (Hp & Hl & Hs). unfold voice_inv. simpl. auto.
  - apply voice_inv_complete; assumption.
  - unfold audio_ended.
    destruct (existsb (Nat.eqb a) (playing w)); [|assumption].
    destruct Hinv as (Hp & Hl & Hs).
    apply (@voice_inv_quiet env sp
             (with_playing (remove Nat.eq_dec a (playing w)) w) _
             (@voice_listener_quiet a w
                (with_playing (remove Nat.eq_dec a (playing w)) w) Hl)).
    unfold voice_inv. simpl. auto.
Qed.

Lemma voice_inv_run env sp sup es :
  forall w,
    voice_inv env sp w ->
    voice_inv env sp (VoiceAssistant.run env sp sup w es).
Proof.
  induction es as [|e es IH]; intros w Hinv; simpl; auto.
  apply IH. apply voice_inv_step. assumption.
Qed.

(** Why C1 and C2 fail on the voice surface, in general: whatever the
    user says and the backend answers, in whatever order, every request
    the mounted component sends has an empty history and no session
    identifier. *)
Theorem voice_requests_carry_nothing :
  forall env sp sup (es : list VoiceAssistant.Event),
    Forall (fun req => history_of req = [] /\ session_of req = None)
           (sent (VoiceAssistant.run env sp sup
                    (VoiceAssistant.mount sup) es)).
Proof.
  intros env sp sup es.
  exact (proj2 (proj2 (voice_inv_run sup es (voice_inv_mount env sp sup)))).
Qed.

(** The same scenario in [App], with a [speakText] that does nothing: the
    second request carries the session and the first exchange. *)
Example app_scenario :
  let said := lit "I'm feeling tired today" in
  let w := App.run None (fun _ => Ret tt) App.mount
             [App.TypeText said; App.ClickSend;
              App.Complete 0 (ok_reply (mkResp (lit "...") (lit "abc123")));
              App.TypeText (lit "and sore"); App.ClickSend] in
  map body (sent w)
  = [ChatBody said [] None (lit "Text");
     ChatBody (lit "and sore")
              [mkMsg user said; mkMsg assistant (lit "...")]
              (Some (lit "abc123")) (lit "Text")].
Proof. reflexivity. Qed.

(* ================================================================== *)
(** ** The session identifier is not lost *)
(* ================================================================== *)

Section RespectFacts.

Context {St : Type} (rel : St -> St -> Prop).
Hypothesis rel_refl : forall s, rel s s.
Hypothesis rel_trans : forall a b c, rel a b -> rel b c -> rel a c.

Lemma respects_bind {R R'} (p : Proc St R) (f : R -> Proc St R') :
  respects rel p -> (forall a, respects rel (f a)) ->
  respects rel (bind p f).
Proof.
  induction p; simpl; intros Hp Hf; try tauto;
    try (destruct Hp; split; auto); auto.
Qed.

Lemma respects_try_catch {R} (p : Proc St R) (h : jsstring -> Proc St R) :
  respects rel p -> (forall e, respects rel (h e)) ->
  respects rel (try_catch p h).
Proof.
  induction p; simpl; intros Hp Hh; try tauto;
    try (destruct Hp; split; auto); auto.
Qed.

Lemma respects_finally {R} (p : Proc St R) (q : Proc St unit) :
  respects rel p -> respects rel q -> respects rel (finally p q).
Proof.
  intros Hp Hq. unfold finally.
  apply respects_bind.
  - apply respects_try_catch; [apply respects_bind|]; simpl; auto.
  - intros [a|e]; apply respects_bind; simpl; auto.
Qed.

Lemma respects_lift {R} (p : Proc unit R) : respects rel (lift (St:=St) p).
Proof. induction p; simpl; auto. Qed.

Lemma respects_when (b : bool) (p : Proc St unit) :
  respects rel p -> respects rel (when b p).
Proof. destruct b; simpl; auto. Qed.

(** Running a handler that respects [rel], in a world where all that waits
    does, relates the states and leaves such a world. *)
Lemma exec_respects (p : Proc St unit) :
  forall w,
    respects rel p -> parked_respect rel w ->
    parked_respect rel (exec p w) /\ rel (st w) (st (exec p w)).
Proof.
  revert p. fix IH 1. intros p w Hp Hw.
  destruct p; simpl in Hp |- *.
  - auto.
  - split; [exact Hw | apply rel_refl].
  - destruct Hp as [Hf Hp].
    destruct (IH p (with_st f w) Hp Hw) as [H1 H2].
    split; [exact H1|]. eapply rel_trans; [apply Hf | exact H2].
  - apply (IH (k (st w)) w (Hp _) Hw).
  - split; [|apply rel_refl].
    destruct Hw as [Hpend Hlis]. split; simpl; [|exact Hlis].
    apply Forall_app. split; [exact Hpend|]. constructor; [exact Hp|constructor].
  - apply (IH (k (next_audio w)) (with_next_audio (S (next_audio w)) w)
              (Hp _) Hw).
  - apply (IH p (with_playing (remove Nat.eq_dec a (playing w)) w) Hp Hw).
  - destruct Hp as [Hh Hp].
    apply (IH p2 (with_listeners ((a, p1) :: listeners w) w) Hp).
    destruct Hw as [Hpend Hlis]. split; simpl; [exact Hpend|].
    constructor; [exact Hh | exact Hlis].
  - destruct Hp as [Hq Hp].
    destruct (IH p1 w Hq Hw) as [H1 H2].
    destruct (IH p2 (exec p1 w) Hp H1) as [H3 H4].
    split; [exact H3|]. eapply rel_trans; [exact H2 | exact H4].
  - apply (IH p (with_console (console w ++ [msg]) w) Hp Hw).
  - apply (IH p (with_emitted (emitted w ++ [m]) w) Hp Hw).
  - destruct (capturing w).
    + apply (IH (k false) w (Hp _) Hw).
    + apply (IH (k true) (with_capturing true w) (Hp _) Hw).
  - apply (IH p w Hp Hw).
  - apply (IH (k (clock w)) w (Hp _) Hw).
Qed.

Lemma complete_respects i r (w : World St) :
  parked_respect rel w ->
  parked_respect rel (complete i r w) /\ rel (st w) (st (complete i r w)).
Proof.
  intros Hw. unfold complete.
  destruct (nth_error (pending w) i) as [[op k]|] eqn:Hn; [|auto].
  destruct (answers op r); [|auto].
  destruct Hw as [Hpend Hlis].
  pose proof (Forall_nth_error _ Hpend Hn) as Hk. simpl in Hk.
  set (w1 := with_playing (playing w ++ started op r)
               (with_pending (remove_nth i (pending w)) w)).
  change (st w) with (st w1).
  apply exec_respects; [apply Hk|].
  split; simpl; [apply Forall_remove_nth; exact Hpend | exact Hlis].
Qed.

Lemma lookup_listener_respects a (l : list (AudioId * Proc St unit)) :
  Forall (fun x => respects rel (snd x)) l ->
  respects rel (lookup_listener a l).
Proof.
  induction 1 as [|[b h] l Hh _ IH]; simpl; auto.
  destruct (Nat.eqb a b); auto.
Qed.

Lemma audio_ended_respects a (w : World St) :
  parked_respect rel w ->
  parked_respect rel (audio_ended a w)
  /\ rel (st w) (st (audio_ended a w)).
Proof.
  intros Hw. unfold audio_ended.
  destruct (existsb (Nat.eqb a) (playing w)); [|auto].
  destruct Hw as [Hpend Hlis].
  set (w1 := with_playing (remove Nat.eq_dec a (playing w)) w).
  change (st w) with (st w1).
  apply exec_respects.
  - apply lookup_listener_respects. exact Hlis.
  - split; simpl; assumption.
Qed.

End RespectFacts.

Lemma keeps_session_refl {St} (sid : St -> option jsstring) s :
  keeps_session sid s s.
Proof. unfold keeps_session. auto. Qed.

Lemma keeps_session_trans {St} (sid : St -> option jsstring) a b c :
  keeps_session sid a b -> keeps_session sid b c -> keeps_session sid a c.
Proof. unfold keeps_session. auto. Qed.

(** Walks a handler: through its setters, its branches and whatever its
    awaits complete with. *)
Ltac walk :=
  repeat first
    [ progress simpl
    | progress unfold fetch_result, play_result, Api.read_reply, when
    | match goal with
      | |- True => exact I
      | |- _ /\ _ => split
      | |- keeps_session _ _ _ =>
          solve [unfold keeps_session in *; simpl in *; congruence]
      | |- forall _, _ => intro
      | |- respects _ (lift _) => apply respects_lift
      | |- respects _ (finally _ _) => apply respects_finally
      | |- respects _ (try_catch _ _) => apply respects_try_catch
      | |- respects _ (bind _ _) => apply respects_bind
      | |- context [match ?x with _ => _ end] => destruct x
      end ].

Lemma chat_sendMessage_respects env sp c :
  respects (keeps_session Chat.sessionId) (Chat.sendMessage env sp c).
Proof.
  unfold Chat.sendMessage, Api.chatWithAgent, fetch, Chat.after_reply,
    Chat.send_catch, Chat.playTTS, Chat.tts_body, play.
  walk.
Qed.

Lemma voice_handleUserSpeech_respects env sp c t :
  respects (keeps_session VoiceAssistant.sessionId)
           (VoiceAssistant.handleUserSpeech env sp c t).
Proof.
  unfold VoiceAssistant.handleUserSpeech, Api.chatWithAgent, fetch,
    VoiceAssistant.after_reply, VoiceAssistant.speech_catch,
    VoiceAssistant.playTTS, VoiceAssistant.tts_body,
    VoiceAssistant.tts_catch, play.
  walk.
Qed.

Lemma voice_buttons_respect sup :
  respects (keeps_session VoiceAssistant.sessionId)
           (VoiceAssistant.startListening sup)
  /\ respects (keeps_session VoiceAssistant.sessionId)
              (VoiceAssistant.stopListening sup)
  /\ respects (keeps_session VoiceAssistant.sessionId)
              VoiceAssistant.stopSpeaking.
Proof.
  unfold VoiceAssistant.startListening, VoiceAssistant.stopListening,
    VoiceAssistant.stopSpeaking, VoiceAssistant.rec_start.
  walk.
Qed.

Lemma voice_callbacks_respect env sp t isFinal code :
  respects (keeps_session VoiceAssistant.sessionId)
           (VoiceAssistant.onresult env sp t isFinal)
  /\ respects (keeps_session VoiceAssistant.sessionId)
              (VoiceAssistant.onerror code)
  /\ respects (keeps_session VoiceAssistant.sessionId)
              VoiceAssistant.onend.
Proof.
  split; [|split].
  - unfold VoiceAssistant.onresult. destruct isFinal; simpl.
    + split; [walk|]. split; [|exact I].
      apply voice_handleUserSpeech_respects.
    + walk.
  - unfold VoiceAssistant.onerror. walk.
  - unfold VoiceAssistant.onend. walk.
Qed.

Lemma app_handleSend_respects env spk c t :
  respects (keeps_session App.sessionId) (App.handleSend env spk c t).
Proof.
  unfold App.handleSend, Api.chatWithAgent, fetch, App.after_reply,
    App.send_catch, App.stamp.
  walk.
Qed.

Lemma parked_respect_with_st {St} (rel : St -> St -> Prop) f
      (w : World St) :
  parked_respect rel w -> parked_respect rel (with_st f w).
Proof. intros [H1 H2]. split; assumption. Qed.

Lemma chat_step_respects env sp (w : World Chat.State) e :
  parked_respect (keeps_session Chat.sessionId) w ->
  parked_respect (keeps_session Chat.sessionId) (Chat.step env sp w e)
  /\ (e <> Chat.ClickClear ->
      keeps_session Chat.sessionId (st w) (st (Chat.step env sp w e))).
Proof.
  intros Hw.
  pose proof (@keeps_session_refl _ Chat.sessionId) as Hrefl.
  pose proof (@keeps_session_trans _ Chat.sessionId) as Htrans.
  destruct e as [s| | | |i r|a]; simpl.
  - destruct (Chat.isLoading (st w)); [auto|].
    split; [apply parked_respect_with_st; exact Hw|].
    intros _ H. exact H.
  - destruct (negb (truthy (trim (Chat.inputText (st w))))
              || Chat.isLoading (st w)); [auto|].
    destruct (exec_respects Hrefl Htrans
                (Chat.sendMessage env sp (st w)) 
                (chat_sendMessage_respects env sp (st w)) Hw); auto.
  - destruct (Chat.isLoading (st w)); [auto|].
    destruct (exec_respects Hrefl Htrans
                (Chat.sendMessage env sp (st w)) 
                (chat_sendMessage_respects env sp (st w)) Hw); auto.
  - split; [|congruence].
    destruct (Chat.messages (st w)); [exact Hw|].
    destruct Hw as [H1 H2]. split; assumption.
  - destruct (complete_respects Hrefl Htrans i r Hw); auto.
  - destruct (audio_ended_respects Hrefl Htrans a Hw); auto.
Qed.

Lemma voice_step_respects env sp sup (w : World VoiceAssistant.State) e :
  parked_respect (keeps_session VoiceAssistant.sessionId) w ->
  parked_respect (keeps_session VoiceAssistant.sessionId)
                 (VoiceAssistant.step env sp sup w e)
  /\ (e <> VoiceAssistant.ClickClear ->
      keeps_session VoiceAssistant.sessionId (st w)
                    (st (VoiceAssistant.step env sp sup w e))).
Proof.
  intros Hw.
  pose proof (@keeps_session_refl _ VoiceAssistant.sessionId) as Hrefl.
  pose proof (@keeps_session_trans _ VoiceAssistant.sessionId) as Htrans.
  destruct (voice_buttons_respect sup) as (Hstart & Hstop & Hquiet).
  destruct e as [|t isFinal|code| | |i r|a]; simpl.
  - destruct (VoiceAssistant.voiceState (st w)).
    + destruct (exec_respects Hrefl Htrans _ Hstart Hw); auto.
    + destruct (exec_respects Hrefl Htrans _ Hstop Hw); auto.
    + auto.
    + destruct (exec_respects Hrefl Htrans _ Hquiet Hw); auto.
  - destruct (capturing w); [|auto].
    destruct (voice_callbacks_respect env sp t isFinal []) as (Hres & _ & _).
    assert (Hw' : parked_respect (keeps_session VoiceAssistant.sessionId)
                    (if isFinal then with_capturing false w else w))
      by (destruct isFinal; [destruct Hw; split; assumption | exact Hw]).
    destruct (exec_respects Hrefl Htrans _ Hres Hw') as [H1 H2].
    split; [exact H1|]. intros _. destruct isFinal; exact H2.
  - destruct (capturing w); [|auto].
    destruct (voice_callbacks_respect env sp [] false code) as (_ & Herr & _).
    assert (Hw' : parked_respect (keeps_session VoiceAssistant.sessionId)
                    (with_capturing false w))
      by (destruct Hw; split; assumption).
    destruct (exec_respects Hrefl Htrans _ Herr Hw'); auto.
  - destruct (capturing w); [|auto].
    destruct (voice_callbacks_respect env sp [] false []) as (_ & _ & Hend).
    assert (Hw' : parked_respect (keeps_session VoiceAssistant.sessionId)
                    (with_capturing false w))
      by (destruct Hw; split; assumption).
    destruct (exec_respects Hrefl Htrans _ Hend Hw'); auto.
  - split; [|congruence].
    destruct (VoiceAssistant.history (st w)); [exact Hw|].
    destruct Hw as [H1 H2]. split; assumption.
  - destruct (complete_respects Hrefl Htrans i r Hw); auto.
  - destruct (audio_ended_respects Hrefl Htrans a Hw); auto.
Qed.

Lemma app_step_respects env spk (w : World App.State) e :
  parked_respect (keeps_session App.sessionId) w ->
  parked_respect (keeps_session App.sessionId) (App.step env spk w e)
  /\ keeps_session App.sessionId (st w) (st (App.step env spk w e)).
Proof.
  intros Hw.
  pose proof (@keeps_session_refl _ App.sessionId) as Hrefl.
  pose proof (@keeps_session_trans _ App.sessionId) as Htrans.
  destruct e as [s| | | |ms|i r|a]; simpl.
  - split; [apply parked_respect_with_st; exact Hw|]. intros H. exact H.
  - destruct (negb (truthy (trim (App.input (st w))))); [auto|].
    apply (exec_respects Hrefl Htrans); [|exact Hw].
    apply app_handleSend_respects.
  - apply (exec_respects Hrefl Htrans); [|exact Hw].
    apply app_handleSend_respects.
  - split; [apply parked_respect_with_st; exact Hw|]. intros H. exact H.
  - split; [destruct Hw; split; assumption|]. intros H. exact H.
  - apply (complete_respects Hrefl Htrans); exact Hw.
  - apply (audio_ended_respects Hrefl Htrans); exact Hw.
Qed.

Lemma parked_respect_init {St} (rel : St -> St -> Prop) s :
  parked_respect rel (init_world s).
Proof. split; constructor. Qed.

Lemma chat_run_respects env sp es :
  forall w,
    parked_respect (keeps_session Chat.sessionId) w ->
    parked_respect (keeps_session Chat.sessionId) (Chat.run env sp w es).
Proof.
  induction es as [|e es IH]; intros w Hw; simpl; auto.
  apply IH. apply chat_step_respects. exact Hw.
Qed.

Lemma voice_run_respects env sp sup es :
  forall w,
    parked_respect (keeps_session VoiceAssistant.sessionId) w ->
    parked_respect (keeps_session VoiceAssistant.sessionId)
                   (VoiceAssistant.run env sp sup w es).
Proof.
  induction es as [|e es IH]; intros w Hw; simpl; auto.
  apply IH. apply voice_step_respects. exact Hw.
Qed.

Lemma app_run_respects env spk es :
  forall w,
    parked_respect (keeps_session App.sessionId) w ->
    parked_respect (keeps_session App.sessionId) (App.run env spk w es).
Proof.
  induction es as [|e es IH]; intros w Hw; simpl; auto.
  apply IH. apply app_step_respects. exact Hw.
Qed.

(** The part of C2 every surface keeps.  In any world the component
    reaches, whatever happens next, a session identifier that is there is
    still there afterwards, unless what happens is a click on the clear
    button ([App] has none): no reply, no failure and no late completion
    clears it. *)
Theorem session_id_not_lost :
  (forall env sp (es : list Chat.Event) (e : Chat.Event),
      e <> Chat.ClickClear ->
      let w := Chat.run env sp Chat.mount es in
      Chat.sessionId (st w) <> None ->
      Chat.sessionId (st (Chat.step env sp w e)) <> None)
  /\ (forall env sp sup (es : list VoiceAssistant.Event)
             (e : VoiceAssistant.Event),
      e <> VoiceAssistant.ClickClear ->
      let w := VoiceAssistant.run env sp sup (VoiceAssistant.mount sup) es in
      VoiceAssistant.sessionId (st w) <> None ->
      VoiceAssistant.sessionId (st (VoiceAssistant.step env sp sup w e))
      <> None)
  /\ (forall env spk (es : list App.Event) (e : App.Event),
      let w := App.run env spk App.mount es in
      App.sessionId (st w) <> None ->
      App.sessionId (st (App.step env spk w e)) <> None).
Proof.
  split; [|split].
  - intros env sp es e He w.
    apply (chat_step_respects env sp e
             (chat_run_respects env sp es (parked_respect_init _ _))).
    exact He.
  - intros env sp sup es e He w.
    apply (voice_step_respects env sp sup e
             (voice_run_respects env sp sup es (parked_respect_init _ _))).
    exact He.
  - intros env spk es e w.
    apply (app_step_respects env spk e
             (app_run_respects env spk es (parked_respect_init _ _))).
Qed.

(* ================================================================== *)
(** ** More on the voice surface *)
(* ================================================================== *)

(** *** A capture that ends without a result *)

Lemma listening_idle_step env sp sup (w : World VoiceAssistant.State) e :
  listening_idle w -> listening_idle (VoiceAssistant.step env sp sup w e).
Proof.
  intros (Hv & Hc & Hp & Ha). unfold listening_idle.
  destruct e as [|t isFinal|code| | |i r|a]; simpl.
  - rewrite Hv. unfold VoiceAssistant.stopListening.
    destruct sup; simpl; auto.
  - rewrite Hc. auto.
  - rewrite Hc. auto.
  - rewrite Hc. auto.
  - destruct (VoiceAssistant.history (st w)); simpl; auto.
  - unfold complete. rewrite Hp. destruct i; simpl; auto.
  - unfold audio_ended. rewrite Ha. simpl. auto.
Qed.

(** When the recogniser ends a capture without a result and without an
    error, the [onend] callback, bound by the first render, does nothing:
    the surface goes on showing "Listening...".  From there nothing the
    user or the recogniser does changes the voice state: the button calls
    [recognition.stop()] on a recogniser that is not running. *)
Theorem voice_stuck_listening :
  forall env sp sup (w : World VoiceAssistant.State)
         (es : list VoiceAssistant.Event),
    VoiceAssistant.voiceState (st w) = VoiceAssistant.listening ->
    capturing w = false ->
    pending w = [] ->
    playing w = [] ->
    VoiceAssistant.voiceState (st (VoiceAssistant.run env sp sup w es))
    = VoiceAssistant.listening.
Proof.
  intros env sp sup w es Hv Hc Hp Ha.
  assert (H : listening_idle w) by (unfold listening_idle; auto).
  clear Hv Hc Hp Ha. revert w H.
  induction es as [|e es IH]; intros w H; simpl.
  - apply H.
  - apply IH. apply listening_idle_step. exact H.
Qed.

(** The user taps, says nothing, and the capture ends; taps and clears
    that follow leave "Listening..." on. *)
Lemma voice_stuck_listening_witness :
  let w := VoiceAssistant.run None true true (VoiceAssistant.mount true)
             [VoiceAssistant.Tap; VoiceAssistant.SpeechEnd] in
  VoiceAssistant.voiceState (st w) = VoiceAssistant.listening
  /\ VoiceAssistant.voiceState
       (st (VoiceAssistant.run None true true w
              [VoiceAssistant.Tap; VoiceAssistant.Tap;
               VoiceAssistant.SpeechResult (lit "hello") true;
               VoiceAssistant.ClickClear; VoiceAssistant.Tap]))
     = VoiceAssistant.listening.
Proof.
  intros w. split; [reflexivity|].
  exact (@voice_stuck_listening None true true w _
           eq_refl eq_refl eq_refl eq_refl).
Defined.

(** *** "Speaking..." is shown only while the synthesis is awaited *)

Lemma synthesis_awaited_parked {St} (w : World St) l t :
  pending w = l ++ [t] -> is_chat_request (fst t) = false ->
  1 <= synthesis_awaited w.
Proof.
  intros Hp Ht. unfold synthesis_awaited. rewrite Hp, filter_app, length_app.
  simpl. rewrite Ht. simpl. lia.
Qed.

Lemma voice_speech_resume_speaking env sp c t r
      (w : World VoiceAssistant.State) :
  let w' := exec (VoiceAssistant.speech_resume env sp c t r) w in
  VoiceAssistant.voiceState (st w') <> VoiceAssistant.speaking
  \/ 1 <= synthesis_awaited w'.
Proof.
  destruct r as [[|resp]|b]; simpl; try (left; discriminate).
  unfold VoiceAssistant.speech_resume, fetch_result. simpl bind.
  unfold Api.read_reply.
  destruct (negb (ok resp)); [simpl; left; discriminate|].
  destruct (json resp) as [reply|]; [|simpl; left; discriminate].
  unfold VoiceAssistant.after_reply. simpl.
  destruct (truthy (session_id reply)); destruct sp; simpl;
    try (left; discriminate);
    right; eapply synthesis_awaited_parked; simpl; reflexivity.
Qed.

Lemma voice_speech_tts_fetched_speaking r (w : World VoiceAssistant.State) :
  let w' := exec (VoiceAssistant.speech_tts_fetched r) w in
  VoiceAssistant.voiceState (st w') <> VoiceAssistant.speaking
  \/ 1 <= synthesis_awaited w'.
Proof.
  destruct r as [[|resp]|b]; simpl; try (left; discriminate).
  unfold VoiceAssistant.speech_tts_fetched, VoiceAssistant.tts_fetched,
    fetch_result, VoiceAssistant.tts_body. simpl bind.
  destruct (negb (ok resp)); [simpl; left; discriminate|].
  destruct (blob resp); simpl; [|left; discriminate].
  right. eapply synthesis_awaited_parked; simpl; reflexivity.
Qed.

Lemma voice_speech_tts_played_idle r (w : World VoiceAssistant.State) :
  VoiceAssistant.voiceState
    (st (exec (VoiceAssistant.speech_tts_played r) w))
  = VoiceAssistant.idle.
Proof. destruct r as [[|resp]|[|]]; reflexivity. Qed.

Lemma voice_listener_state a (w w1 : World VoiceAssistant.State) :
  Forall (fun l => snd l
                   = set (VoiceAssistant.setVoiceState VoiceAssistant.idle))
         (listeners w) ->
  let w' := exec (lookup_listener a (listeners w)) w1 in
  pending w' = pending w1
  /\ (VoiceAssistant.voiceState (st w') = VoiceAssistant.idle
      \/ st w' = st w1).
Proof.
  induction 1 as [|[b h] l Hh _ IH]; simpl.
  - auto.
  - destruct (Nat.eqb a b); [|assumption].
    simpl in Hh. subst h. simpl. auto.
Qed.

Lemma speaking_step_voice env sp sup (w : World VoiceAssistant.State) e :
  voice_inv env sp w ->
  speaking_step w (VoiceAssistant.step env sp sup w e).
Proof.
  intros Hinv. unfold speaking_step.
  destruct e as [|t isFinal|code| | |i r|a]; simpl.
  - destruct (VoiceAssistant.voiceState (st w)) eqn:Hv.
    + left. unfold VoiceAssistant.startListening.
      destruct sup; simpl; [destruct (capturing w)|]; simpl; rewrite ?Hv;
        discriminate.
    + right. left. destruct sup; simpl; auto.
    + right. left. auto.
    + left. unfold VoiceAssistant.stopSpeaking. simpl.
      destruct (VoiceAssistant.audioRef (st w)); simpl; discriminate.
  - destruct (capturing w); [|right; left; auto].
    destruct isFinal; [|right; left; simpl; auto].
    left. unfold VoiceAssistant.onresult. simpl.
    destruct (truthy (trim t)) eqn:Ht.
    + rewrite exec_handleUserSpeech by assumption. simpl. discriminate.
    + unfold VoiceAssistant.handleUserSpeech. rewrite Ht. simpl.
      discriminate.
  - destruct (capturing w); [|right; left; auto].
    left. unfold VoiceAssistant.onerror. simpl.
    destruct (Js.eqb code (lit "no-speech")); [simpl; discriminate|].
    destruct (Js.eqb code (lit "not-allowed")); [simpl; discriminate|].
    destruct (Js.eqb code (lit "audio-capture")); simpl; discriminate.
  - destruct (capturing w); right; left; simpl; auto.
  - destruct (VoiceAssistant.history (st w)); right; left; simpl; auto.
  - unfold complete.
    destruct (nth_error (pending w) i) as [[op k]|] eqn:Hn;
      [|right; left; auto].
    destruct (answers op r); [|right; left; auto].
    destruct Hinv as (Hp & Hl & Hs).
    pose proof (Forall_nth_error _ Hp Hn) as Hk.
    set (w1 := with_playing (playing w ++ started op r)
                 (with_pending (remove_nth i (pending w)) w)).
    destruct Hk as [[txt Hk]|[[txt Hk]|[b Hk]]]; injection Hk as -> ->.
    + destruct (voice_speech_resume_speaking env sp
                  VoiceAssistant.first_render txt r w1); auto.
    + destruct (voice_speech_tts_fetched_speaking r w1); auto.
    + left. rewrite voice_speech_tts_played_idle. discriminate.
  - unfold audio_ended.
    destruct (existsb (Nat.eqb a) (playing w)); [|right; left; auto].
    destruct Hinv as (Hp & Hl & Hs).
    destruct (@voice_listener_state a w
                (with_playing (remove Nat.eq_dec a (playing w)) w) Hl)
      as (Hpend & [Hidle|Hst]).
    + left. rewrite Hidle. discriminate.
    + right. left. rewrite Hst, Hpend. auto.
Qed.

Lemma speaking_inv_step env sp sup (w : World VoiceAssistant.State) e :
  speaking_inv env sp w ->
  speaking_inv env sp (VoiceAssistant.step env sp sup w e).
Proof.
  intros [Hinv Hsp]. split.
  - apply voice_inv_step. exact Hinv.
  - destruct (speaking_step_voice sup e Hinv) as [H|[[Hv Hp]|H]].
    + intros Hs. contradiction.
    + intros Hs. unfold synthesis_awaited in *. rewrite Hp.
      apply Hsp. rewrite <- Hv. exact Hs.
    + intros _. exact H.
Qed.

Lemma speaking_inv_run env sp sup es :
  forall w,
    speaking_inv env sp w ->
    speaking_inv env sp (VoiceAssistant.run env sp sup w es).
Proof.
  induction es as [|e es IH]; intros w Hinv; simpl; auto.
  apply IH. apply speaking_inv_step. assumption.
Qed.

(** The voice state is [speaking] only while the synthesis of a reply is
    still awaited: in every world the mounted component reaches with the
    voice state [speaking], a handler waits for the synthesis request or
    for [play()] to settle. *)
Theorem voice_speaking_awaits_synthesis :
  forall env sp sup (es : list VoiceAssistant.Event),
    let w := VoiceAssistant.run env sp sup (VoiceAssistant.mount sup) es in
    VoiceAssistant.voiceState (st w) = VoiceAssistant.speaking ->
    Exists (fun t => is_chat_request (fst t) = false) (pending w).
Proof.
  intros env sp sup es w Hs.
  assert (Hinv : speaking_inv env sp w).
  { apply speaking_inv_run. split; [apply voice_inv_mount|].
    destruct sup; simpl; discriminate. }
  destruct Hinv as [_ H]. specialize (H Hs).
  unfold synthesis_awaited in H.
  apply Exists_exists.
  destruct (filter (fun t => negb (is_chat_request (fst t))) (pending w))
    as [|t l] eqn:Hf; [simpl in H; lia|].
  assert (Hin : In t (filter (fun t => negb (is_chat_request (fst t)))
                             (pending w)))
    by (rewrite Hf; left; reflexivity).
  apply filter_In in Hin. destruct Hin as [Hin Ht].
  exists t. split; [exact Hin|].
  destruct (is_chat_request (fst t)); [discriminate|reflexivity].
Qed.

Lemma voice_speaking_awaits_synthesis_witness :
  let w := VoiceAssistant.run None true true (VoiceAssistant.mount true)
             [VoiceAssistant.Tap;
              VoiceAssistant.SpeechResult (lit "hello") true;
              VoiceAssistant.Complete 0
                (ok_reply (mkResp (lit "Hi there.") (lit "abc123")))] in
  VoiceAssistant.voiceState (st w) = VoiceAssistant.speaking
  /\ Exists (fun t => is_chat_request (fst t) = false) (pending w).
Proof.
  intros w. split; [reflexivity|].
  apply (@voice_speaking_awaits_synthesis None true true
           [VoiceAssistant.Tap;
            VoiceAssistant.SpeechResult (lit "hello") true;
            VoiceAssistant.Complete 0
              (ok_reply (mkResp (lit "Hi there.") (lit "abc123")))]).
  reflexivity.
Defined.

(** *** While the reply is audible *)



(** *** A capture that ends in an error *)

(** When the recogniser reports an error during a capture the voice
    state becomes idle and nothing is sent; the history, the session
    identifier and the shown transcript stay.  A message is set for
    'no-speech', 'not-allowed' and 'audio-capture' only: for any other
    code ('network', 'aborted', ...) the error shown is the one of
    before. *)
Theorem voice_recognition_error :
  forall env sp sup (w : World VoiceAssistant.State) code,
    capturing w = true ->
    let w' := VoiceAssistant.step env sp sup w
                (VoiceAssistant.SpeechError code) in
    VoiceAssistant.voiceState (st w') = VoiceAssistant.idle
    /\ capturing w' = false
    /\ sent w' = sent w
    /\ pending w' = pending w
    /\ VoiceAssistant.history (st w') = VoiceAssistant.history (st w)
    /\ VoiceAssistant.sessionId (st w') = VoiceAssistant.sessionId (st w)
    /\ VoiceAssistant.transcript (st w') = VoiceAssistant.transcript (st w)
    /\ console w' = console w ++ [lit "Speech recognition error:"]
    /\ VoiceAssistant.error (st w')
       = if Js.eqb code (lit "no-speech")
         then Some (lit "No speech detected. Try again.")
         else if Js.eqb code (lit "not-allowed")
         then Some (lit "Microphone access denied. Click the lock icon "
                    ++ VoiceAssistant.lock_icon
                    ++ lit " in your address bar to allow microphone access.")
         else if Js.eqb code (lit "audio-capture")
         then Some (lit "No microphone found. Please connect a microphone and try again.")
         else VoiceAssistant.error (st w).
Proof.
  intros env sp sup w code Hc w'. unfold w'. simpl. rewrite Hc.
  unfold VoiceAssistant.onerror. simpl.
  destruct (Js.eqb code (lit "no-speech")); [simpl; tauto|].
  destruct (Js.eqb code (lit "not-allowed")); [simpl; tauto|].
  destruct (Js.eqb code (lit "audio-capture")); simpl; tauto.
Qed.

(** A capture that fails with 'network': the surface is idle again and
    shows no error. *)
Lemma voice_recognition_error_witness :
  let w := VoiceAssistant.run None true true (VoiceAssistant.mount true)
             [VoiceAssistant.Tap] in
  let w' := VoiceAssistant.step None true true w
              (VoiceAssistant.SpeechError (lit "network")) in
  capturing w = true
  /\ VoiceAssistant.voiceState (st w') = VoiceAssistant.idle
  /\ VoiceAssistant.error (st w') = None.
Proof.
  intros w.
  pose proof (@voice_recognition_error None true true w (lit "network")
                eq_refl) as H.
  split; [reflexivity|]. split; [apply H|].
  destruct H as (_ & _ & _ & _ & _ & _ & _ & _ & H). exact H.
Defined.

(* ================================================================== *)
(** ** The main button of the voice surface *)
(* ================================================================== *)

(** A tap while the voice state is [speaking] and the synthesis request
    is still unanswered calls [stopSpeaking], which sets the voice state
    to idle and pauses what [audioRef] refers to, not the request: when
    the audio arrives it is played all the same. *)
Theorem voice_stop_during_synthesis_plays_anyway :
  forall env sp sup (w : World VoiceAssistant.State) i txt resp,
    nth_error (pending w) i
    = Some (OpFetch (VoiceAssistant.speak_request env txt),
            VoiceAssistant.speech_tts_fetched) ->
    VoiceAssistant.voiceState (st w) = VoiceAssistant.speaking ->
    ok resp = true ->
    blob resp <> None ->
    let w1 := VoiceAssistant.step env sp sup w VoiceAssistant.Tap in
    let w2 := VoiceAssistant.step env sp sup w1
                (VoiceAssistant.Complete i (Fetched (FetchResponse resp))) in
    let w3 := VoiceAssistant.step env sp sup w2
                (VoiceAssistant.Complete (length (pending w2) - 1)
                                         (Played true)) in
    VoiceAssistant.voiceState (st w1) = VoiceAssistant.idle
    /\ pending w1 = pending w
    /\ VoiceAssistant.audioRef (st w2) = Some (next_audio w)
    /\ In (next_audio w) (playing w3).
Proof.
  intros env sp sup w i txt resp Hn Hv Hok Hb w1 w2 w3.
  assert (H1 : VoiceAssistant.voiceState (st w1) = VoiceAssistant.idle
               /\ pending w1 = pending w
               /\ next_audio w1 = next_audio w).
  { unfold w1. simpl. rewrite Hv. unfold VoiceAssistant.stopSpeaking.
    simpl. destruct (VoiceAssistant.audioRef (st w)); simpl; auto. }
  destruct H1 as (Hv1 & Hp1 & Ha1).
  assert (H2 : VoiceAssistant.audioRef (st w2) = Some (next_audio w)
               /\ pending w2
                  = remove_nth i (pending w)
                    ++ [(OpPlay (next_audio w),
                         VoiceAssistant.speech_tts_played)]).
  { unfold w2. cbn [VoiceAssistant.step]. unfold complete.
    rewrite Hp1, Hn. simpl answers. cbv iota.
    unfold VoiceAssistant.speech_tts_fetched, VoiceAssistant.tts_fetched,
      fetch_result, VoiceAssistant.tts_body. simpl bind.
    rewrite Hok. simpl negb. cbv iota.
    destruct (blob resp); [|congruence]. simpl. rewrite Ha1. auto. }
  destruct H2 as (Hr2 & Hp2).
  repeat split; try assumption.
  unfold w3. cbn [VoiceAssistant.step]. unfold complete.
  rewrite Hp2, length_app, Nat.add_sub, nth_error_last.
  simpl answers. cbv iota. simpl.
  apply in_or_app. right. left. reflexivity.
Qed.

Lemma voice_stop_during_synthesis_plays_anyway_witness :
  let w := VoiceAssistant.run None true true (VoiceAssistant.mount true)
             [VoiceAssistant.Tap;
              VoiceAssistant.SpeechResult (lit "hello") true;
              VoiceAssistant.Complete 0
                (ok_reply (mkResp (lit "Hi there.") (lit "abc123")))] in
  let audio := mkResponse 200 (lit "OK") None (Some 1%N) in
  let w1 := VoiceAssistant.step None true true w VoiceAssistant.Tap in
  let w2 := VoiceAssistant.step None true true w1
              (VoiceAssistant.Complete 0 (Fetched (FetchResponse audio))) in
  let w3 := VoiceAssistant.step None true true w2
              (VoiceAssistant.Complete (length (pending w2) - 1)
                                       (Played true)) in
  VoiceAssistant.voiceState (st w) = VoiceAssistant.speaking
  /\ VoiceAssistant.voiceState (st w1) = VoiceAssistant.idle
  /\ In 0 (playing w3).
Proof.
  intros w audio w1 w2 w3. split; [reflexivity|].
  assert (Hb : blob audio <> None) by (simpl; discriminate).
  destruct (@voice_stop_during_synthesis_plays_anyway None true true w 0
              (lit "Hi there.") audio eq_refl eq_refl eq_refl Hb)
    as (H1 & _ & _ & H3).
  split; [exact H1 | exact H3].
Defined.

(** A tap while the voice state is idle and the recogniser is still
    capturing (a capture begun while an earlier reply was being fetched
    for speech, which then failed) calls [recognition.start()] on a
    running recogniser: it throws, the failure is logged and the error
    "Failed to start microphone. Please try again." is shown, while the
    capture goes on and the voice state stays idle. *)
Theorem voice_start_while_capturing :
  forall env sp (w : World VoiceAssistant.State),
    VoiceAssistant.voiceState (st w) = VoiceAssistant.idle ->
    capturing w = true ->
    let w' := VoiceAssistant.step env sp true w VoiceAssistant.Tap in
    capturing w' = true
    /\ VoiceAssistant.voiceState (st w') = VoiceAssistant.idle
    /\ VoiceAssistant.error (st w')
       = Some (lit "Failed to start microphone. Please try again.")
    /\ console w' = console w ++ [lit "Failed to start recognition:"]
    /\ sent w' = sent w
    /\ pending w' = pending w.
Proof.
  intros env sp w Hv Hc w'. unfold w'. simpl. rewrite Hv.
  unfold VoiceAssistant.startListening. simpl. rewrite Hc. simpl.
  repeat split; assumption.
Qed.

Lemma voice_start_while_capturing_witness :
  let w := VoiceAssistant.run None true true (VoiceAssistant.mount true)
             [VoiceAssistant.Tap;
              VoiceAssistant.SpeechResult (lit "hello") true;
              VoiceAssistant.Complete 0
                (ok_reply (mkResp (lit "Hi there.") (lit "abc123")));
              VoiceAssistant.Tap;
              VoiceAssistant.Tap;
              VoiceAssistant.Complete 0 (Fetched FetchRejected)] in
  let w' := VoiceAssistant.step None true true w VoiceAssistant.Tap in
  VoiceAssistant.voiceState (st w) = VoiceAssistant.idle
  /\ capturing w = true
  /\ capturing w' = true
  /\ VoiceAssistant.error (st w')
     = Some (lit "Failed to start microphone. Please try again.").
Proof.
  intros w w'. split; [reflexivity|]. split; [reflexivity|].
  destruct (@voice_start_while_capturing None true w eq_refl eq_refl)
    as (H1 & _ & H3 & _).
  split; [exact H1 | exact H3].
Defined.

(* ================================================================== *)
(** ** What every setter call keeps *)
(* ================================================================== *)

(** A relation between states that every setter call of the voice
    surface respects holds between the states before and after every
    step. *)
Section VoiceRespects.

Context (rel : VoiceAssistant.State -> VoiceAssistant.State -> Prop).
Hypothesis rel_refl : forall s, rel s s.
Hypothesis rel_trans : forall a b c, rel a b -> rel b c -> rel a c.

Variable env : option jsstring.
Variables sp sup : bool.

Hypothesis buttons_respect :
  respects rel (VoiceAssistant.startListening sup)
  /\ respects rel (VoiceAssistant.stopListening sup)
  /\ respects rel VoiceAssistant.stopSpeaking
  /\ respects rel VoiceAssistant.clearConversation.

Hypothesis callbacks_respect :
  forall t isFinal code,
    respects rel (VoiceAssistant.onresult env sp t isFinal)
    /\ respects rel (VoiceAssistant.onerror code)
    /\ respects rel VoiceAssistant.onend.

Lemma voice_step_rel (w : World VoiceAssistant.State) e :
  parked_respect rel w ->
  parked_respect rel (VoiceAssistant.step env sp sup w e)
  /\ rel (st w) (st (VoiceAssistant.step env sp sup w e)).
Proof.
  intros Hw.
  destruct buttons_respect as (Hstart & Hstop & Hquiet & Hclear).
  assert (Hcap : parked_respect rel (with_capturing false w))
    by (destruct Hw; split; assumption).
  destruct e as [|t isFinal|code| | |i r|a]; simpl.
  - destruct (VoiceAssistant.voiceState (st w)).
    + apply (exec_respects rel_refl rel_trans _ Hstart Hw).
    + apply (exec_respects rel_refl rel_trans _ Hstop Hw).
    + auto.
    + apply (exec_respects rel_refl rel_trans _ Hquiet Hw).
  - destruct (capturing w); [|auto].
    destruct (callbacks_respect t isFinal []) as (Hres & _ & _).
    destruct isFinal.
    + apply (exec_respects rel_refl rel_trans _ Hres Hcap).
    + apply (exec_respects rel_refl rel_trans _ Hres Hw).
  - destruct (capturing w); [|auto].
    destruct (callbacks_respect [] false code) as (_ & Herr & _).
    apply (exec_respects rel_refl rel_trans _ Herr Hcap).
  - destruct (capturing w); [|auto].
    destruct (callbacks_respect [] false []) as (_ & _ & Hend).
    apply (exec_respects rel_refl rel_trans _ Hend Hcap).
  - destruct (VoiceAssistant.history (st w)); [auto|].
    apply (exec_respects rel_refl rel_trans _ Hclear Hw).
  - apply (complete_respects rel_refl rel_trans); exact Hw.
  - apply (audio_ended_respects rel_refl rel_trans); exact Hw.
Qed.

Lemma voice_run_rel es :
  forall w,
    parked_respect rel w ->
    parked_respect rel (VoiceAssistant.run env sp sup w es)
    /\ rel (st w) (st (VoiceAssistant.run env sp sup w es)).
Proof.
  induction es as [|e es IH]; intros w Hw; simpl; auto.
  destruct (voice_step_rel e Hw) as [H1 H2].
  destruct (IH _ H1) as [H3 H4].
  split; [exact H3|]. eapply rel_trans; eassumption.
Qed.

End VoiceRespects.

(** The same for the text surface of [App]. *)
Section AppRespects.

Context (rel : App.State -> App.State -> Prop).
Hypothesis rel_refl : forall s, rel s s.
Hypothesis rel_trans : forall a b c, rel a b -> rel b c -> rel a c.

Variable env : option jsstring.
Variable spk : jsstring -> Proc unit unit.

Hypothesis handleSend_respects :
  forall c t, respects rel (App.handleSend env spk c t).
Hypothesis setInput_respects : forall v s, rel s (App.setInput v s).
Hypothesis setIsSpeechEnabled_respects :
  forall v s, rel s (App.setIsSpeechEnabled v s).

Lemma app_step_rel (w : World App.State) e :
  parked_respect rel w ->
  parked_respect rel (App.step env spk w e)
  /\ rel (st w) (st (App.step env spk w e)).
Proof.
  intros Hw.
  destruct e as [s| | | |ms|i r|a]; simpl.
  - split; [apply parked_respect_with_st; exact Hw|].
    apply setInput_respects.
  - destruct (negb (truthy (trim (App.input (st w))))); [auto|].
    apply (exec_respects rel_refl rel_trans); [|exact Hw].
    apply handleSend_respects.
  - apply (exec_respects rel_refl rel_trans); [|exact Hw].
    apply handleSend_respects.
  - split; [apply parked_respect_with_st; exact Hw|].
    apply setIsSpeechEnabled_respects.
  - split; [destruct Hw; split; assumption|]. apply rel_refl.
  - apply (complete_respects rel_refl rel_trans); exact Hw.
  - apply (audio_ended_respects rel_refl rel_trans); exact Hw.
Qed.

Lemma app_run_rel es :
  forall w,
    parked_respect rel w ->
    parked_respect rel (App.run env spk w es)
    /\ rel (st w) (st (App.run env spk w es)).
Proof.
  induction es as [|e es IH]; intros w Hw; simpl; auto.
  destruct (app_step_rel e Hw) as [H1 H2].
  destruct (IH _ H1) as [H3 H4].
  split; [exact H3|]. eapply rel_trans; eassumption.
Qed.

End AppRespects.

(** Walks a handler as [walk] does, and closes each setter call with
    [leaf]. *)
Ltac walk_with leaf :=
  repeat first
    [ progress simpl
    | progress unfold fetch_result, play_result, Api.read_reply, when
    | match goal with
      | |- True => exact I
      | |- _ /\ _ => split
      | |- respects _ (lift _) => apply respects_lift
      | |- respects _ (finally _ _) => apply respects_finally
      | |- respects _ (try_catch _ _) => apply respects_try_catch
      | |- respects _ (bind _ _) => apply respects_bind
      | |- respects _ (match ?x with _ => _ end) => destruct x
      | |- respects _ (if ?x then _ else _) => destruct x
      | |- forall _, _ => first [ solve [leaf] | intro ]
      end ].

(** *** The history of the voice surface *)

Lemma keeps_one_exchange_refl s : keeps_one_exchange s s.
Proof. unfold keeps_one_exchange. auto. Qed.

Lemma keeps_one_exchange_trans a b c :
  keeps_one_exchange a b -> keeps_one_exchange b c ->
  keeps_one_exchange a c.
Proof. unfold keeps_one_exchange. auto. Qed.

Ltac one_exchange_leaf :=
  intros; unfold keeps_one_exchange, one_exchange; simpl; intros;
  first [ assumption | left; reflexivity | right; eauto ].

Lemma voice_first_render_speech_one_exchange env sp t :
  respects keeps_one_exchange
           (VoiceAssistant.handleUserSpeech env sp
              VoiceAssistant.first_render t).
Proof.
  unfold VoiceAssistant.handleUserSpeech, Api.chatWithAgent, fetch,
    VoiceAssistant.after_reply, VoiceAssistant.speech_catch,
    VoiceAssistant.playTTS, VoiceAssistant.tts_body,
    VoiceAssistant.tts_catch, play.
  walk_with one_exchange_leaf.
Qed.

Lemma voice_buttons_one_exchange sup :
  respects keeps_one_exchange (VoiceAssistant.startListening sup)
  /\ respects keeps_one_exchange (VoiceAssistant.stopListening sup)
  /\ respects keeps_one_exchange VoiceAssistant.stopSpeaking
  /\ respects keeps_one_exchange VoiceAssistant.clearConversation.
Proof.
  unfold VoiceAssistant.startListening, VoiceAssistant.stopListening,
    VoiceAssistant.stopSpeaking, VoiceAssistant.clearConversation,
    VoiceAssistant.rec_start.
  walk_with one_exchange_leaf.
Qed.

Lemma voice_callbacks_one_exchange env sp t isFinal code :
  respects keeps_one_exchange (VoiceAssistant.onresult env sp t isFinal)
  /\ respects keeps_one_exchange (VoiceAssistant.onerror code)
  /\ respects keeps_one_exchange VoiceAssistant.onend.
Proof.
  split; [|split].
  - unfold VoiceAssistant.onresult. destruct isFinal; simpl.
    + split; [one_exchange_leaf|]. split; [|exact I].
      apply voice_first_render_speech_one_exchange.
    + walk_with one_exchange_leaf.
  - unfold VoiceAssistant.onerror. walk_with one_exchange_leaf.
  - unfold VoiceAssistant.onend. walk_with one_exchange_leaf.
Qed.

(** The history the voice surface stores never holds more than one
    exchange: whatever is said and answered, it is empty or the user
    message and the reply of one turn.  Each reply sets it from the
    history of the first render, which is empty. *)
Theorem voice_history_one_exchange :
  forall env sp sup (es : list VoiceAssistant.Event),
    one_exchange
      (VoiceAssistant.history
         (st (VoiceAssistant.run env sp sup (VoiceAssistant.mount sup) es))).
Proof.
  intros env sp sup es.
  destruct (@voice_run_rel keeps_one_exchange keeps_one_exchange_refl
              keeps_one_exchange_trans env sp sup
              (voice_buttons_one_exchange sup)
              (voice_callbacks_one_exchange env sp) es
              (VoiceAssistant.mount sup)
              (parked_respect_init _ _)) as [_ H].
  apply H. left. destruct sup; reflexivity.
Qed.

(** *** The transcript of [App] *)

Lemma grows_refl s : grows s s.
Proof. exists []. rewrite app_nil_r. reflexivity. Qed.

Lemma grows_trans a b c : grows a b -> grows b c -> grows a c.
Proof.
  intros [l Hl] [m Hm]. exists (l ++ m).
  rewrite Hm, Hl, app_assoc. reflexivity.
Qed.

Ltac grows_leaf :=
  intros; unfold grows; simpl;
  first [ exists []; rewrite app_nil_r; reflexivity
        | eexists; reflexivity ].

Lemma app_handleSend_grows env spk c t :
  respects grows (App.handleSend env spk c t).
Proof.
  unfold App.handleSend, Api.chatWithAgent, fetch, App.after_reply,
    App.send_catch, App.stamp.
  walk_with grows_leaf.
Qed.

(** [App] only ever appends to its transcript: whatever is typed, sent
    and answered, and whatever the speech service does, the transcript at
    any moment begins with the transcript of every earlier moment.  No
    message is removed or changed, the error notes included. *)
Theorem app_transcript_append_only :
  forall env spk (es more : list App.Event),
    exists added,
      App.messages (st (App.run env spk App.mount (es ++ more)))
      = App.messages (st (App.run env spk App.mount es)) ++ added.
Proof.
  intros env spk es more. unfold App.run. rewrite fold_left_app.
  assert (Hw : parked_respect grows (App.run env spk App.mount es)).
  { apply (@app_run_rel grows grows_refl grows_trans env spk
             (app_handleSend_grows env spk)); [grows_leaf|grows_leaf|].
    apply parked_respect_init. }
  apply (@app_run_rel grows grows_refl grows_trans env spk
           (app_handleSend_grows env spk)); [grows_leaf|grows_leaf|].
  exact Hw.
Qed.

(* ================================================================== *)
(** ** More on the text chat *)
(* ================================================================== *)

(** A reply sets the transcript from the transcript of the render that
    sent: whatever the transcript is when the reply arrives, afterwards
    it is the one of before the send followed by the exchange.  The
    transcript and the session identifier a click on the clear button
    removed while the request was in flight are back. *)
Theorem chat_reply_overwrites_transcript :
  forall env sp (c : Chat.State) (w : World Chat.State) i req resp reply,
    nth_error (pending w) i
    = Some (OpFetch req, Chat.send_resume env sp c) ->
    ok resp = true ->
    json resp = Some reply ->
    let w' := Chat.step env sp w
                (Chat.Complete i (Fetched (FetchResponse resp))) in
    Chat.messages (st w')
    = Chat.messages c ++ [mkMsg user (trim (Chat.inputText c));
                          mkMsg assistant (text reply)]
    /\ Chat.isLoading (st w') = false
    /\ Chat.sessionId (st w')
       = if truthy (session_id reply) then Some (session_id reply)
         else Chat.sessionId (st w).
Proof.
  intros env sp c w i req resp reply Hn Hok Hj w'. unfold w'. simpl.
  unfold complete. rewrite Hn. simpl answers. cbv iota.
  rewrite (chat_send_resume_ok env sp c resp Hok Hj).
  unfold Chat.after_reply.
  destruct (truthy (session_id reply)); destruct sp; simpl;
    rewrite <- app_assoc; simpl; auto.
Qed.

(** The user sends "b" after one exchange and clears the chat before the
    reply arrives: the reply brings back the first exchange and the
    session. *)
Lemma chat_reply_overwrites_transcript_witness :
  let first := mkResp (lit "Rest well.") (lit "abc123") in
  let second := mkResp (lit "Sorry to hear.") (lit "abc123") in
  let w := Chat.run None false Chat.mount
             [Chat.TypeText (lit "a"); Chat.ClickSend;
              Chat.Complete 0 (ok_reply first);
              Chat.TypeText (lit "b"); Chat.ClickSend;
              Chat.ClickClear] in
  let w' := Chat.step None false w (Chat.Complete 0 (ok_reply second)) in
  Chat.messages (st w) = []
  /\ Chat.sessionId (st w) = None
  /\ Chat.messages (st w')
     = [mkMsg user (lit "a"); mkMsg assistant (lit "Rest well.");
        mkMsg user (lit "b"); mkMsg assistant (lit "Sorry to hear.")]
  /\ Chat.sessionId (st w') = Some (lit "abc123").
Proof.
  intros first second w.
  split; [reflexivity|]. split; [reflexivity|].
  destruct (@chat_reply_overwrites_transcript None false
              (Chat.mkState [mkMsg user (lit "a");
                             mkMsg assistant (lit "Rest well.")]
                            (lit "b") false (Some (lit "abc123")) None)
              w 0
              (Chat.send_request None
                 (Chat.mkState [mkMsg user (lit "a");
                                mkMsg assistant (lit "Rest well.")]
                               (lit "b") false (Some (lit "abc123")) None))
              (mkResponse 200 (lit "OK") (Some second) None) second
              eq_refl eq_refl eq_refl) as (Hm & _ & Hs).
  split; [exact Hm | exact Hs].
Defined.

(* ================================================================== *)
(** ** The speech service *)
(* ================================================================== *)

Lemma exec_speakText env t (w : World Elevenlabs.State) :
  exec (Elevenlabs.speakText env t) w =
  with_sent (sent w ++ [Elevenlabs.speak_request env t])
    (with_pending
       (pending w ++ [(OpFetch (Elevenlabs.speak_request env t),
                       Elevenlabs.speak_fetched)])
       (exec Elevenlabs.stopSpeaking w)).
Proof.
  unfold Elevenlabs.speakText, Elevenlabs.stopSpeaking. simpl.
  destruct (st w); reflexivity.
Qed.

Lemma remove_only (a : AudioId) : remove Nat.eq_dec a [a] = [].
Proof. simpl. destruct (Nat.eq_dec a a); [reflexivity|congruence]. Qed.

Lemma existsb_only (a b : AudioId) :
  existsb (Nat.eqb a) [b] = true -> a = b.
Proof.
  simpl. rewrite orb_false_r. apply Nat.eqb_eq.
Qed.

Lemma speech_stop_silences env (w : World Elevenlabs.State) :
  speech_inv env w ->
  playing (exec Elevenlabs.stopSpeaking w) = [].
Proof.
  intros (_ & [(_ & [Hp|(a & Hp & Hs)])|[(t & _ & Hp)|(a & _ & Hp & Hs)]]);
    unfold Elevenlabs.stopSpeaking; simpl.
  - destruct (st w); simpl; rewrite Hp; reflexivity.
  - rewrite Hs. simpl. rewrite Hp. apply remove_only.
  - destruct (st w); simpl; rewrite Hp; reflexivity.
  - rewrite Hs. simpl. rewrite Hp. reflexivity.
Qed.

Lemma speech_stop_frame (w : World Elevenlabs.State) :
  pending (exec Elevenlabs.stopSpeaking w) = pending w
  /\ listeners (exec Elevenlabs.stopSpeaking w) = listeners w.
Proof.
  unfold Elevenlabs.stopSpeaking. simpl. destruct (st w); simpl; auto.
Qed.

Lemma speech_listener_frame a (w w1 : World Elevenlabs.State) :
  Forall (fun l => snd l = set (fun _ : Elevenlabs.State => None))
         (listeners w) ->
  let w' := exec (lookup_listener a (listeners w)) w1 in
  pending w' = pending w1 /\ playing w' = playing w1
  /\ listeners w' = listeners w1.
Proof.
  induction 1 as [|[b h] l Hh _ IH]; simpl.
  - auto.
  - destruct (Nat.eqb a b); [|assumption].
    simpl in Hh. subst h. simpl. auto.
Qed.

Lemma speech_inv_mount env : speech_inv env Elevenlabs.mount.
Proof. split; simpl; auto. Qed.

Lemma speech_inv_speak env t (w : World Elevenlabs.State) :
  speech_inv env w -> pending w = [] ->
  speech_inv env (exec (Elevenlabs.speakText env t) w).
Proof.
  intros Hinv Hpend. rewrite exec_speakText.
  pose proof (speech_stop_silences Hinv) as Hplay.
  destruct (speech_stop_frame w) as [Hp Hl].
  destruct Hinv as [Hlis _].
  unfold speech_inv.
  cbn [listeners pending playing st with_sent with_pending].
  rewrite Hl, Hpend, Hplay. split; [exact Hlis|].
  right. left. exists t. auto.
Qed.

Lemma speech_inv_complete env (w : World Elevenlabs.State) i r :
  speech_inv env w -> speech_inv env (complete i r w).
Proof.
  intros Hinv. pose proof Hinv as [Hlis Hphase]. unfold complete.
  destruct Hphase as [(Hp & _)|[(t & Hp & Hplay)|(a & Hp & Hplay & Hs)]];
    rewrite Hp.
  - destruct i; exact Hinv.
  - destruct i as [|i]; [|destruct i; exact Hinv]. simpl nth_error.
    cbv iota.
    destruct r as [[|resp]|b]; simpl answers; cbv iota; try exact Hinv.
    + split; simpl; [exact Hlis|]. left. rewrite Hplay. auto.
    + unfold Elevenlabs.speak_fetched, fetch_result,
        Elevenlabs.speak_body. simpl bind.
      destruct (negb (ok resp)).
      * split; simpl; [exact Hlis|]. left. rewrite Hplay. auto.
      * destruct (blob resp).
        -- split; simpl; [constructor; [reflexivity|exact Hlis]|].
           right. right. exists (next_audio w). rewrite Hplay. auto.
        -- split; simpl; [exact Hlis|]. left. rewrite Hplay. auto.
  - destruct i as [|i]; [|destruct i; exact Hinv]. simpl nth_error.
    cbv iota.
    destruct r as [f|[|]]; simpl answers; cbv iota; try exact Hinv.
    + split; simpl; [exact Hlis|]. left. rewrite Hplay. simpl.
      split; [reflexivity|]. right. exists a. auto.
    + split; simpl; [exact Hlis|]. left. rewrite Hplay. auto.
Qed.

Lemma speech_inv_step env (w : World Elevenlabs.State) e :
  speech_inv env w ->
  match e with Elevenlabs.Speak _ => pending w = [] | _ => True end ->
  speech_inv env (Elevenlabs.step env w e).
Proof.
  intros Hinv He. destruct e as [t|i r|a|a]; simpl.
  - apply speech_inv_speak; assumption.
  - apply speech_inv_complete. exact Hinv.
  - unfold audio_ended.
    destruct (existsb (Nat.eqb a) (playing w)) eqn:Hex; [|exact Hinv].
    destruct Hinv as [Hlis Hphase].
    destruct (@speech_listener_frame a w
                (with_playing (remove Nat.eq_dec a (playing w)) w) Hlis)
      as (Hp & Hpl & Hl).
    simpl in Hp, Hpl, Hl.
    split; [rewrite Hl; exact Hlis|]. rewrite Hp, Hpl.
    destruct Hphase
      as [(Hpend & [Hplay|(b & Hplay & Hs)])|
          [(t & _ & Hplay)|(b & _ & Hplay & _)]];
      try (rewrite Hplay in Hex; discriminate).
    left. split; [exact Hpend|]. left.
    rewrite Hplay in Hex |- *. apply existsb_only in Hex. subst b.
    apply remove_only.
  - destruct (existsb (Nat.eqb a) (playing w)) eqn:Hex; [|exact Hinv].
    destruct Hinv as [Hlis Hphase].
    split; simpl; [exact Hlis|].
    destruct Hphase
      as [(Hpend & [Hplay|(b & Hplay & Hs)])|
          [(t & _ & Hplay)|(b & _ & Hplay & _)]];
      try (rewrite Hplay in Hex; discriminate).
    left. split; [exact Hpend|]. left.
    rewrite Hplay in Hex |- *. apply existsb_only in Hex. subst b.
    apply remove_only.
Qed.

Lemma speech_inv_run env es :
  forall w,
    speech_inv env w ->
    Elevenlabs.one_at_a_time env w es = true ->
    speech_inv env (Elevenlabs.run env w es).
Proof.
  induction es as [|e es IH]; intros w Hinv Hseq; simpl; auto.
  simpl in Hseq. apply IH.
  - apply speech_inv_step; [exact Hinv|].
    destruct e; auto. destruct (pending w); [reflexivity|discriminate].
  - destruct e; auto. destruct (pending w); [exact Hseq|discriminate].
Qed.

(** While the calls of [speakText] do not overlap, at most one element
    plays, and it is the one [currentAudio] refers to; so [stopSpeaking]
    leaves nothing playing, and neither does a new call of [speakText],
    which begins with it. *)
Theorem speech_one_audio_at_a_time :
  forall env (es : list Elevenlabs.Event),
    Elevenlabs.one_at_a_time env Elevenlabs.mount es = true ->
    let w := Elevenlabs.run env Elevenlabs.mount es in
    (playing w = [] \/ exists a, playing w = [a] /\ st w = Some a)
    /\ playing (exec Elevenlabs.stopSpeaking w) = []
    /\ forall t, playing (Elevenlabs.step env w (Elevenlabs.Speak t)) = [].
Proof.
  intros env es Hseq w.
  assert (Hinv : speech_inv env w)
    by (apply speech_inv_run; [apply speech_inv_mount | exact Hseq]).
  split; [|split].
  - destruct Hinv
      as (_ & [(_ & H)|[(t & _ & Hp)|(a & _ & Hp & _)]]); auto.
  - apply (speech_stop_silences Hinv).
  - intros t. cbn [Elevenlabs.step]. rewrite exec_speakText.
    cbn [playing with_sent with_pending].
    apply (speech_stop_silences Hinv).
Qed.

(** A reply is spoken; while it plays the next one is asked for, and the
    first falls silent. *)
Lemma speech_one_audio_at_a_time_witness :
  let audio := Fetched (FetchResponse
                          (mkResponse 200 (lit "OK") None (Some 1%N))) in
  let es := [Elevenlabs.Speak (lit "Rest well.");
             Elevenlabs.Complete 0 audio;
             Elevenlabs.Complete 0 (Played true)] in
  let w := Elevenlabs.run None Elevenlabs.mount es in
  playing w = [0]
  /\ playing (Elevenlabs.step None w (Elevenlabs.Speak (lit "Take care.")))
     = [].
Proof.
  intros audio es w. split; [reflexivity|].
  apply (@speech_one_audio_at_a_time None es eq_refl).
Defined.

(** [stopSpeaking] pauses the element [currentAudio] refers to and no
    other: an element that plays without being the current one keeps
    playing through [stopSpeaking] and through a new call of
    [speakText]. *)
Theorem speech_stop_misses_other_audio :
  forall env (w : World Elevenlabs.State) a,
    In a (playing w) ->
    st w <> Some a ->
    In a (playing (exec Elevenlabs.stopSpeaking w))
    /\ forall t, In a (playing (Elevenlabs.step env w (Elevenlabs.Speak t))).
Proof.
  intros env w a Hin Hcur.
  assert (H : In a (playing (exec Elevenlabs.stopSpeaking w))).
  { unfold Elevenlabs.stopSpeaking. simpl.
    destruct (st w) as [b|] eqn:Hs; simpl; [|exact Hin].
    apply in_in_remove; [congruence | exact Hin]. }
  split; [exact H|].
  intros t. cbn [Elevenlabs.step]. rewrite exec_speakText.
  cbn [playing with_sent with_pending]. exact H.
Qed.

(** Two calls that overlap, as two replies of [App] that arrive one
    after the other make them: both elements play, [currentAudio]
    refers to the second, and [stopSpeaking] leaves the first playing. *)
Lemma speech_stop_misses_other_audio_witness :
  let audio := Fetched (FetchResponse
                          (mkResponse 200 (lit "OK") None (Some 1%N))) in
  let w := Elevenlabs.run None Elevenlabs.mount
             [Elevenlabs.Speak (lit "Rest well.");
              Elevenlabs.Speak (lit "Take care.");
              Elevenlabs.Complete 0 audio;
              Elevenlabs.Complete 0 audio;
              Elevenlabs.Complete 0 (Played true);
              Elevenlabs.Complete 0 (Played true)] in
  playing w = [0; 1]
  /\ st w = Some 1
  /\ In 0 (playing (exec Elevenlabs.stopSpeaking w)).
Proof.
  intros audio w.
  assert (Hin : In 0 (playing w)) by (vm_compute; left; reflexivity).
  assert (Hcur : st w <> Some 0) by (vm_compute; discriminate).
  split; [reflexivity|]. split; [reflexivity|].
  exact (proj1 (@speech_stop_misses_other_audio None w 0 Hin Hcur)).
Defined.

(** When the synthesis request fails (the fetch is rejected or the
    status is outside 200-299) [speakText] logs "TTS error:" and throws
    the error again, to its caller; nothing plays that did not, and
    [currentAudio] is as the call left it. *)
Theorem speech_failure_thrown_again :
  forall env (w : World Elevenlabs.State) i t f,
    nth_error (pending w) i
    = Some (OpFetch (Elevenlabs.speak_request env t),
            Elevenlabs.speak_fetched) ->
    failed f = true ->
    let w' := Elevenlabs.step env w (Elevenlabs.Complete i (Fetched f)) in
    console w' = console w ++ [lit "TTS error:"]
    /\ uncaught w'
       = uncaught w
         ++ [match f with
             | FetchRejected => lit "TypeError: Failed to fetch"
             | FetchResponse resp => lit "TTS failed: " ++ statusText resp
             end]
    /\ pending w' = remove_nth i (pending w)
    /\ playing w' = playing w
    /\ sent w' = sent w
    /\ st w' = st w.
Proof.
  intros env w i t f Hn Hf w'. unfold w'. cbn [Elevenlabs.step].
  unfold complete. rewrite Hn. simpl answers. cbv iota.
  destruct f as [|resp].
  - simpl. rewrite app_nil_r. repeat split.
  - unfold Elevenlabs.speak_fetched, fetch_result. simpl bind.
    unfold Elevenlabs.speak_body. simpl in Hf. rewrite Hf. simpl.
    rewrite app_nil_r. repeat split.
Qed.

Lemma speech_failure_thrown_again_witness :
  let w := Elevenlabs.run None Elevenlabs.mount
             [Elevenlabs.Speak (lit "Rest well.")] in
  let f := FetchResponse
             (mkResponse 503 (lit "Service Unavailable") None None) in
  let w' := Elevenlabs.step None w (Elevenlabs.Complete 0 (Fetched f)) in
  console w' = [lit "TTS error:"]
  /\ uncaught w' = [lit "TTS failed: Service Unavailable"].
Proof.
  intros w f w'.
  destruct (@speech_failure_thrown_again None w 0 (lit "Rest well.") f
              eq_refl eq_refl) as (Hc & Hu & _).
  split; [exact Hc | exact Hu].
Defined.



(* ================================================================== *)
(** ** [App] and the speech service *)
(* ================================================================== *)

Lemma app_reply_parks_speech env cur (c : App.State) reply
      (w : World App.State) :
  App.isSpeechEnabled c && negb (App.isVoiceActive c) = true ->
  let spk := fun t =>
    Elevenlabs.call_with cur (Elevenlabs.speakText env t) in
  let w' := exec (finally (try_catch (App.after_reply spk c reply)
                                     App.send_catch)
                          (set (App.setIsThinking false))) w in
  pending w'
  = pending w ++ [(OpFetch (Elevenlabs.speak_request env (text reply)),
                   app_speech_resume)]
  /\ sent w' = sent w ++ [Elevenlabs.speak_request env (text reply)]
  /\ App.isThinking (st w') = App.isThinking (st w)
  /\ map App.content (App.messages (st w'))
     = map App.content (App.messages (st w)) ++ [text reply]
  /\ console w' = console w
  /\ uncaught w' = uncaught w.
Proof.
  intros Hsp spk w'. unfold w', spk, App.after_reply. rewrite Hsp.
  destruct (truthy (session_id reply)); destruct cur as [a|]; simpl;
    rewrite map_app; repeat split.
Qed.

Lemma app_speech_resume_failed f (w : World App.State) :
  failed f = true ->
  let w' := exec (app_speech_resume (Fetched f)) w in
  pending w' = pending w
  /\ sent w' = sent w
  /\ App.isThinking (st w') = false
  /\ map App.content (App.messages (st w'))
     = map App.content (App.messages (st w))
       ++ [lit "Connection error with Agent."]
  /\ console w' = console w ++ [lit "TTS error:"; lit "Chat error:"]
  /\ uncaught w' = uncaught w.
Proof.
  intros Hf w'. unfold w', app_speech_resume.
  destruct f as [|resp].
  - simpl. rewrite map_app, <- app_assoc. repeat split.
  - unfold Elevenlabs.speak_fetched, fetch_result. simpl bind.
    unfold Elevenlabs.speak_body. simpl in Hf. rewrite Hf. simpl.
    rewrite map_app, <- app_assoc. repeat split.
Qed.

(** [handleSend] awaits [speakText] inside its [try]: when the reply of
    the agent arrived and its synthesis request fails, [speakText] throws
    and the [catch] block of [handleSend] takes it for a failed send.
    The transcript then holds the reply followed by the note "Connection
    error with Agent.", both lines "TTS error:" and "Chat error:" are
    logged, and [isThinking], still set while the synthesis request is
    awaited, is cleared. *)
Theorem app_speech_failure_shown_as_connection_error :
  forall env currentAudio (c : App.State) (w : World App.State)
         i req resp reply f,
    let spk := fun t =>
      Elevenlabs.call_with currentAudio (Elevenlabs.speakText env t) in
    nth_error (pending w) i = Some (OpFetch req, App.send_resume spk c) ->
    ok resp = true ->
    json resp = Some reply ->
    App.isSpeechEnabled c && negb (App.isVoiceActive c) = true ->
    failed f = true ->
    let w1 := App.step env spk w
                (App.Complete i (Fetched (FetchResponse resp))) in
    let w2 := App.step env spk w1
                (App.Complete (length (pending w1) - 1) (Fetched f)) in
    sent w1 = sent w ++ [Elevenlabs.speak_request env (text reply)]
    /\ App.isThinking (st w1) = App.isThinking (st w)
    /\ map App.content (App.messages (st w2))
       = map App.content (App.messages (st w))
         ++ [text reply; lit "Connection error with Agent."]
    /\ App.isThinking (st w2) = false
    /\ console w2 = console w ++ [lit "TTS error:"; lit "Chat error:"]
    /\ uncaught w2 = uncaught w
    /\ sent w2 = sent w1.
Proof.
  intros env cur c w i req resp reply f spk Hn Hok Hj Hsp Hf w1 w2.
  set (w0 := with_playing (playing w)
               (with_pending (remove_nth i (pending w)) w)).
  assert (E1 : w1 = exec (finally (try_catch (App.after_reply spk c reply)
                                             App.send_catch)
                                  (set (App.setIsThinking false))) w0).
  { unfold w1. cbn [App.step]. unfold complete. rewrite Hn.
    simpl answers. cbv iota. simpl started. rewrite app_nil_r.
    rewrite (app_send_resume_ok spk c resp Hok Hj). reflexivity. }
  destruct (@app_reply_parks_speech env cur c reply w0 Hsp)
    as (Hp1 & Hs1 & Ht1 & Hm1 & Hc1 & Hu1).
  fold spk in Hp1, Hs1, Ht1, Hm1, Hc1, Hu1. rewrite <- E1 in *.
  clearbody w1. unfold w2. cbn [App.step]. unfold complete.
  rewrite Hp1, length_app, Nat.add_sub, nth_error_last.
  simpl answers. cbv iota. rewrite remove_nth_last. simpl started.
  rewrite app_nil_r.
  set (w1' := with_playing _ _).
  destruct (@app_speech_resume_failed f w1' Hf)
    as (Hp2 & Hs2 & Ht2 & Hm2 & Hc2 & Hu2).
  rewrite Hs1, Ht1, Hm2, Ht2, Hc2, Hu2, Hs2.
  unfold w1'. simpl. rewrite Hm1, Hc1, Hu1, Hs1. unfold w0. simpl.
  rewrite <- app_assoc. repeat split.
Qed.

(** The user sends "hi", the agent answers, and the speech backend cannot
    be reached. *)
Lemma app_speech_failure_shown_as_connection_error_witness :
  let spk := fun t =>
    Elevenlabs.call_with None (Elevenlabs.speakText None t) in
  let reply := mkResp (lit "Rest well.") (lit "abc123") in
  let w := App.run None spk App.mount
             [App.TypeText (lit "hi"); App.ClickSend] in
  let w1 := App.step None spk w (App.Complete 0 (ok_reply reply)) in
  let w2 := App.step None spk w1 (App.Complete 0 (Fetched FetchRejected)) in
  map App.content (App.messages (st w2))
  = [lit "hi"; lit "Rest well."; lit "Connection error with Agent."]
  /\ console w2 = [lit "TTS error:"; lit "Chat error:"].
Proof.
  intros spk reply w w1 w2.
  destruct (@app_speech_failure_shown_as_connection_error
              None None (App.setInput (lit "hi") App.initial) w 0
              (App.send_request None (App.setInput (lit "hi") App.initial)
                                (lit "hi"))
              (mkResponse 200 (lit "OK") (Some reply) None) reply
              FetchRejected eq_refl eq_refl eq_refl eq_refl eq_refl)
    as (_ & _ & Hm & _ & Hc & _).
  split; [exact Hm | exact Hc].
Defined.

(* ================================================================== *)
(** ** The tracker form *)
(* ================================================================== *)

Lemma js_eqb_eq (a b : jsstring) : Js.eqb a b = true <-> a = b.
Proof.
  unfold Js.eqb. destruct (list_eq_dec N.eq_dec a b); split; intros H;
    congruence.
Qed.

Lemma includes_In x l : includes x l = true <-> In x l.
Proof.
  unfold includes. rewrite existsb_exists. split.
  - intros (y & Hy & He). apply js_eqb_eq in He. subst. exact Hy.
  - intros H. exists x. split; [exact H|]. apply js_eqb_eq. reflexivity.
Qed.

Lemma includes_false x l : includes x l = false <-> ~ In x l.
Proof.
  rewrite <- includes_In. destruct (includes x l); split; intros H;
    congruence.
Qed.

Lemma In_without x y l : In y (without x l) <-> In y l /\ y <> x.
Proof.
  unfold without. rewrite filter_In. split.
  - intros [H1 H2]. split; [exact H1|]. intros ->.
    rewrite (proj2 (js_eqb_eq x x) eq_refl) in H2. discriminate.
  - intros [H1 H2]. split; [exact H1|].
    destruct (Js.eqb y x) eqn:He; [|reflexivity].
    apply js_eqb_eq in He. contradiction.
Qed.

Lemma without_absent x l : ~ In x l -> without x l = l.
Proof.
  induction l as [|y l IH]; intros H; simpl; [reflexivity|].
  destruct (Js.eqb y x) eqn:He.
  - apply js_eqb_eq in He. subst. exfalso. apply H. left. reflexivity.
  - simpl. f_equal. apply IH. intros Hin. apply H. right. exact Hin.
Qed.

Lemma well_formed_nil : well_formed [].
Proof. split; constructor. Qed.

Lemma well_formed_add x l :
  well_formed l -> ~ In x l -> truthy x = true -> well_formed (l ++ [x]).
Proof.
  intros [Hn Hf] Hx Ht. split.
  - apply NoDup_app; [exact Hn | repeat constructor; auto |].
    intros y Hy [<-|[]]. exact (Hx Hy).
  - apply Forall_app. split; [exact Hf|]. constructor; auto.
Qed.

Lemma well_formed_without x l : well_formed l -> well_formed (without x l).
Proof.
  intros [Hn Hf]. split.
  - unfold without. apply NoDup_filter. exact Hn.
  - apply Forall_forall. intros y Hy. apply In_without in Hy.
    rewrite Forall_forall in Hf. apply Hf. apply Hy.
Qed.

Lemma well_formed_toggle x l :
  well_formed l -> truthy x = true -> well_formed (Tracker.toggle x l).
Proof.
  intros Hl Hx. unfold Tracker.toggle.
  destruct (includes x l) eqn:Hi.
  - apply well_formed_without. exact Hl.
  - apply well_formed_add; auto. apply includes_false. exact Hi.
Qed.

Lemma common_symptoms_truthy i name :
  nth_error Tracker.COMMON_SYMPTOMS i = Some name -> truthy name = true.
Proof.
  intros H. apply nth_error_In in H. simpl in H.
  repeat (destruct H as [<-|H]; [reflexivity|]). destruct H.
Qed.

Lemma common_medications_truthy i med :
  nth_error Tracker.COMMON_MEDICATIONS i = Some med -> truthy med = true.
Proof.
  intros H. apply nth_error_In in H. simpl in H.
  repeat (destruct H as [<-|H]; [reflexivity|]). destruct H.
Qed.

Lemma tracker_inv_step (w : Tracker.World) e :
  tracker_inv w -> tracker_inv (Tracker.step w e).
Proof.
  intros (Hs & Hm & Hd). unfold tracker_inv.
  destruct e; simpl; auto.
  - destruct (nth_error Tracker.COMMON_SYMPTOMS i) as [name|] eqn:Hn;
      simpl; auto.
    split; [|auto]. apply well_formed_toggle; [exact Hs|].
    apply (common_symptoms_truthy _ Hn).
  - unfold Tracker.addCustomSymptom.
    destruct (truthy (trim (Tracker.customSymptom (Tracker.st w)))) eqn:Ht;
      simpl; auto.
    destruct (includes (trim (Tracker.customSymptom (Tracker.st w)))
                       (Tracker.selectedSymptoms (Tracker.st w))) eqn:Hi;
      simpl; auto.
    split; [|auto]. apply well_formed_add; auto.
    apply includes_false. exact Hi.
  - destruct (nth_error Tracker.COMMON_MEDICATIONS i) as [med|] eqn:Hn;
      simpl; auto.
    split; [exact Hs|]. split; [|exact Hd].
    apply well_formed_toggle; [exact Hm|].
    apply (common_medications_truthy _ Hn).
  - unfold Tracker.addCustomMed.
    destruct (truthy (trim (Tracker.customMed (Tracker.st w)))) eqn:Ht;
      simpl; auto.
    destruct (includes (trim (Tracker.customMed (Tracker.st w)))
                       (Tracker.selectedMeds (Tracker.st w))) eqn:Hi;
      simpl; auto.
    split; [exact Hs|]. split; [|exact Hd]. apply well_formed_add; auto.
    apply includes_false. exact Hi.
  - destruct (nth_error Tracker.PERIOD_STATUSES i); simpl; auto.
  - split; [apply well_formed_nil|]. split; [apply well_formed_nil|].
    apply Forall_app. split; [exact Hd|]. constructor; auto.
  - destruct (Tracker.timeouts w); simpl; auto.
Qed.

(** Whatever the user does with the form, no symptom and no medication
    is selected twice and none is the empty string; the same holds of
    every list the form hands to [onLogSymptom].  (The selected entries
    are rendered with themselves as keys.) *)
Theorem tracker_selection_well_formed :
  forall (es : list Tracker.Event),
    let w := Tracker.run Tracker.mount es in
    (NoDup (Tracker.selectedSymptoms (Tracker.st w))
     /\ Forall (fun s => truthy s = true)
               (Tracker.selectedSymptoms (Tracker.st w)))
    /\ (NoDup (Tracker.selectedMeds (Tracker.st w))
        /\ Forall (fun s => truthy s = true)
                  (Tracker.selectedMeds (Tracker.st w)))
    /\ Forall (fun d =>
                 (NoDup (SymptomData.symptoms d)
                  /\ Forall (fun s => truthy s = true)
                            (SymptomData.symptoms d))
                 /\ (NoDup (SymptomData.medications_taken d)
                     /\ Forall (fun s => truthy s = true)
                               (SymptomData.medications_taken d)))
              (Tracker.submitted w).
Proof.
  intros es w. change (tracker_inv w). unfold w.
  assert (H : forall w0, tracker_inv w0 ->
                         tracker_inv (Tracker.run w0 es)).
  { induction es as [|e es IH]; intros w0 H0; simpl; auto.
    apply IH. apply tracker_inv_step. exact H0. }
  apply H. split; [apply well_formed_nil|].
  split; [apply well_formed_nil|constructor].
Qed.

(** A second click on the button of a symptom that was not selected
    restores the selection; on one that was selected it moves the
    symptom to the end of the selection. *)
Theorem tracker_toggle_twice :
  forall symptom (s : Tracker.State),
    Tracker.selectedSymptoms
      (Tracker.toggleSymptom symptom (Tracker.toggleSymptom symptom s))
    = if includes symptom (Tracker.selectedSymptoms s)
      then without symptom (Tracker.selectedSymptoms s) ++ [symptom]
      else Tracker.selectedSymptoms s.
Proof.
  intros x s. simpl. unfold Tracker.toggle.
  destruct (includes x (Tracker.selectedSymptoms s)) eqn:Hi.
  - assert (Hn : includes x (without x (Tracker.selectedSymptoms s)) = false).
    { apply includes_false. intros H. apply In_without in H.
      destruct H as [_ H]. congruence. }
    rewrite Hn. reflexivity.
  - assert (Hy : includes x (Tracker.selectedSymptoms s ++ [x]) = true).
    { apply includes_In. apply in_or_app. right. left. reflexivity. }
    rewrite Hy. unfold without. rewrite filter_app. simpl.
    rewrite (proj2 (js_eqb_eq x x) eq_refl). simpl. rewrite app_nil_r.
    apply without_absent. apply includes_false. exact Hi.
Qed.

(* ================================================================== *)
(** ** Logging the form *)
(* ================================================================== *)

Lemma join_truthy sep l :
  l <> [] -> Forall (fun s => truthy s = true) l ->
  truthy (join sep l) = true.
Proof.
  destruct l as [|x l]; [congruence|]. intros _ H.
  inversion H as [|? ? Hx _]; subst.
  destruct x as [|c x]; [discriminate|].
  destruct l; reflexivity.
Qed.

Lemma or_else_truthy a b : truthy b = true -> truthy (Logging.or_else a b) = true.
Proof. unfold Logging.or_else. destruct (truthy a) eqn:Ha; auto. Qed.

Lemma newLog_type data entry_id now :
  well_formed (SymptomData.symptoms data) ->
  truthy (SymptomLog.type (Logging.newLog data entry_id now)) = true
  /\ type_from_selection (Logging.newLog data entry_id now).
Proof.
  intros Hwf. split.
  - simpl. apply or_else_truthy. reflexivity.
  - unfold type_from_selection. simpl.
    destruct (SymptomData.symptoms data) as [|x l] eqn:Hs.
    + left. reflexivity.
    + right. exists (x :: l). split; [discriminate|]. split; [exact Hwf|].
      unfold Logging.or_else.
      rewrite (@join_truthy (lit ", ") (x :: l)); [reflexivity|discriminate|].
      apply Hwf.
Qed.

Lemma Forall2_snoc {A B} (R : A -> B -> Prop) l m x y :
  Forall2 R l m -> R x y -> Forall2 R (l ++ [x]) (m ++ [y]).
Proof.
  intros H Hxy. apply Forall2_app; [exact H|]. constructor; auto.
Qed.

Lemma logging_inv_resume data r (w : Logging.World) :
  well_formed (SymptomData.symptoms data) ->
  tracker_inv (Logging.form w) ->
  Forall (fun d => well_formed (SymptomData.symptoms d))
         (Logging.in_flight w) ->
  Forall2 paired (Logging.logs (Logging.userData (Logging.st w)))
          (Logging.metrics (Logging.userData (Logging.st w))) ->
  Forall (fun l => truthy (SymptomLog.type l) = true
                   /\ type_from_selection l)
         (Logging.logs (Logging.userData (Logging.st w))) ->
  Logging.meds (Logging.userData (Logging.st w))
  = Logging.meds (Logging.userData Logging.initial) ->
  logging_inv (Logging.log_resume data r w).
Proof.
  intros Hd Hform Hfl Hpair Htype Hmeds. unfold logging_inv.
  destruct r as [| |[|] entry_id]; simpl;
    (split; [exact Hform|]); (split; [exact Hfl|]);
    try (split; [exact Hpair|]; split; [exact Htype|];
         split; [exact Hmeds | discriminate]).
  split; [apply Forall2_snoc; [exact Hpair | reflexivity]|].
  split; [|split; [exact Hmeds | discriminate]].
  apply Forall_app. split; [exact Htype|]. constructor; [|constructor].
  apply newLog_type. exact Hd.
Qed.

Lemma logging_inv_step (w : Logging.World) e :
  logging_inv w -> logging_inv (Logging.step w e).
Proof.
  intros (Hform & Hfl & Hpair & Htype & Hmeds & Hsync).
  destruct e as [e| |i r|ms].
  - assert (Hform' : tracker_inv (Tracker.step (Logging.form w) e))
      by (apply tracker_inv_step; exact Hform).
    destruct e;
      try (unfold logging_inv; cbn [Logging.step];
           split; [exact Hform'|]; simpl; auto 10; fail).
    unfold logging_inv. cbn [Logging.step].
    split; [exact Hform'|]. simpl.
    split; [|split; [exact Hpair|]; split; [exact Htype|];
             split; [exact Hmeds|]].
    + apply Forall_app. split; [exact Hfl|]. constructor; [|constructor].
      apply Hform.
    + intros _ H. apply app_eq_nil in H. destruct H as [_ H]. discriminate.
  - unfold logging_inv. simpl.
    split; [|auto 10]. split; [apply well_formed_nil|].
    split; [apply well_formed_nil|constructor].
  - simpl. destruct (nth_error (Logging.in_flight w) i) as [data|] eqn:Hn.
    + apply logging_inv_resume; simpl; auto.
      * apply (Forall_nth_error _ Hfl Hn).
      * apply Forall_remove_nth. exact Hfl.
    + unfold logging_inv. auto 10.
  - unfold logging_inv. simpl. auto 10.
Qed.

Lemma logging_inv_run es :
  forall w, logging_inv w -> logging_inv (Logging.run w es).
Proof.
  induction es as [|e es IH]; intros w H; simpl; auto.
  apply IH. apply logging_inv_step. exact H.
Qed.

Lemma logging_inv_mount : logging_inv Logging.mount.
Proof.
  unfold logging_inv. simpl.
  split; [|split; [constructor|]; split; [constructor|];
           split; [constructor|]; split; [reflexivity|discriminate]].
  split; [apply well_formed_nil|].
  split; [apply well_formed_nil|constructor].
Qed.


(** The type of every stored log entry is the symptoms selected in the
    form, joined by ", ", and "General check-in" when none was selected;
    it is never empty.  (The form never hands over an empty symptom, so
    the joined text is empty only for an empty selection.) *)
Theorem logging_type_from_selection :
  forall (es : list Logging.Event),
    let w := Logging.run Logging.mount es in
    Forall (fun l =>
              truthy (SymptomLog.type l) = true
              /\ (SymptomLog.type l = lit "General check-in"
                  \/ exists symptoms,
                       symptoms <> []
                       /\ (NoDup symptoms
                           /\ Forall (fun s => truthy s = true) symptoms)
                       /\ SymptomLog.type l = join (lit ", ") symptoms))
           (Logging.logs (Logging.userData (Logging.st w))).
Proof.
  intros es w.
  destruct (logging_inv_run es logging_inv_mount)
    as (_ & _ & _ & Htype & _).
  exact Htype.
Qed.

(** The form does not wait for the outcome: a submit shows the success
    note and clears the selection and the notes at once, and when the
    request then fails (rejected, unreadable, or answered without
    [success]) nothing is stored, one alert is shown and [isSyncing] is
    cleared; the form stays cleared, the success note shown. *)
Theorem logging_failure_after_success_note :
  forall (w : Logging.World) r,
    Logging.stored r = false ->
    let w1 := Logging.step w (Logging.Form Tracker.Submit) in
    let w2 := Logging.step w1
                (Logging.Respond (length (Logging.in_flight w)) r) in
    Tracker.showSuccess (Tracker.st (Logging.form w1)) = true
    /\ Logging.in_flight w1
       = Logging.in_flight w
         ++ [Tracker.data_of (Tracker.st (Logging.form w))]
    /\ Logging.userData (Logging.st w2) = Logging.userData (Logging.st w)
    /\ Logging.isSyncing (Logging.st w2) = false
    /\ length (Logging.alerts w2) = S (length (Logging.alerts w))
    /\ Logging.in_flight w2 = Logging.in_flight w
    /\ Tracker.st (Logging.form w2)
       = Tracker.mkState
           (Tracker.mood (Tracker.st (Logging.form w)))
           (Tracker.fatigue (Tracker.st (Logging.form w)))
           [] [] None []
           (Tracker.customSymptom (Tracker.st (Logging.form w)))
           (Tracker.customMed (Tracker.st (Logging.form w)))
           true.
Proof.
  intros w r Hr w1 w2. unfold w2, w1. cbn [Logging.step].
  unfold Logging.handleLogSymptom, Logging.with_form.
  cbn [Logging.in_flight Logging.form Logging.st Logging.alerts
       Logging.console Logging.clock].
  rewrite nth_error_last, remove_nth_last.
  destruct r as [| |[|] entry_id]; try discriminate; simpl;
    rewrite length_app, Nat.add_comm; repeat split.
Qed.

Lemma logging_failure_after_success_note_witness :
  let w := Logging.run Logging.mount
             [Logging.Form (Tracker.ClickSymptom 6);
              Logging.Form (Tracker.TypeNotes (lit "bad day"))] in
  let w1 := Logging.step w (Logging.Form Tracker.Submit) in
  let w2 := Logging.step w1
              (Logging.Respond (length (Logging.in_flight w))
                               Logging.Rejected) in
  SymptomData.symptoms (Tracker.data_of (Tracker.st (Logging.form w)))
  = [lit "Brain Fog"]
  /\ Tracker.showSuccess (Tracker.st (Logging.form w2)) = true
  /\ Tracker.selectedSymptoms (Tracker.st (Logging.form w2)) = []
  /\ Logging.logs (Logging.userData (Logging.st w2)) = [].
Proof.
  intros w w1 w2. split; [reflexivity|].
  destruct (@logging_failure_after_success_note w Logging.Rejected eq_refl)
    as (_ & _ & Hu & _ & _ & _ & Hf).
  fold w1 w2 in Hu, Hf. rewrite Hf, Hu. repeat split.
Defined.

(* ================================================================== *)
(** ** The report and its cache *)
(* ================================================================== *)

Lemma count_remove_nth {A} (f : A -> bool) (l : list A) :
  forall i x,
    nth_error l i = Some x ->
    length (filter f l)
    = length (filter f (remove_nth i l)) + (if f x then 1 else 0).
Proof.
  induction l as [|y l IH]; intros [|i] x H; simpl in H; try discriminate.
  - injection H as ->. simpl. destruct (f x); simpl; lia.
  - specialize (IH i x H). simpl. destruct (f y); simpl; lia.
Qed.

Lemma filter_none {A} (f : A -> bool) (l : list A) :
  Forall (fun x => f x = false) l -> filter f l = [].
Proof.
  induction 1 as [|x l Hx _ IH]; simpl; [reflexivity|].
  rewrite Hx. exact IH.
Qed.

Lemma report_inv_step {Entry Summary} (w : Report.World Entry Summary) e :
  report_inv w -> report_inv (Report.step w e).
Proof.
  intros [Hle Hown]. unfold report_inv, Report.own_in_flight in *.
  destruct e as [d| | |i r now]; simpl.
  - auto.
  - destruct (Report.isLoading (Report.st w)) eqn:Hl.
    + rewrite Hl. auto.
    + simpl. split.
      * apply Forall_app. split; [exact Hle|]. repeat constructor.
      * rewrite filter_app, length_app, Hown. simpl.
        rewrite Nat.eqb_refl. reflexivity.
  - split.
    + eapply Forall_impl; [|exact Hle]. simpl. intros t Ht. lia.
    + rewrite filter_none.
      * unfold Report.restore.
        destruct (Report.msally_report_logs (Report.storage w));
          [destruct (Report.msally_report_summary (Report.storage w))|];
          reflexivity.
      * eapply Forall_impl; [|exact Hle]. simpl. intros t Ht.
        apply Nat.eqb_neq. lia.
  - destruct (nth_error (Report.in_flight w) i) as [[d m]|] eqn:Hn;
      [|auto].
    simpl. split; [apply Forall_remove_nth; exact Hle|].
    pose proof (count_remove_nth
                  (fun t => Nat.eqb (snd t) (Report.mounts w)) _ _ Hn)
      as Hc.
    simpl in Hc. rewrite Hown in Hc.
    destruct (Nat.eqb m (Report.mounts w)).
    + destruct (Report.isLoading (Report.st w)); [|lia].
      destruct r as [|l s]; simpl; lia.
    + lia.
Qed.

(** Whatever the user and the network do, the mounted report has at most
    one call of [fetchData] unanswered, and has one exactly while
    [isLoading] is set, when the refresh button is disabled and a click
    on it does nothing.  (Calls made before the tab was left may still
    be unanswered as well.) *)
Theorem report_one_refresh_in_flight :
  forall (Entry Summary : Type) (es : list (Report.Event Entry Summary)),
    let w := Report.run (Report.mount Entry Summary) es in
    Report.own_in_flight w
    = (if Report.isLoading (Report.st w) then 1 else 0)
    /\ (Report.isLoading (Report.st w) = true ->
        Report.step w (Report.Refresh Entry Summary) = w).
Proof.
  intros Entry Summary es w.
  assert (H : forall w0 : Report.World Entry Summary,
             report_inv w0 -> report_inv (Report.run w0 es)).
  { induction es as [|e es IH]; intros w0 H0; simpl; auto.
    apply IH. apply report_inv_step. exact H0. }
  destruct (H (Report.mount Entry Summary)) as [_ Hown].
  { split; [constructor|reflexivity]. }
  split; [exact Hown|].
  intros Hl. simpl. fold w. rewrite Hl. reflexivity.
Qed.

(** What a call of [fetchData] of the mounted component shows when both
    requests succeed is what the cache gives back: leaving the tab and
    coming back right after shows the same logs, summary and time, and
    the number of days the data were asked for, whatever the selector
    showed meanwhile. *)
Theorem report_cache_round_trip :
  forall (Entry Summary : Type) (w : Report.World Entry Summary)
         i d l s now,
    nth_error (Report.in_flight w) i = Some (d, Report.mounts w) ->
    truthy now = true ->
    let w1 := Report.step w
                (Report.Answer i (Report.Answered (Some l) (Some s)) now) in
    let w2 := Report.step w1 (Report.Reopen Entry Summary) in
    Report.logs (Report.st w1) = l
    /\ Report.summary (Report.st w1) = Some s
    /\ Report.lastFetched (Report.st w1) = Some now
    /\ Report.isLoading (Report.st w1) = false
    /\ Report.logs (Report.st w2) = l
    /\ Report.summary (Report.st w2) = Some s
    /\ Report.lastFetched (Report.st w2) = Some now
    /\ Report.days (Report.st w2) = d
    /\ Report.isLoading (Report.st w2) = false.
Proof.
  intros Entry Summary w i d l s now Hn Hnow w1 w2.
  unfold w2, w1. simpl. rewrite Hn. simpl.
  rewrite Nat.eqb_refl, Hnow. simpl. repeat split.
Qed.

Lemma report_cache_round_trip_witness :
  let w := Report.run (Report.mount nat nat)
             [Report.SelectDays nat nat 30; Report.Refresh nat nat;
              Report.SelectDays nat nat 90] in
  let w1 := Report.step w
              (Report.Answer 0 (Report.Answered (Some [1; 2]) (Some 3))
                             (lit "10:15 AM")) in
  let w2 := Report.step w1 (Report.Reopen nat nat) in
  Report.days (Report.st w1) = 90%N
  /\ Report.logs (Report.st w2) = [1; 2]
  /\ Report.days (Report.st w2) = 30%N.
Proof.
  intros w w1 w2. split; [reflexivity|].
  destruct (@report_cache_round_trip nat nat w 0 30%N [1; 2] 3
              (lit "10:15 AM") eq_refl eq_refl)
    as (_ & _ & _ & _ & Hl & _ & _ & Hd & _).
  split; [exact Hl | exact Hd].
Defined.
